(** * Beat Sequencer: look-ahead scheduler and sound bank of [app.js]

    A shallow embedding of the sequencer core of [src/app.js] and the
    properties of its specification.

    Conventions of the embedding.
    - The module-level [let] variables of [app.js] are the fields of the
      record [App]; every function of the source is a computation in the
      monad [M] over that record, which also carries JavaScript exceptions
      (a handler that throws keeps the assignments it made before the throw).
    - Clock times, trigger times and durations are JavaScript numbers, that
      is binary64 doubles: they are primitive floats, and the sums and
      comparisons of the scheduler are the rounded ones of the source.
    - The tempo is an integer, as the slider and [savePattern] give it.
    - [audioCtx.currentTime] is read from the audio context record; it is
      constant during one handler and is moved by [advanceClock] between
      them.  A clock reading is a finite double that is not negative.
    - A method of the Web Audio API that takes a time raises a [TypeError]
      for a time that is not finite and a [RangeError] for a negative one.
    - [setTimeout]/[clearTimeout] act on an explicit queue of pending timers.
    - [trace] is instrumentation: it records the calls of [scheduleStep],
      [playSoundAtTime] and [createNoiseBuffer] and the items written to
      [localStorage]; nothing reads it.
    - Values that come out of [JSON.parse] are of type [value].
    - Of the DOM, the attributes the handlers write are the record [UI];
      [updateGridDisplay] and [updateCellDisplay] are the reads of the
      pattern they make, which can throw.  The waveform canvas and the
      timers of [showToast] are left out. *)

From Stdlib Require Import ZArith QArith Qabs Qround Lqa Lia List Bool String Ascii.
From Stdlib Require Import DecimalString.
From Stdlib Require Import PrimFloat FloatOps SpecFloat Uint63.
Import ListNotations.
Open Scope string_scope.
Open Scope list_scope.
Open Scope Z_scope.

#[local] Set Warnings "-inexact-float".

(** ** Configuration *)

Module CONFIG.
Definition steps : Z := 16.
Definition rows : Z := 6.
Definition defaultBpm : Z := 120.
Definition minBpm : Z := 60.
Definition maxBpm : Z := 180.
Definition storageKey : string := "beatSequencer_pattern".
Definition scheduleAheadTime : float := 0.1.
Definition lookaheadInterval : float := 25.
End CONFIG.

Definition SOUNDS : list string :=
  ["kick"; "snare"; "hihat"; "tom"; "clap"; "rim"].

(** ** JavaScript values *)

#[local] Set Warnings "-register-all".

Inductive value : Type :=
| VUndefined
| VNull
| VBool (b : bool)
| VNum (n : Z)
| VStr (s : string)
| VArr (l : list value)
| VObj (l : list (string * value)).

Inductive Exn : Type :=
| TypeError
| SyntaxError
| RangeError
| SecurityError
| QuotaExceededError.

Definition truthy (v : value) : bool :=
  match v with
  | VUndefined | VNull => false
  | VBool b => b
  | VNum n => negb (Z.eqb n 0)
  | VStr s => negb (String.eqb s "")
  | VArr _ | VObj _ => true
  end.

Definition isArray (v : value) : bool :=
  match v with VArr _ => true | _ => false end.

Fixpoint lookup (k : string) (l : list (string * value)) : value :=
  match l with
  | [] => VUndefined
  | (k', v) :: l' => if String.eqb k k' then v else lookup k l'
  end.

(** The property name of an integer index. *)
Definition index_key (i : Z) : string :=
  if i <? 0 then String "-"%char (NilZero.string_of_uint (N.to_uint (Z.to_N (- i))))
  else NilZero.string_of_uint (N.to_uint (Z.to_N i)).

(** The element of an array at an integer index: [undefined] outside the
    array, so for every negative index. *)
Definition element (i : Z) (l : list value) : value :=
  if i <? 0 then VUndefined else nth (Z.to_nat i) l VUndefined.

(** [v[i]] *)
Definition get_index (v : value) (i : Z) : Exn + value :=
  match v with
  | VUndefined | VNull => inl TypeError
  | VArr l => inr (element i l)
  | VStr s =>
      inr (if i <? 0 then VUndefined
           else match String.get (Z.to_nat i) s with
                | Some c => VStr (String c EmptyString)
                | None => VUndefined
                end)
  | VObj l => inr (lookup (index_key i) l)
  | VBool _ | VNum _ => inr VUndefined
  end.

(** [v.length] *)
Definition get_length (v : value) : Exn + value :=
  match v with
  | VUndefined | VNull => inl TypeError
  | VArr l => inr (VNum (Z.of_nat (List.length l)))
  | VStr s => inr (VNum (Z.of_nat (String.length s)))
  | VObj l => inr (lookup "length" l)
  | VBool _ | VNum _ => inr VUndefined
  end.

(** [v === n] for a number [n]. *)
Definition strict_eq_num (v : value) (n : Z) : bool :=
  match v with VNum m => Z.eqb m n | _ => false end.

(** ** Storage items *)

(** What [localStorage.getItem] and [JSON.parse] give for the storage key:
    nothing; text that does not parse (or that parses to [null], whose
    fields cannot be read: the handler throws at the same place); a value
    whose [pattern] field is any value ([VUndefined] when absent) and whose
    [bpm] field, when present, is an integer; or [getItem] itself is refused
    and throws.  A [bpm] field that is not an integer is outside the
    embedding, as every tempo that is not an integer is. *)
Inductive StorageItem : Type :=
| NoItem
| Unparsable
| Item (saved_pattern : value) (saved_bpm : option Z)
| Refused.

(** ** Times *)

(** What a method of the Web Audio API that takes a time ([setValueAtTime],
    [exponentialRampToValueAtTime], [start], [stop]) does with it: a time
    that is not finite is refused with a [TypeError] when it is converted to
    the [double] of the interface, a negative one with a [RangeError]. *)
Definition timeCheck (t : float) : option Exn :=
  if negb (is_finite t) then Some TypeError
  else if (t <? 0)%float then Some RangeError
  else None.

Definition timeOk (t : float) : bool :=
  match timeCheck t with None => true | Some _ => false end.

(** A reading of [audioCtx.currentTime]: a finite double, not negative. *)
Record ClockReading : Type := {
  reading :> float;
  reading_ok : timeCheck reading = None
}.

(** The reading [t], for a [t] that can be one. *)
Definition clockAt (t : float) : ClockReading :=
  match timeCheck t as c return (timeCheck t = c -> ClockReading) with
  | None => fun H => {| reading := t; reading_ok := H |}
  | Some _ => fun _ => {| reading := 0%float; reading_ok := eq_refl |}
  end eq_refl.

(** ** The audio context *)

Definition BufferId := nat.

Record Buffer : Type := {
  buf_channels : Z;
  buf_length : Q;
  buf_rate : Q;
  buf_first_draw : Z   (* index of the first [Math.random()] draw stored in it *)
}.

Inductive Waveform : Type := sine | triangle | square.
Inductive FilterKind : Type := highpass | bandpass.

Record Filter : Type := {
  filt_kind : FilterKind;
  filt_freq : Q;
  filt_Q : option Q
}.

Inductive Source : Type :=
| Oscillator (w : Waveform) (freq : Q) (sweep : option (Q * float))
| BufferSource (buffer : option BufferId).

(** One source node with the chain that leads it to [masterGain]:
    filters, a fixed level, and the envelope
    [setValueAtTime env_from env_at; exponentialRampToValueAtTime env_to env_until]. *)
Record Voice : Type := {
  v_source : Source;
  v_filters : list Filter;
  v_level : Q;
  env_from : Q;
  env_at : float;
  env_to : Q;
  env_until : float;
  v_start : float;
  v_stop : float
}.

Record Analyser : Type := { fftSize : Z; smoothingTimeConstant : Q }.

Record AudioContext : Type := {
  currentTime : ClockReading;
  sampleRate : Q;
  masterGain : Q;
  analyser : Analyser;
  buffers : list Buffer;
  graph : list Voice
}.

Record NoiseBuffers : Type := {
  short : option BufferId;
  medium : option BufferId;
  long : option BufferId
}.

(** ** Host platform: timers, the DOM attributes written, instrumentation *)

Inductive Callback : Type :=
| CbScheduler
| CbStepUI (step : Z).

Record Timer : Type := { timer_id : nat; timer_cb : Callback; timer_delay : float }.

Record UI : Type := {
  playing : bool;
  btnText : string;
  bpmValue : Z;
  bpmSlider : Z;
  highlight : option Z;
  toasts : list string
}.

Inductive Event : Type :=
| Commit (step : Z) (time : float)
| Trigger (soundName : string) (time : float)
| NoiseGenerated (id : BufferId)
| Stored (item : StorageItem).

(** ** State *)

Record App : Type := {
  audioCtx : option AudioContext;
  pattern : value;
  currentStep : Z;
  isPlaying : bool;
  schedulerTimerId : option nat;
  bpm : Z;
  nextStepTime : float;
  lastScheduledStep : Z;
  noiseBuffers : NoiseBuffers;
  timers : list Timer;
  nextTimerId : nat;
  ui : UI;
  trace : list Event;
  randomDraws : Z
}.

Definition ctx_set_currentTime (x : ClockReading) (c : AudioContext) : AudioContext :=
  {| currentTime := x; sampleRate := sampleRate c; masterGain := masterGain c;
     analyser := analyser c; buffers := buffers c; graph := graph c |}.
Definition ctx_set_buffers (x : list Buffer) (c : AudioContext) : AudioContext :=
  {| currentTime := currentTime c; sampleRate := sampleRate c;
     masterGain := masterGain c; analyser := analyser c; buffers := x; graph := graph c
     |}.

Definition ctx_set_graph (x : list Voice) (c : AudioContext) : AudioContext :=
  {| currentTime := currentTime c; sampleRate := sampleRate c;
     masterGain := masterGain c; analyser := analyser c; buffers := buffers c;
     graph := x |}.

Definition ui_set_playing (x : bool) (u : UI) : UI :=
  {| playing := x; btnText := btnText u; bpmValue := bpmValue u;
     bpmSlider := bpmSlider u; highlight := highlight u; toasts := toasts u |}.

Definition ui_set_btnText (x : string) (u : UI) : UI :=
  {| playing := playing u; btnText := x; bpmValue := bpmValue u;
     bpmSlider := bpmSlider u; highlight := highlight u; toasts := toasts u |}.

Definition ui_set_bpmValue (x : Z) (u : UI) : UI :=
  {| playing := playing u; btnText := btnText u; bpmValue := x;
     bpmSlider := bpmSlider u; highlight := highlight u; toasts := toasts u |}.

Definition ui_set_bpmSlider (x : Z) (u : UI) : UI :=
  {| playing := playing u; btnText := btnText u; bpmValue := bpmValue u; bpmSlider := x;
     highlight := highlight u; toasts := toasts u |}.

Definition ui_set_highlight (x : option Z) (u : UI) : UI :=
  {| playing := playing u; btnText := btnText u; bpmValue := bpmValue u;
     bpmSlider := bpmSlider u; highlight := x; toasts := toasts u |}.

Definition ui_set_toasts (x : list string) (u : UI) : UI :=
  {| playing := playing u; btnText := btnText u; bpmValue := bpmValue u;
     bpmSlider := bpmSlider u; highlight := highlight u; toasts := x |}.

Definition set_audioCtx (x : option AudioContext) (s : App) : App :=
  {| audioCtx := x; pattern := pattern s; currentStep := currentStep s;
     isPlaying := isPlaying s; schedulerTimerId := schedulerTimerId s; bpm := bpm s;
     nextStepTime := nextStepTime s; lastScheduledStep := lastScheduledStep s;
     noiseBuffers := noiseBuffers s; timers := timers s; nextTimerId := nextTimerId s;
     ui := ui s; trace := trace s; randomDraws := randomDraws s |}.

Definition set_pattern (x : value) (s : App) : App :=
  {| audioCtx := audioCtx s; pattern := x; currentStep := currentStep s;
     isPlaying := isPlaying s; schedulerTimerId := schedulerTimerId s; bpm := bpm s;
     nextStepTime := nextStepTime s; lastScheduledStep := lastScheduledStep s;
     noiseBuffers := noiseBuffers s; timers := timers s; nextTimerId := nextTimerId s;
     ui := ui s; trace := trace s; randomDraws := randomDraws s |}.

Definition set_currentStep (x : Z) (s : App) : App :=
  {| audioCtx := audioCtx s; pattern := pattern s; currentStep := x;
     isPlaying := isPlaying s; schedulerTimerId := schedulerTimerId s; bpm := bpm s;
     nextStepTime := nextStepTime s; lastScheduledStep := lastScheduledStep s;
     noiseBuffers := noiseBuffers s; timers := timers s; nextTimerId := nextTimerId s;
     ui := ui s; trace := trace s; randomDraws := randomDraws s |}.

Definition set_isPlaying (x : bool) (s : App) : App :=
  {| audioCtx := audioCtx s; pattern := pattern s; currentStep := currentStep s;
     isPlaying := x; schedulerTimerId := schedulerTimerId s; bpm := bpm s;
     nextStepTime := nextStepTime s; lastScheduledStep := lastScheduledStep s;
     noiseBuffers := noiseBuffers s; timers := timers s; nextTimerId := nextTimerId s;
     ui := ui s; trace := trace s; randomDraws := randomDraws s |}.

Definition set_schedulerTimerId (x : option nat) (s : App) : App :=
  {| audioCtx := audioCtx s; pattern := pattern s; currentStep := currentStep s;
     isPlaying := isPlaying s; schedulerTimerId := x; bpm := bpm s;
     nextStepTime := nextStepTime s; lastScheduledStep := lastScheduledStep s;
     noiseBuffers := noiseBuffers s; timers := timers s; nextTimerId := nextTimerId s;
     ui := ui s; trace := trace s; randomDraws := randomDraws s |}.

Definition set_bpm (x : Z) (s : App) : App :=
  {| audioCtx := audioCtx s; pattern := pattern s; currentStep := currentStep s;
     isPlaying := isPlaying s; schedulerTimerId := schedulerTimerId s; bpm := x;
     nextStepTime := nextStepTime s; lastScheduledStep := lastScheduledStep s;
     noiseBuffers := noiseBuffers s; timers := timers s; nextTimerId := nextTimerId s;
     ui := ui s; trace := trace s; randomDraws := randomDraws s |}.

Definition set_nextStepTime (x : float) (s : App) : App :=
  {| audioCtx := audioCtx s; pattern := pattern s; currentStep := currentStep s;
     isPlaying := isPlaying s; schedulerTimerId := schedulerTimerId s; bpm := bpm s;
     nextStepTime := x; lastScheduledStep := lastScheduledStep s;
     noiseBuffers := noiseBuffers s; timers := timers s; nextTimerId := nextTimerId s;
     ui := ui s; trace := trace s; randomDraws := randomDraws s |}.

Definition set_lastScheduledStep (x : Z) (s : App) : App :=
  {| audioCtx := audioCtx s; pattern := pattern s; currentStep := currentStep s;
     isPlaying := isPlaying s; schedulerTimerId := schedulerTimerId s; bpm := bpm s;
     nextStepTime := nextStepTime s; lastScheduledStep := x;
     noiseBuffers := noiseBuffers s; timers := timers s; nextTimerId := nextTimerId s;
     ui := ui s; trace := trace s; randomDraws := randomDraws s |}.

Definition set_noiseBuffers (x : NoiseBuffers) (s : App) : App :=
  {| audioCtx := audioCtx s; pattern := pattern s; currentStep := currentStep s;
     isPlaying := isPlaying s; schedulerTimerId := schedulerTimerId s; bpm := bpm s;
     nextStepTime := nextStepTime s; lastScheduledStep := lastScheduledStep s;
     noiseBuffers := x; timers := timers s; nextTimerId := nextTimerId s; ui := ui s;
     trace := trace s; randomDraws := randomDraws s |}.

Definition set_timers (x : list Timer) (s : App) : App :=
  {| audioCtx := audioCtx s; pattern := pattern s; currentStep := currentStep s;
     isPlaying := isPlaying s; schedulerTimerId := schedulerTimerId s; bpm := bpm s;
     nextStepTime := nextStepTime s; lastScheduledStep := lastScheduledStep s;
     noiseBuffers := noiseBuffers s; timers := x; nextTimerId := nextTimerId s;
     ui := ui s; trace := trace s; randomDraws := randomDraws s |}.

Definition set_nextTimerId (x : nat) (s : App) : App :=
  {| audioCtx := audioCtx s; pattern := pattern s; currentStep := currentStep s;
     isPlaying := isPlaying s; schedulerTimerId := schedulerTimerId s; bpm := bpm s;
     nextStepTime := nextStepTime s; lastScheduledStep := lastScheduledStep s;
     noiseBuffers := noiseBuffers s; timers := timers s; nextTimerId := x; ui := ui s;
     trace := trace s; randomDraws := randomDraws s |}.

Definition set_ui (x : UI) (s : App) : App :=
  {| audioCtx := audioCtx s; pattern := pattern s; currentStep := currentStep s;
     isPlaying := isPlaying s; schedulerTimerId := schedulerTimerId s; bpm := bpm s;
     nextStepTime := nextStepTime s; lastScheduledStep := lastScheduledStep s;
     noiseBuffers := noiseBuffers s; timers := timers s; nextTimerId := nextTimerId s;
     ui := x; trace := trace s; randomDraws := randomDraws s |}.

Definition set_trace (x : list Event) (s : App) : App :=
  {| audioCtx := audioCtx s; pattern := pattern s; currentStep := currentStep s;
     isPlaying := isPlaying s; schedulerTimerId := schedulerTimerId s; bpm := bpm s;
     nextStepTime := nextStepTime s; lastScheduledStep := lastScheduledStep s;
     noiseBuffers := noiseBuffers s; timers := timers s; nextTimerId := nextTimerId s;
     ui := ui s; trace := x; randomDraws := randomDraws s |}.

Definition set_randomDraws (x : Z) (s : App) : App :=
  {| audioCtx := audioCtx s; pattern := pattern s; currentStep := currentStep s;
     isPlaying := isPlaying s; schedulerTimerId := schedulerTimerId s; bpm := bpm s;
     nextStepTime := nextStepTime s; lastScheduledStep := lastScheduledStep s;
     noiseBuffers := noiseBuffers s; timers := timers s; nextTimerId := nextTimerId s;
     ui := ui s; trace := trace s; randomDraws := x |}.

(** ** The monad of handlers: state, exceptions, non-termination *)

Inductive Outcome (A : Type) : Type :=
| Normal (a : A)
| Throw (e : Exn)
| Diverge.

Arguments Normal {A} a.
Arguments Throw {A} e.
Arguments Diverge {A}.

Definition M (A : Type) : Type := App -> Outcome A * App.

Definition ret {A : Type} (a : A) : M A := fun s => (Normal a, s).

Definition bind {A B : Type} (c : M A) (k : A -> M B) : M B :=
  fun s =>
    match c s with
    | (Normal a, s') => k a s'
    | (Throw e, s') => (Throw e, s')
    | (Diverge, s') => (Diverge, s')
    end.

Declare Scope js_scope.
Delimit Scope js_scope with js.
Notation "x <- c ;; k" := (bind c (fun x => k))
  (at level 61, c at next level, right associativity) : js_scope.
Notation "c ;; k" := (bind c (fun _ => k))
  (at level 61, right associativity) : js_scope.
Open Scope js_scope.

Definition throw {A : Type} (e : Exn) : M A := fun s => (Throw e, s).
Definition diverge {A : Type} : M A := fun s => (Diverge, s).
Definition gets {A : Type} (f : App -> A) : M A := fun s => (Normal (f s), s).
Definition modify (f : App -> App) : M unit := fun s => (Normal tt, f s).

Definition lift {A : Type} (r : Exn + A) : M A :=
  match r with inl e => throw e | inr a => ret a end.

(** [try { c } catch (e) { h e }] *)
Definition try_catch {A : Type} (c : M A) (h : Exn -> M A) : M A :=
  fun s =>
    match c s with
    | (Throw e, s') => h e s'
    | r => r
    end.

Definition when (b : bool) (c : M unit) : M unit := if b then c else ret tt.

Fixpoint for_each {A : Type} (l : list A) (body : A -> M unit) : M unit :=
  match l with
  | [] => ret tt
  | x :: l' => body x ;; for_each l' body
  end.

(** The final state and the outcome of a computation. *)
Definition exec {A : Type} (c : M A) (s : App) : App := snd (c s).
Definition outcome {A : Type} (c : M A) (s : App) : Outcome A := fst (c s).

(** ** Numbers *)

Definition Qltb (a b : Q) : bool := negb (Qle_bool b a).

(** [Math.max(0, x)] *)
Definition max0 (x : float) : float :=
  if is_nan x then x else if (0 <? x)%float then x else 0%float.

(** [Math.max(lo, Math.min(hi, n))] *)
Definition clamp (lo hi n : Z) : Z := Z.max lo (Z.min hi n).

(** The double nearest to an integer, and the binary64 evaluation of
    [60.0 / bpm / 4]; the exact value of a finite double. *)
Definition f64_of_Z (n : Z) : float :=
  SF2Prim (binary_normalize prec emax n 0 false).

Definition getStepDuration_f64 (bpm : float) : float :=
  PrimFloat.div (PrimFloat.div 60%float bpm) 4%float.

Definition f64_to_Q (x : float) : option Q :=
  match Prim2SF x with
  | S754_zero _ => Some 0%Q
  | S754_finite sign m e =>
      let mag :=
        if Z.leb 0 e then inject_Z (Z.pos m * 2 ^ e)
        else Qmake (Z.pos m) (Pos.pow 2 (Z.to_pos (- e))) in
      Some (if sign then Qopp mag else mag)
  | S754_infinity _ | S754_nan => None
  end.

(** ** Host operations *)

Definition log (e : Event) : M unit :=
  modify (fun s => set_trace (trace s ++ [e]) s).

Definition updateUI (f : UI -> UI) : M unit :=
  modify (fun s => set_ui (f (ui s)) s).

Definition showToast (message : string) : M unit :=
  updateUI (fun u => ui_set_toasts (toasts u ++ [message]) u).

Definition setTimeout (cb : Callback) (delay : float) : M nat :=
  id <- gets nextTimerId ;;
  modify (fun s => set_timers
            (timers s ++ [{| timer_id := id; timer_cb := cb; timer_delay := delay |}]) s) ;;
  modify (set_nextTimerId (S id)) ;;
  ret id.

Definition clearTimeout (id : nat) : M unit :=
  modify (fun s => set_timers
            (filter (fun t => negb (Nat.eqb (timer_id t) id)) (timers s)) s).

(** Dereferencing [audioCtx]: a [TypeError] while it is [null]. *)
Definition theAudioCtx : M AudioContext :=
  c <- gets audioCtx ;;
  match c with
  | Some ctx => ret ctx
  | None => throw TypeError
  end.

(** [audioCtx.currentTime] *)
Definition readCurrentTime : M float :=
  ctx <- theAudioCtx ;; ret (reading (currentTime ctx)).

(** ** Pattern management *)

Definition createEmptyPattern : value :=
  VArr (repeat (VArr (repeat (VBool false) (Z.to_nat CONFIG.steps)))
               (Z.to_nat CONFIG.rows)).

Definition isNullish (v : value) : bool :=
  match v with VUndefined | VNull => true | _ => false end.

(** [a[n] = x] on an array: writing past the end leaves holes, which read
    as [undefined]. *)
Fixpoint array_put (n : nat) (x : value) (l : list value) : list value :=
  match n, l with
  | O, [] => [x]
  | O, _ :: l' => x :: l'
  | S n', [] => VUndefined :: array_put n' x []
  | S n', y :: l' => y :: array_put n' x l'
  end.

Fixpoint put (k : string) (x : value) (l : list (string * value))
  : list (string * value) :=
  match l with
  | [] => [(k, x)]
  | (k', v) :: l' => if String.eqb k k' then (k, x) :: l' else (k', v) :: put k x l'
  end.

(** [v[i] = x] in strict mode: only arrays and objects take the write.  On
    an array a negative index names a property that is no element: the
    elements stay as they are (the property itself, which nothing but a read
    at that same index could see, is not kept). *)
Definition set_index (v : value) (i : Z) (x : value) : Exn + value :=
  match v with
  | VArr l => inr (VArr (if i <? 0 then l else array_put (Z.to_nat i) x l))
  | VObj l => inr (VObj (put (index_key i) x l))
  | _ => inl TypeError
  end.

Definition range (n : Z) : list Z := map Z.of_nat (seq 0 (Z.to_nat n)).

(** [pattern[row][step]] *)
Definition readCell (row step : Z) : M value :=
  p <- gets pattern ;;
  r <- lift (get_index p row) ;;
  lift (get_index r step).

(** The grid built by [buildGrid] has one cell element for each of the 6
    rows and 16 steps. *)
Definition hasCell (row step : Z) : bool :=
  (0 <=? row) && (row <? CONFIG.rows) && (0 <=? step) && (step <? CONFIG.steps).

(** [updateCellDisplay]: if the cell element exists, it is given the class
    and the attribute of [pattern[row][step]]. *)
Definition updateCellDisplay (row step : Z) : M unit :=
  when (hasCell row step) (_ <- readCell row step ;; ret tt).

(** [updateGridDisplay]: every cell element, in document order, is given
    the class and the attribute of its [pattern[row][step]]. *)
Definition updateGridDisplay : M unit :=
  for_each (range CONFIG.rows) (fun row =>
    for_each (range CONFIG.steps) (fun step =>
      _ <- readCell row step ;; ret tt)).

Definition toggleCell (row step : Z) : M unit :=
  p <- gets pattern ;;
  r <- lift (get_index p row) ;;
  cell <- lift (get_index r step) ;;
  r' <- lift (set_index r step (VBool (negb (truthy cell)))) ;;
  p' <- lift (set_index p row r') ;;
  modify (set_pattern p') ;;
  updateCellDisplay row step.

Definition clearPattern : M unit :=
  modify (set_pattern createEmptyPattern) ;;
  updateGridDisplay ;;
  showToast "Pattern cleared".

Definition densities : list Q := [25 # 100; 2 # 10; 4 # 10; 15 # 100; 1 # 10; 15 # 100].

Definition chance (rowIdx stepIdx : Z) : Q :=
  let onBeat := Z.eqb (stepIdx mod 4) 0 in
  let offBeat := Z.eqb (stepIdx mod 4) 2 in
  let c := nth (Z.to_nat rowIdx) densities 0%Q in
  let c := if Z.eqb rowIdx 0 && onBeat then 7 # 10 else c in
  if Z.eqb rowIdx 1 && offBeat then 5 # 10 else c.

(** [random k] is the value of the [k]-th call of [Math.random()]. *)
Definition randomizePattern (random : Z -> Q) : M unit :=
  d <- gets randomDraws ;;
  modify (set_pattern
    (VArr (map (fun rowIdx =>
       VArr (map (fun stepIdx =>
         VBool (Qltb (random (d + rowIdx * CONFIG.steps + stepIdx))
                     (chance rowIdx stepIdx)))
         (range CONFIG.steps)))
       (range CONFIG.rows)))) ;;
  modify (set_randomDraws (d + CONFIG.rows * CONFIG.steps)) ;;
  updateGridDisplay ;;
  showToast "Random pattern generated".

(** ** Audio engine *)

(** A method of [audioCtx] that changes the context object in place. *)
Definition mapCtx (f : AudioContext -> AudioContext) (s : App) : App :=
  match audioCtx s with
  | Some ctx => set_audioCtx (Some (f ctx)) s
  | None => s
  end.

Definition updateCtx (f : AudioContext -> AudioContext) : M unit :=
  _ <- theAudioCtx ;;
  modify (mapCtx f).

(** Connect a configured source node, through its chain, to [masterGain]. *)
Definition connect (v : Voice) : M unit :=
  updateCtx (fun ctx => ctx_set_graph (graph ctx ++ [v]) ctx).

(** Iterations of [for (let i = 0; i < length; i++)]. *)
Definition loopCount (length : Q) : Z := Z.max 0 (Qceiling length).

Definition createNoiseBuffer (duration : Q) : M BufferId :=
  ctx <- theAudioCtx ;;
  let rate := sampleRate ctx in
  let length := (rate * duration)%Q in
  let id := List.length (buffers ctx) in
  d <- gets randomDraws ;;
  updateCtx (fun ctx => ctx_set_buffers
     (buffers ctx ++ [{| buf_channels := 1; buf_length := length; buf_rate := rate;
                         buf_first_draw := d |}]) ctx) ;;
  modify (set_randomDraws (d + loopCount length)) ;;
  log (NoiseGenerated id) ;;
  ret id.

Definition generateNoiseBuffers : M unit :=
  b <- createNoiseBuffer (5 # 100) ;;
  modify (fun s => set_noiseBuffers
    {| short := Some b; medium := medium (noiseBuffers s); long := long (noiseBuffers s) |} s) ;;
  b <- createNoiseBuffer (15 # 100) ;;
  modify (fun s => set_noiseBuffers
    {| short := short (noiseBuffers s); medium := Some b; long := long (noiseBuffers s) |} s) ;;
  b <- createNoiseBuffer (3 # 10) ;;
  modify (fun s => set_noiseBuffers
    {| short := short (noiseBuffers s); medium := medium (noiseBuffers s); long := Some b |} s).

(** [rate] is the sample rate of the context that [new AudioContext()]
    returns; its clock starts at 0. *)
Definition initAudio (rate : Q) : M unit :=
  c <- gets audioCtx ;;
  match c with
  | Some _ => ret tt
  | None =>
      modify (set_audioCtx (Some
        {| currentTime := clockAt 0; sampleRate := rate; masterGain := 7 # 10;
           analyser := {| fftSize := 2048; smoothingTimeConstant := 8 # 10 |};
           buffers := []; graph := [] |})) ;;
      generateNoiseBuffers
  end.

(** The first method call of every [play] function that takes a time takes
    [time] itself, before any node is connected to [masterGain]: with a
    [time] the API refuses, the function throws there and nothing sounds.
    The later calls take [time] plus a constant between 0 and 0.3, which is
    finite and not negative when [time] is. *)
Definition atTime (time : float) : M unit :=
  match timeCheck time with
  | Some e => throw e
  | None => ret tt
  end.

Definition playKick (time : float) : M unit :=
  atTime time ;;
  connect {| v_source := Oscillator sine 150 (Some (30%Q, time + 0.1))%float;
             v_filters := []; v_level := 1;
             env_from := 1; env_at := time;
             env_to := 1 # 1000; env_until := (time + 0.3)%float;
             v_start := time; v_stop := (time + 0.3)%float |} ;;
  connect {| v_source := Oscillator sine 1000 (Some (100%Q, time + 0.02))%float;
             v_filters := []; v_level := 1;
             env_from := 5 # 10; env_at := time;
             env_to := 1 # 1000; env_until := (time + 0.02)%float;
             v_start := time; v_stop := (time + 0.02)%float |}.

Definition playSnare (time : float) : M unit :=
  b <- gets (fun s => long (noiseBuffers s)) ;;
  atTime time ;;
  connect {| v_source := BufferSource b;
             v_filters := [{| filt_kind := highpass; filt_freq := 1000; filt_Q := None |}];
             v_level := 1;
             env_from := 8 # 10; env_at := time;
             env_to := 1 # 1000; env_until := (time + 0.2)%float;
             v_start := time; v_stop := (time + 0.2)%float |} ;;
  connect {| v_source := Oscillator triangle 180 (Some (80%Q, time + 0.1))%float;
             v_filters := []; v_level := 1;
             env_from := 5 # 10; env_at := time;
             env_to := 1 # 1000; env_until := (time + 0.1)%float;
             v_start := time; v_stop := (time + 0.15)%float |}.

Definition playHihat (time : float) : M unit :=
  b <- gets (fun s => medium (noiseBuffers s)) ;;
  atTime time ;;
  connect {| v_source := BufferSource b;
             v_filters := [{| filt_kind := highpass; filt_freq := 7000; filt_Q := None |};
                           {| filt_kind := bandpass; filt_freq := 10000; filt_Q := Some 1%Q |}];
             v_level := 1;
             env_from := 4 # 10; env_at := time;
             env_to := 1 # 1000; env_until := (time + 0.08)%float;
             v_start := time; v_stop := (time + 0.1)%float |}.

Definition playTom (time : float) : M unit :=
  atTime time ;;
  connect {| v_source := Oscillator sine 200 (Some (80%Q, time + 0.2))%float;
             v_filters := []; v_level := 1;
             env_from := 7 # 10; env_at := time;
             env_to := 1 # 1000; env_until := (time + 0.25)%float;
             v_start := time; v_stop := (time + 0.25)%float |}.

Definition playClap (time : float) : M unit :=
  atTime time ;;
  for_each (range 3) (fun i =>
    b <- gets (fun s => short (noiseBuffers s)) ;;
    let startTime := (time + f64_of_Z i * 0.01)%float in
    connect {| v_source := BufferSource b;
               v_filters := [{| filt_kind := bandpass; filt_freq := 2500; filt_Q := Some 3%Q |}];
               v_level := 1;
               env_from := 6 # 10; env_at := startTime;
               env_to := 1 # 1000; env_until := (startTime + 0.02)%float;
               v_start := startTime; v_stop := (startTime + 0.03)%float |}) ;;
  b <- gets (fun s => long (noiseBuffers s)) ;;
  connect {| v_source := BufferSource b;
             v_filters := [{| filt_kind := bandpass; filt_freq := 2500; filt_Q := Some 2%Q |}];
             v_level := 1;
             env_from := 4 # 10; env_at := (time + 0.03)%float;
             env_to := 1 # 1000; env_until := (time + 0.15)%float;
             v_start := (time + 0.03)%float; v_stop := (time + 0.18)%float |}.

Definition playRim (time : float) : M unit :=
  atTime time ;;
  connect {| v_source := Oscillator triangle 800 None;
             v_filters := []; v_level := 1;
             env_from := 5 # 10; env_at := time;
             env_to := 1 # 1000; env_until := (time + 0.03)%float;
             v_start := time; v_stop := (time + 0.03)%float |} ;;
  connect {| v_source := Oscillator square 1200 None;
             v_filters := []; v_level := 3 # 10;
             env_from := 5 # 10; env_at := time;
             env_to := 1 # 1000; env_until := (time + 0.03)%float;
             v_start := time; v_stop := (time + 0.03)%float |}.

Definition playSoundAtTime (soundName : string) (time : float) : M unit :=
  log (Trigger soundName time) ;;
  c <- gets audioCtx ;;
  match c with
  | None => ret tt
  | Some _ =>
      if String.eqb soundName "kick" then playKick time
      else if String.eqb soundName "snare" then playSnare time
      else if String.eqb soundName "hihat" then playHihat time
      else if String.eqb soundName "tom" then playTom time
      else if String.eqb soundName "clap" then playClap time
      else if String.eqb soundName "rim" then playRim time
      else ret tt
  end.

Definition playSound (soundName : string) : M unit :=
  c <- gets audioCtx ;;
  match c with
  | None => ret tt
  | Some ctx => playSoundAtTime soundName (currentTime ctx)
  end.

(** ** Sequencer (look-ahead scheduler) *)

(** [60.0 / bpm / 4], in binary64. *)
Definition getStepDuration (s : App) : float :=
  getStepDuration_f64 (f64_of_Z (bpm s)).

(** The body of the [for] loop of [scheduleStep]. *)
Definition rowBody (step : Z) (time : float) (row : Z) : M unit :=
  cell <- readCell row step ;;
  when (truthy cell)
    (match nth_error SOUNDS (Z.to_nat row) with
     | Some name => playSoundAtTime name time
     | None => ret tt
     end).

Definition scheduleStep (step : Z) (time : float) : M unit :=
  log (Commit step time) ;;
  for_each (range CONFIG.rows) (rowBody step time).

Definition updateStepHighlight (step : Z) : M unit :=
  updateUI (ui_set_highlight (Some step)).

Definition clearStepHighlight : M unit :=
  updateUI (ui_set_highlight None).

Definition scheduleStepUI (step : Z) (time : float) : M unit :=
  now <- readCurrentTime ;;
  let delay := max0 ((time - now) * 1000)%float in
  _ <- setTimeout (CbStepUI step) delay ;;
  ret tt.

(** The body of the [while] loop of [scheduler]. *)
Definition commitStep : M unit :=
  step <- gets currentStep ;;
  time <- gets nextStepTime ;;
  scheduleStep step time ;;
  scheduleStepUI step time ;;
  d <- gets getStepDuration ;;
  modify (fun s => set_nextStepTime (nextStepTime s + d)%float s) ;;
  modify (fun s => set_currentStep ((currentStep s + 1) mod CONFIG.steps) s).

(** [while (nextStepTime < audioCtx.currentTime + CONFIG.scheduleAheadTime)];
    [fuel] bounds the number of iterations, [Diverge] is the answer when it
    is used up. *)
Fixpoint schedulerLoop (fuel : nat) : M unit :=
  t <- gets nextStepTime ;;
  now <- readCurrentTime ;;
  if (t <? now + CONFIG.scheduleAheadTime)%float then
    match fuel with
    | O => diverge
    | S fuel' => commitStep ;; schedulerLoop fuel'
    end
  else ret tt.

Definition scheduler (fuel : nat) : M unit :=
  p <- gets isPlaying ;;
  if negb p then ret tt
  else
    schedulerLoop fuel ;;
    id <- setTimeout CbScheduler CONFIG.lookaheadInterval ;;
    modify (set_schedulerTimerId (Some id)).

Definition startSequencer (fuel : nat) : M unit :=
  p <- gets isPlaying ;;
  if p then ret tt
  else
    modify (set_isPlaying true) ;;
    updateUI (fun u => ui_set_btnText "Stop" (ui_set_playing true u)) ;;
    modify (set_currentStep 0) ;;
    now <- readCurrentTime ;;
    modify (set_nextStepTime (now + 0.05)%float) ;;
    modify (set_lastScheduledStep (-1)) ;;
    scheduler fuel.

Definition stopSequencer : M unit :=
  p <- gets isPlaying ;;
  if negb p then ret tt
  else
    modify (set_isPlaying false) ;;
    updateUI (fun u => ui_set_btnText "Play" (ui_set_playing false u)) ;;
    id <- gets schedulerTimerId ;;
    match id with
    | Some i =>
        when (negb (Nat.eqb i 0))
          (clearTimeout i ;; modify (set_schedulerTimerId None))
    | None => ret tt
    end ;;
    clearStepHighlight ;;
    modify (set_currentStep 0).

Definition togglePlayback (fuel : nat) : M unit :=
  p <- gets isPlaying ;;
  if p then stopSequencer else startSequencer fuel.

Definition setBpm (newBpm : Z) : M unit :=
  modify (set_bpm (clamp CONFIG.minBpm CONFIG.maxBpm newBpm)) ;;
  b <- gets bpm ;;
  updateUI (ui_set_bpmValue b).

(** ** Storage *)

(** What [JSON.parse (JSON.stringify v)] gives: inside an array [undefined]
    becomes [null], inside an object a property whose value is [undefined]
    is left out. *)
Fixpoint jsonRoundTrip (v : value) : value :=
  match v with
  | VArr l =>
      VArr (map (fun x => match x with
                          | VUndefined => VNull
                          | _ => jsonRoundTrip x
                          end) l)
  | VObj l =>
      VObj (flat_map (fun kv : string * value =>
                        let (k, x) := kv in
                        match x with
                        | VUndefined => @nil (string * value)
                        | _ => [(k, jsonRoundTrip x)]
                        end) l)
  | _ => v
  end.

(** [savePattern]: the item written is recorded as [getItem] and
    [JSON.parse] will give it back ([savedAt] is never read); [accepted]
    tells whether [localStorage.setItem] takes it or throws. *)
Definition savePattern (accepted : bool) : M unit :=
  try_catch
    (p <- gets pattern ;;
     b <- gets bpm ;;
     (if accepted then log (Stored (Item (jsonRoundTrip p) (Some b)))
      else throw QuotaExceededError) ;;
     showToast "Pattern saved")
    (fun _ => showToast "Could not save pattern").

Definition loadPattern (item : StorageItem) : M unit :=
  try_catch
    (match item with
     | Refused => throw SecurityError
     | NoItem => showToast "No saved pattern found"
     | Unparsable => throw SyntaxError
     | Item p b =>
         valid <-
           (if isArray p then
              len <- lift (get_length p) ;;
              if strict_eq_num len CONFIG.rows then
                row0 <- lift (get_index p 0) ;;
                len0 <- lift (get_length row0) ;;
                ret (strict_eq_num len0 CONFIG.steps)
              else ret false
            else ret false) ;;
         if valid then
           modify (set_pattern p) ;;
           updateGridDisplay ;;
           match b with
           | Some n =>
               when (negb (Z.eqb n 0))
                 (setBpm n ;;
                  cur <- gets bpm ;;
                  updateUI (ui_set_bpmSlider cur))
           | None => ret tt
           end ;;
           showToast "Pattern loaded"
         else showToast "Invalid saved pattern"
     end)
    (fun _ => showToast "Could not load pattern").

(** ** Actions of the page and of the host *)

(** The part of [init] that restores saved state (after the DOM is built):
    [getItem] is called outside the [try]. *)
Definition init (item : StorageItem) : M unit :=
  match item with
  | Refused => throw SecurityError
  | NoItem => ret tt
  | Unparsable => try_catch (throw SyntaxError) (fun _ => ret tt)
  | Item p b =>
      try_catch
        (when (truthy p) (modify (set_pattern p) ;; updateGridDisplay) ;;
         match b with
         | Some n =>
             when (negb (Z.eqb n 0))
               (modify (set_bpm n) ;;
                cur <- gets bpm ;;
                updateUI (fun u => ui_set_bpmValue cur (ui_set_bpmSlider cur u)))
         | None => ret tt
         end)
        (fun _ => ret tt)
  end.

Definition handleGridClick (row step : Z) : M unit :=
  toggleCell row step ;;
  match nth_error SOUNDS (Z.to_nat row) with
  | Some name => playSound name
  | None => ret tt
  end.

Definition handleVisibilityHidden : M unit :=
  p <- gets isPlaying ;;
  when p stopSequencer.

(** The hardware clock moves on between two handlers; it never goes back. *)
Definition advanceClock (t : ClockReading) : M unit :=
  modify (mapCtx (fun ctx =>
    if (currentTime ctx <=? t)%float then ctx_set_currentTime t ctx else ctx)).

Definition runCallback (fuel : nat) (cb : Callback) : M unit :=
  match cb with
  | CbScheduler => scheduler fuel
  | CbStepUI step =>
      p <- gets isPlaying ;;
      when p (updateStepHighlight step)
  end.

(** A pending timer expires: the host removes it and calls its callback. *)
Definition fireTimer (fuel : nat) (id : nat) : M unit :=
  ts <- gets timers ;;
  match find (fun t => Nat.eqb (timer_id t) id) ts with
  | Some t => clearTimeout id ;; runCallback fuel (timer_cb t)
  | None => ret tt
  end.

Inductive Action : Type :=
| PageLoad (item : StorageItem)
| OverlayClick (rate : Q)
| GridClick (row step : Z)
| PlayButton (rate : Q)
| Slider (newBpm : Z)
| ClearButton
| RandomButton (random : Z -> Q)
| SaveButton (accepted : bool)
| LoadButton (item : StorageItem)
| Hidden
| TimerFires (id : nat)
| ClockMoves (t : ClockReading)
| CallStart
| CallStop
| CallPlaySound (soundName : string) (time : float).

Definition perform (fuel : nat) (a : Action) : M unit :=
  match a with
  | PageLoad item => init item
  | OverlayClick rate => initAudio rate
  | GridClick row step => handleGridClick row step
  | PlayButton rate => initAudio rate ;; togglePlayback fuel
  | Slider n => setBpm n
  | ClearButton => clearPattern
  | RandomButton random => randomizePattern random
  | SaveButton accepted => savePattern accepted
  | LoadButton item => loadPattern item
  | Hidden => handleVisibilityHidden
  | TimerFires id => fireTimer fuel id
  | ClockMoves t => advanceClock t
  | CallStart => startSequencer fuel
  | CallStop => stopSequencer
  | CallPlaySound name time => playSoundAtTime name time
  end.

(** The event loop: an exception ends its handler only, and the state it
    left is the state the next handler starts from; a handler that does not
    return ends the run. *)
Fixpoint run (fuel : nat) (l : list Action) (s : App) : option App :=
  match l with
  | [] => Some s
  | a :: l' =>
      match perform fuel a s with
      | (Diverge, _) => None
      | (_, s') => run fuel l' s'
      end
  end.

(** A run in which every handler returns normally. *)
Fixpoint completes (fuel : nat) (l : list Action) (s : App) : option App :=
  match l with
  | [] => Some s
  | a :: l' =>
      match perform fuel a s with
      | (Normal _, s') => completes fuel l' s'
      | _ => None
      end
  end.

(** The state when the script has been evaluated. *)
Definition initial : App :=
  {| audioCtx := None;
     pattern := createEmptyPattern;
     currentStep := 0;
     isPlaying := false;
     schedulerTimerId := None;
     bpm := CONFIG.defaultBpm;
     nextStepTime := 0%float;
     lastScheduledStep := -1;
     noiseBuffers := {| short := None; medium := None; long := None |};
     timers := [];
     nextTimerId := 1;
     ui := {| playing := false; btnText := "Play"; bpmValue := CONFIG.defaultBpm;
              bpmSlider := CONFIG.defaultBpm; highlight := None; toasts := [] |};
     trace := [];
     randomDraws := 0 |}.

(** The steps committed so far, in order. *)
Fixpoint commits (tr : list Event) : list (Z * float) :=
  match tr with
  | [] => []
  | Commit step time :: tr' => (step, time) :: commits tr'
  | _ :: tr' => commits tr'
  end.

(** * Notions used in the statements *)

(** A relation between the state before a computation and the state it
    leaves, whatever its outcome. *)
Definition preserves (R : App -> App -> Prop) {A : Type} (c : M A) : Prop :=
  forall s, R s (snd (c s)).

Definition terminates {A : Type} (c : M A) : Prop :=
  forall s, fst (c s) <> Diverge.

(** The observation [f] of the state is the same before and after. *)
Definition unchanged {X : Type} (f : App -> X) : App -> App -> Prop :=
  fun s s' => f s' = f s.

(** The hardware-clock reading, if the audio context exists. *)
Definition clock (s : App) : option ClockReading :=
  option_map currentTime (audioCtx s).

(** What the scheduler reads but never writes. *)
Definition schedulerInputs (s : App) : value * Z * bool * option ClockReading :=
  (pattern s, bpm s, isPlaying s, clock s).

(** The scheduler's position: the next step and its trigger time. *)
Definition position (s : App) : Z * float := (currentStep s, nextStepTime s).

(** [pattern[row][step]] is truthy. *)
Definition cellActive (p : value) (row step : Z) : bool :=
  match get_index p row with
  | inr r =>
      match get_index r step with
      | inr cell => truthy cell
      | inl _ => false
      end
  | inl _ => false
  end.

(** [pattern[row]] can be indexed: it is neither [undefined] nor [null]. *)
Definition rowReadable (p : value) (row : Z) : bool :=
  match get_index p row with
  | inr r => negb (isNullish r)
  | inl _ => false
  end.

Definition rowsReadable (p : value) : bool :=
  forallb (rowReadable p) (range CONFIG.rows).

(** The pattern has exactly 6 rows of exactly 16 cells. *)
Definition wellDimensioned (p : value) : bool :=
  match p with
  | VArr rows =>
      Nat.eqb (List.length rows) (Z.to_nat CONFIG.rows) &&
      forallb (fun r =>
                 match r with
                 | VArr cells => Nat.eqb (List.length cells) (Z.to_nat CONFIG.steps)
                 | _ => false
                 end) rows
  | _ => false
  end.

Definition rowTrigger (p : value) (step : Z) (time : float) (row : Z) : list Event :=
  if cellActive p row step then
    match nth_error SOUNDS (Z.to_nat row) with
    | Some name => [Trigger name time]
    | None => []
    end
  else [].

(** The events of committing one step: the commit, then one trigger per
    active row, in row order. *)
Definition stepEvents (p : value) (step : Z) (time : float) : list Event :=
  Commit step time :: flat_map (rowTrigger p step time) (range CONFIG.rows).

(** The events of committing [k] steps in a row from step [c] at time [t]
    with period [d]: every time is the binary64 sum of the one before it
    and [d]. *)
Fixpoint committed (p : value) (c : Z) (t d : float) (k : nat) : list Event :=
  match k with
  | O => []
  | S k' => stepEvents p c t ++ committed p ((c + 1) mod CONFIG.steps) (t + d)%float d k'
  end.

(** Trigger time and index of the [i]-th step from ([c], [t]): [i] binary64
    additions of [d] to [t], and [i] increments modulo 16 of [c]. *)
Definition stepTime (t d : float) (i : nat) : float :=
  Nat.iter i (fun x => (x + d)%float) t.
Definition stepIndex (c : Z) (i : nat) : Z :=
  Nat.iter i (fun x => (x + 1) mod CONFIG.steps) c.

(** The test of the [while] loop of [scheduler] for a step at [t] when the
    clock reads [now]. *)
Definition beforeHorizon (t now : float) : bool :=
  (t <? now + CONFIG.scheduleAheadTime)%float.

(** [k] steps are due at clock reading [now]: the first [k] trigger times
    pass the test of the loop, the next one does not. *)
Definition due (t d now : float) (k : nat) : Prop :=
  (forall i, (i < k)%nat -> beforeHorizon (stepTime t d i) now = true) /\
  beforeHorizon (stepTime t d k) now = false.

Definition dueb (t d now : float) (k : nat) : bool :=
  forallb (fun i => beforeHorizon (stepTime t d i) now) (seq 0 k) &&
  negb (beforeHorizon (stepTime t d k) now).

(** The first [k] trigger times are times the sound bank accepts. *)
Definition audible (t d : float) (k : nat) : Prop :=
  forall i, (i < k)%nat -> timeCheck (stepTime t d i) = None.

Definition audibleb (t d : float) (k : nat) : bool :=
  forallb (fun i => timeOk (stepTime t d i)) (seq 0 k).

(** The state in which [startSequencer] enters [scheduler] when the clock
    reads [now]. *)
Definition seeded (now : float) (s : App) : App :=
  set_lastScheduledStep (-1)
    (set_nextStepTime (now + 0.05)%float
       (set_currentStep 0
          (set_ui (ui_set_btnText "Stop" (ui_set_playing true (ui s)))
             (set_isPlaying true s)))).

(** No timer with identifier [id] is pending. *)
Definition notPending (id : nat) (s : App) : Prop :=
  forall t, In t (timers s) -> timer_id t <> id.

(** Actions of a run in which the host only lets time pass and fires timers. *)
Definition heartbeatOnly (a : Action) : bool :=
  match a with
  | ClockMoves _ | TimerFires _ => true
  | _ => false
  end.

(** The transport is Running on an initialised audio clock, with a pattern
    whose six rows can be read. *)
Definition runningOK (s : App) : Prop :=
  isPlaying s = true /\
  (exists ctx, audioCtx s = Some ctx) /\
  rowsReadable (pattern s) = true.

(** States of a session: the audio output initialised at 44.1 kHz, the
    transport started from there, and the same with a kick on steps 0 and 1
    and a hi-hat on step 1. *)
Definition audioReady : App := exec (initAudio 44100) initial.
Definition playingState : App := exec (startSequencer 1) audioReady.
Definition beatReady : App :=
  exec (toggleCell 2 1) (exec (toggleCell 0 1) (exec (toggleCell 0 0) audioReady)).
Definition beatPlaying : App := exec (startSequencer 1) beatReady.

(** Actions that may take the transport from Stopped to Running. *)
Definition startsTransport (a : Action) : bool :=
  match a with
  | CallStart | PlayButton _ => true
  | _ => false
  end.

(** The transport as the claims see it: Running or Stopped, and the steps
    committed so far. *)
Definition transport (s : App) : bool * list (Z * float) :=
  (isPlaying s, commits (trace s)).

(** The buffers generated so far, in order of generation. *)
Fixpoint noiseGenerations (tr : list Event) : list BufferId :=
  match tr with
  | [] => []
  | NoiseGenerated id :: tr' => id :: noiseGenerations tr'
  | _ :: tr' => noiseGenerations tr'
  end.

(** The buffer objects that [generateNoiseBuffers] leaves in [noiseBuffers]:
    the first three allocations of the audio context. *)
Definition pregenerated : NoiseBuffers :=
  {| short := Some 0%nat; medium := Some 1%nat; long := Some 2%nat |}.

(** The buffer a voice plays, if it is a noise voice. *)
Definition noiseSource (v : Voice) : list (option BufferId) :=
  match v_source v with
  | BufferSource b => [b]
  | Oscillator _ _ _ => []
  end.

Definition readsFrom (nb : NoiseBuffers) (v : Voice) : Prop :=
  forall b, In b (noiseSource v) ->
            b <> None /\ (b = short nb \/ b = medium nb \/ b = long nb).

(** Before the audio output is initialised there is no buffer; afterwards
    there are the three pregenerated ones, generated once each, and every
    noise voice of the graph plays one of them. *)
Definition audioInv (s : App) : Prop :=
  match audioCtx s with
  | None =>
      noiseBuffers s = {| short := None; medium := None; long := None |} /\
      noiseGenerations (trace s) = []
  | Some ctx =>
      noiseBuffers s = pregenerated /\
      noiseGenerations (trace s) = [0; 1; 2]%nat /\
      List.length (buffers ctx) = 3%nat /\
      Forall (readsFrom pregenerated) (graph ctx)
  end.

Definition keepsAudio (s s' : App) : Prop := audioInv s -> audioInv s'.

(** The buffer objects, the references to them and the record of their
    generation. *)
Definition noiseState (s : App)
  : option (list Buffer) * NoiseBuffers * list BufferId :=
  (option_map buffers (audioCtx s), noiseBuffers s, noiseGenerations (trace s)).

(** Once the audio output is initialised, the noise state stays what it is. *)
Definition audioStable (s s' : App) : Prop :=
  audioCtx s <> None -> noiseState s' = noiseState s.

(** The voices a computation adds to the graph. *)
Definition voicesAdded (c : M unit) (s : App) : list Voice :=
  match audioCtx s, audioCtx (exec c s) with
  | Some ctx, Some ctx' => skipn (List.length (graph ctx)) (graph ctx')
  | _, _ => []
  end.

(** Saved patterns of the wrong dimensions: one row of one cell, and six rows
    of which only the first has sixteen cells. *)
Definition tinyPattern : value := VArr [VArr [VBool true]].
Definition raggedPattern : value :=
  VArr (VArr (repeat (VBool true) 16) :: repeat (VArr []) 5).

(** Tolerance of the step-duration property, and the check of one tempo:
    the double is finite and within the tolerance of the exact value. *)
Definition tolerance : Q := 1 # 1000000000.

Definition stepDurationAccurate (b : Z) : bool :=
  match f64_to_Q (getStepDuration_f64 (f64_of_Z b)) with
  | Some q => Qle_bool (Qabs (q - 60 / inject_Z b / 4)) tolerance
  | None => false
  end.

Definition tempoRange : list Z := map (fun i => 60 + Z.of_nat i) (seq 0 121).



(** The transport Running at a restored tempo of 300, the clock at 0.2 s. *)
Definition fastPlaying : App :=
  exec (advanceClock (clockAt 0.2))
    (exec (perform 1 (PlayButton 44100))
       (exec (init (Item createEmptyPattern (Some 300))) initial)).

(** * Further notions *)

(** The items [savePattern] has written, in order, and the one the storage
    key holds: the last of them. *)
Definition storedItems (tr : list Event) : list StorageItem :=
  flat_map (fun e => match e with Stored item => [item] | _ => [] end) tr.

Definition lastStored (tr : list Event) : StorageItem :=
  last (storedItems tr) NoItem.

(** A grid of 6 rows of 16 booleans. *)
Definition booleanRow (r : value) : bool :=
  match r with
  | VArr cells =>
      Nat.eqb (List.length cells) (Z.to_nat CONFIG.steps) &&
      forallb (fun c => match c with VBool _ => true | _ => false end) cells
  | _ => false
  end.

Definition booleanGrid (p : value) : bool :=
  match p with
  | VArr rows =>
      Nat.eqb (List.length rows) (Z.to_nat CONFIG.rows) && forallb booleanRow rows
  | _ => false
  end.

(** A saved pattern that passes the validation of [loadPattern] and whose
    fourth row is [null]. *)
Definition brokenPattern : value :=
  VArr (map (fun row => if row =? 3 then VNull
                        else VArr (repeat (VBool false) (Z.to_nat CONFIG.steps)))
            (range CONFIG.rows)).

(** Handlers other than the two that read saved state. *)
Definition readsNoStorage (a : Action) : bool :=
  match a with
  | PageLoad _ | LoadButton _ => false
  | _ => true
  end.

(** The tempo is in the range of the slider. *)
Definition tempoInRange (s : App) : Prop :=
  CONFIG.minBpm <= bpm s <= CONFIG.maxBpm.

(** The step index is one of the 16 columns. *)
Definition stepInRange (s : App) : Prop := 0 <= currentStep s < CONFIG.steps.

(** A handler keeps the invariant [I]. *)
Definition keeps (I : App -> Prop) : App -> App -> Prop := fun s s' => I s -> I s'.

(** The pending heartbeat timers. *)
Definition isHeartbeat (t : Timer) : bool :=
  match timer_cb t with
  | CbScheduler => true
  | CbStepUI _ => false
  end.

Definition heartbeats (s : App) : list Timer := filter isHeartbeat (timers s).

(** Timer identifiers are positive, below the next one to hand out, and
    pairwise different; the handle the scheduler keeps is one of them. *)
Definition timersWellFormed (s : App) : Prop :=
  (1 <= nextTimerId s)%nat /\
  (forall t, In t (timers s) -> (1 <= timer_id t < nextTimerId s)%nat) /\
  NoDup (map timer_id (timers s)) /\
  (forall id, schedulerTimerId s = Some id -> (1 <= id < nextTimerId s)%nat).

(** Every pending heartbeat belongs to a Running transport and is the one
    whose handle the scheduler keeps. *)
Definition heartbeatOwned (s : App) : Prop :=
  forall t, In t (heartbeats s) ->
            isPlaying s = true /\ schedulerTimerId s = Some (timer_id t).

Definition timerInv (s : App) : Prop := timersWellFormed s /\ heartbeatOwned s.

(** What the timer invariant reads. *)
Definition timerView (s : App) : list Timer * nat * bool * option nat :=
  (timers s, nextTimerId s, isPlaying s, schedulerTimerId s).

(** A computation that may add UI timers only. *)
Definition addsUiTimers (s s' : App) : Prop :=
  timersWellFormed s ->
  timersWellFormed s' /\ isPlaying s' = isPlaying s /\
  schedulerTimerId s' = schedulerTimerId s /\ heartbeats s' = heartbeats s.

(** What the page shows agrees with the state: the Play button carries the
    class and the label of the transport state, the tempo read-out shows the
    tempo, and no column is highlighted while the transport is Stopped. *)
Definition uiInv (s : App) : Prop :=
  playing (ui s) = isPlaying s /\
  btnText (ui s) = (if isPlaying s then "Stop" else "Play") /\
  bpmValue (ui s) = bpm s /\
  (isPlaying s = false -> highlight (ui s) = None).

Definition uiView (s : App) : bool * bool * string * Z * Z * option Z :=
  (isPlaying s, playing (ui s), btnText (ui s), bpm s, bpmValue (ui s),
   highlight (ui s)).

(** The envelope of a voice starts with the voice, at a level in (0,1], and
    decays to the floor 0.001, which lies below the level it starts from. *)
Definition envelopeDecays (v : Voice) : Prop :=
  env_at v = v_start v /\
  (env_to v == 1 # 1000 /\ env_to v < env_from v /\ env_from v <= 1 /\
   0 < v_level v /\ v_level v <= 1)%Q.

(** A session whose page load restored the tempo -120 and in which the kick
    of step 1 has been switched on. *)
Definition reversedTempo : App :=
  exec (handleGridClick 0 1)
       (exec (init (Item createEmptyPattern (Some (-120)))) initial).

(** * Properties *)

(** ** Tempo *)

Lemma clamp_cases (lo hi n : Z) :
  lo <= hi ->
  clamp lo hi n = if n <? lo then lo else if hi <? n then hi else n.
Proof.
  intros Hle. unfold clamp.
  destruct (Z.ltb_spec n lo); destruct (Z.ltb_spec hi n); lia.
Qed.

(** C9: for every integer input [setBpm] returns normally and stores the
    input clamped to [60,180]: below 60 it stores 60, above 180 it stores
    180, in between the input itself; besides the tempo it writes only the
    tempo read-out. *)
Theorem setBpm_clamps_and_never_throws (n : Z) (s : App) :
  outcome (setBpm n) s = Normal tt /\
  bpm (exec (setBpm n) s) = (if n <? 60 then 60 else if 180 <? n then 180 else n) /\
  60 <= bpm (exec (setBpm n) s) <= 180 /\
  exec (setBpm n) s =
    set_ui (ui_set_bpmValue (clamp 60 180 n) (ui s)) (set_bpm (clamp 60 180 n) s).
Proof.
  assert (Hb : bpm (exec (setBpm n) s) = clamp 60 180 n) by reflexivity.
  rewrite Hb. repeat split; try reflexivity.
  - apply clamp_cases. lia.
  - unfold clamp. lia.
  - unfold clamp. lia.
Qed.

Lemma tempoRange_complete (b : Z) : 60 <= b <= 180 -> In b tempoRange.
Proof.
  intros H. unfold tempoRange. apply in_map_iff.
  exists (Z.to_nat (b - 60)). split; [lia|].
  apply in_seq. lia.
Qed.

Lemma stepDurationAccurate_all : forallb stepDurationAccurate tempoRange = true.
Proof. vm_compute. reflexivity. Qed.

(** C10: for every tempo in [60,180] the double that [getStepDuration]
    returns, the binary64 value of [60.0 / bpm / 4], is finite and lies
    within 1e-9 of the exact quotient 60/bpm/4. *)
Theorem getStepDuration_within_tolerance (s : App) :
  60 <= bpm s <= 180 ->
  exists q : Q,
    f64_to_Q (getStepDuration s) = Some q /\
    (Qabs (q - 60 / inject_Z (bpm s) / 4) <= tolerance)%Q.
Proof.
  intros H.
  pose proof (proj1 (forallb_forall _ _) stepDurationAccurate_all _
                (tempoRange_complete _ H)) as Hacc.
  unfold stepDurationAccurate in Hacc. unfold getStepDuration.
  destruct (f64_to_Q (getStepDuration_f64 (f64_of_Z (bpm s)))) as [q|];
    [|discriminate].
  exists q. split; [reflexivity|].
  apply Qle_bool_iff in Hacc. exact Hacc.
Qed.

Lemma getStepDuration_within_tolerance_witness :
  exists q : Q,
    f64_to_Q (getStepDuration initial) = Some q /\
    (Qabs (q - 60 / inject_Z (bpm initial) / 4) <= tolerance)%Q.
Proof.
  apply (getStepDuration_within_tolerance initial).
  change (60 <= 120 <= 180). lia.
Defined.

(** ** Reasoning about handlers *)

Lemma run_bind {A B : Type} (c : M A) (k : A -> M B) (s s' : App) (a : A) :
  c s = (Normal a, s') -> bind c k s = k a s'.
Proof. intros H. unfold bind. rewrite H. reflexivity. Qed.

Lemma Qltb_lt (a b : Q) : Qltb a b = true <-> (a < b)%Q.
Proof.
  unfold Qltb. rewrite negb_true_iff.
  split.
  - intros H. apply Qnot_le_lt. intros Hle.
    apply Qle_bool_iff in Hle. congruence.
  - intros H. destruct (Qle_bool b a) eqn:E; [|reflexivity].
    apply Qle_bool_iff in E. exfalso. apply (Qlt_not_le _ _ H E).
Qed.

Lemma Qltb_ge (a b : Q) : Qltb a b = false <-> (b <= a)%Q.
Proof.
  unfold Qltb. rewrite negb_false_iff. apply Qle_bool_iff.
Qed.

#[local] Instance unchanged_preorder {X : Type} (f : App -> X) :
  RelationClasses.PreOrder (unchanged f).
Proof.
  split.
  - intros s. reflexivity.
  - intros s1 s2 s3 H12 H23. unfold unchanged in *. congruence.
Qed.

Section Preservation.
Context (R : App -> App -> Prop) `{HR : RelationClasses.PreOrder App R}.

Lemma preserves_ret {A : Type} (a : A) : preserves R (ret a).
Proof. intros s. simpl. reflexivity. Qed.

Lemma preserves_throw {A : Type} (e : Exn) : preserves R (@throw A e).
Proof. intros s. simpl. reflexivity. Qed.

Lemma preserves_diverge {A : Type} : preserves R (@diverge A).
Proof. intros s. simpl. reflexivity. Qed.

Lemma preserves_gets {A : Type} (f : App -> A) : preserves R (gets f).
Proof. intros s. simpl. reflexivity. Qed.

Lemma preserves_lift {A : Type} (r : Exn + A) : preserves R (lift r).
Proof. intros s. destruct r; simpl; reflexivity. Qed.

Lemma preserves_modify (f : App -> App) :
  (forall s, R s (f s)) -> preserves R (modify f).
Proof. intros H s. simpl. apply H. Qed.

Lemma preserves_bind {A B : Type} (c : M A) (k : A -> M B) :
  preserves R c -> (forall a, preserves R (k a)) -> preserves R (bind c k).
Proof.
  intros Hc Hk s. unfold bind.
  specialize (Hc s). destruct (c s) as [[a| e |] s1]; simpl in *; try assumption.
  etransitivity; [exact Hc | apply Hk].
Qed.

Lemma preserves_try_catch {A : Type} (c : M A) (h : Exn -> M A) :
  preserves R c -> (forall e, preserves R (h e)) -> preserves R (try_catch c h).
Proof.
  intros Hc Hh s. unfold try_catch.
  specialize (Hc s). destruct (c s) as [[a| e |] s1]; simpl in *; try assumption.
  etransitivity; [exact Hc | apply Hh].
Qed.

Lemma preserves_when (b : bool) (c : M unit) :
  preserves R c -> preserves R (when b c).
Proof. intros Hc. destruct b; simpl; [assumption | apply preserves_ret]. Qed.

Lemma preserves_for_each {A : Type} (l : list A) (body : A -> M unit) :
  (forall x, preserves R (body x)) -> preserves R (for_each l body).
Proof.
  intros Hb. induction l as [|x l IH]; simpl.
  - apply preserves_ret.
  - apply preserves_bind; [apply Hb | intros _; exact IH].
Qed.

Lemma preserves_theAudioCtx : preserves R theAudioCtx.
Proof.
  unfold theAudioCtx. apply preserves_bind; [apply preserves_gets|].
  intros [ctx|]; [apply preserves_ret | apply preserves_throw].
Qed.

Lemma preserves_readCurrentTime : preserves R readCurrentTime.
Proof.
  unfold readCurrentTime.
  apply preserves_bind; [apply preserves_theAudioCtx | intros ctx; apply preserves_ret].
Qed.

(** The [while] loop keeps what its body keeps. *)
Lemma preserves_schedulerLoop (fuel : nat) :
  preserves R commitStep -> preserves R (schedulerLoop fuel).
Proof.
  intros Hbody. induction fuel as [|fuel IH]; simpl;
    (apply preserves_bind; [apply preserves_gets | intros t]);
    (apply preserves_bind; [apply preserves_readCurrentTime | intros now]);
    destruct (t <? now + CONFIG.scheduleAheadTime)%float;
    try apply preserves_ret.
  - apply preserves_diverge.
  - apply preserves_bind; [exact Hbody | intros _; exact IH].
Qed.
End Preservation.

Section Termination.
Lemma terminates_ret {A : Type} (a : A) : terminates (ret a).
Proof. intros s. simpl. discriminate. Qed.

Lemma terminates_throw {A : Type} (e : Exn) : terminates (@throw A e).
Proof. intros s. simpl. discriminate. Qed.

Lemma terminates_gets {A : Type} (f : App -> A) : terminates (gets f).
Proof. intros s. simpl. discriminate. Qed.

Lemma terminates_lift {A : Type} (r : Exn + A) : terminates (lift r).
Proof. intros s. destruct r; simpl; discriminate. Qed.

Lemma terminates_modify (f : App -> App) : terminates (modify f).
Proof. intros s. simpl. discriminate. Qed.

Lemma terminates_bind {A B : Type} (c : M A) (k : A -> M B) :
  terminates c -> (forall a, terminates (k a)) -> terminates (bind c k).
Proof.
  intros Hc Hk s. unfold bind.
  specialize (Hc s). destruct (c s) as [[a| e |] s1]; simpl in *.
  - apply Hk.
  - discriminate.
  - congruence.
Qed.

Lemma terminates_try_catch {A : Type} (c : M A) (h : Exn -> M A) :
  terminates c -> (forall e, terminates (h e)) -> terminates (try_catch c h).
Proof.
  intros Hc Hh s. unfold try_catch.
  specialize (Hc s). destruct (c s) as [[a| e |] s1]; simpl in *.
  - discriminate.
  - apply Hh.
  - congruence.
Qed.

Lemma terminates_when (b : bool) (c : M unit) :
  terminates c -> terminates (when b c).
Proof. intros Hc. destruct b; simpl; [assumption | apply terminates_ret]. Qed.

Lemma terminates_for_each {A : Type} (l : list A) (body : A -> M unit) :
  (forall x, terminates (body x)) -> terminates (for_each l body).
Proof.
  intros Hb. induction l as [|x l IH]; simpl.
  - apply terminates_ret.
  - apply terminates_bind; [apply Hb | intros _; exact IH].
Qed.
End Termination.

Create HintDb handlers.

Ltac head_of t :=
  lazymatch t with
  | ?f _ => head_of f
  | _ => t
  end.

(** Decompose a goal [preserves R c] or [terminates c] along the structure
    of [c], unfolding the functions of the source on the way and closing a
    call with a lemma of the database [handlers] where there is one; what is
    left are the assignments, as goals [R s (f s)]. *)
Ltac structural_step :=
  first
    [ assumption
    | solve [auto 1 with handlers nocore]
    | lazymatch goal with
      | |- preserves _ (ret _) => apply preserves_ret; exact _
      | |- preserves _ (throw _) => apply preserves_throw; exact _
      | |- preserves _ diverge => apply preserves_diverge; exact _
      | |- preserves _ (gets _) => apply preserves_gets; exact _
      | |- preserves _ (lift _) => apply preserves_lift; exact _
      | |- preserves _ (when _ _) => apply preserves_when; [exact _|]
      | |- preserves _ (for_each _ _) => apply preserves_for_each; [exact _ | intro]
      | |- preserves _ (try_catch _ _) => apply preserves_try_catch; [exact _ | | intro]
      | |- preserves _ (bind _ _) => apply preserves_bind; [exact _ | | intro]
      | |- preserves _ (modify _) => apply preserves_modify; intro
      | |- preserves _ (schedulerLoop _) => apply preserves_schedulerLoop; [exact _|]
      | |- preserves _ (match ?x with _ => _ end) => destruct x
      | |- preserves _ ?c => let h := head_of c in unfold h
      | |- terminates (ret _) => apply terminates_ret
      | |- terminates (throw _) => apply terminates_throw
      | |- terminates (gets _) => apply terminates_gets
      | |- terminates (lift _) => apply terminates_lift
      | |- terminates (when _ _) => apply terminates_when
      | |- terminates (for_each _ _) => apply terminates_for_each; intro
      | |- terminates (try_catch _ _) => apply terminates_try_catch; [|intro]
      | |- terminates (bind _ _) => apply terminates_bind; [|intro]
      | |- terminates (modify _) => apply terminates_modify
      | |- terminates (match ?x with _ => _ end) => destruct x
      | |- terminates ?c => let h := head_of c in unfold h
      end ].

Ltac structural := repeat structural_step.


(** ** Frames of the sound bank and of one step *)

Lemma commits_app (l1 l2 : list Event) :
  commits (l1 ++ l2) = commits l1 ++ commits l2.
Proof.
  induction l1 as [|e l1 IH]; simpl; [reflexivity|].
  destruct e; simpl; rewrite IH; reflexivity.
Qed.

Ltac frame_leaf :=
  unfold unchanged, schedulerInputs, position, transport, clock, mapCtx;
  match goal with
  | s : App |- _ => destruct s as [[?|] ? ? ? ? ? ? ? ? ? ? ? ? ?]
  end;
  simpl; try rewrite commits_app; simpl; try rewrite app_nil_r; reflexivity.

Lemma playSoundAtTime_inputs (name : string) (time : float) :
  preserves (unchanged schedulerInputs) (playSoundAtTime name time).
Proof. structural; frame_leaf. Qed.

Lemma playSoundAtTime_position (name : string) (time : float) :
  preserves (unchanged position) (playSoundAtTime name time).
Proof. structural; frame_leaf. Qed.

Lemma playSoundAtTime_terminates (name : string) (time : float) :
  terminates (playSoundAtTime name time).
Proof. structural. Qed.

(** The call is recorded, whatever comes of it. *)
Lemma playSoundAtTime_trace (name : string) (time : float) (s : App) :
  trace (snd (playSoundAtTime name time s)) = trace s ++ [Trigger name time].
Proof.
  assert (H : preserves (unchanged trace)
                (c <- gets audioCtx ;;
                 match c with
                 | None => ret tt
                 | Some _ =>
                     if String.eqb name "kick" then playKick time
                     else if String.eqb name "snare" then playSnare time
                     else if String.eqb name "hihat" then playHihat time
                     else if String.eqb name "tom" then playTom time
                     else if String.eqb name "clap" then playClap time
                     else if String.eqb name "rim" then playRim time
                     else ret tt
                 end)).
  { structural; unfold unchanged, mapCtx;
      match goal with
      | s : App |- _ => destruct s as [[?|] ? ? ? ? ? ? ? ? ? ? ? ? ?]
      end; reflexivity. }
  unfold playSoundAtTime. unfold bind at 1, log at 1, modify at 1.
  rewrite (H _). reflexivity.
Qed.

Lemma atTime_ok (time : float) (s : App) :
  timeCheck time = None -> atTime time s = (Normal tt, s).
Proof. intros H. unfold atTime. rewrite H. reflexivity. Qed.

Lemma atTime_refused (time : float) (e : Exn) (s : App) :
  timeCheck time = Some e -> atTime time s = (Throw e, s).
Proof. intros H. unfold atTime. rewrite H. reflexivity. Qed.

(** At a time the sound bank accepts, the call returns normally. *)
Lemma playSoundAtTime_run (name : string) (time : float) (s : App) :
  timeCheck time = None ->
  fst (playSoundAtTime name time s) = Normal tt /\
  trace (snd (playSoundAtTime name time s)) = trace s ++ [Trigger name time].
Proof.
  intros Hok. split; [|apply playSoundAtTime_trace].
  destruct s as [[ctx|] ? ? ? ? ? ? ? ? ? ? ? ? ?]; unfold playSoundAtTime;
    [|reflexivity].
  unfold playKick, playSnare, playHihat, playTom, playClap, playRim, atTime.
  rewrite Hok.
  repeat match goal with
  | |- context [if String.eqb ?a ?b then _ else _] => destruct (String.eqb a b)
  end; reflexivity.
Qed.

(** At a time the sound bank refuses, an instrument throws before it has
    connected anything. *)
Lemma playSoundAtTime_refused (name : string) (time : float) (e : Exn)
  (s : App) (ctx : AudioContext) :
  timeCheck time = Some e ->
  audioCtx s = Some ctx ->
  In name SOUNDS ->
  playSoundAtTime name time s =
    (Throw e, set_trace (trace s ++ [Trigger name time]) s).
Proof.
  intros Hno Hctx Hin.
  destruct s as [ac ? ? ? ? ? ? ? ? ? ? ? ? ?]. simpl in Hctx. subst ac.
  unfold playSoundAtTime, playKick, playSnare, playHihat, playTom, playClap,
    playRim, atTime.
  rewrite Hno.
  unfold SOUNDS in Hin. simpl in Hin.
  destruct Hin as [<-|[<-|[<-|[<-|[<-|[<-|[]]]]]]]; reflexivity.
Qed.

Lemma element_nth (i : Z) (l : list value) :
  0 <= i -> element i l = nth (Z.to_nat i) l VUndefined.
Proof.
  intros H. unfold element. destruct (Z.ltb_spec i 0); [lia | reflexivity].
Qed.

Lemma readCell_run (row step : Z) (s : App) :
  rowReadable (pattern s) row = true ->
  exists cell, readCell row step s = (Normal cell, s) /\
               truthy cell = cellActive (pattern s) row step.
Proof.
  unfold rowReadable, cellActive, readCell, bind, gets, lift.
  destruct (get_index (pattern s) row) as [e|r] eqn:Hr; [discriminate|].
  intros Hn. simpl.
  destruct r; simpl in *; try discriminate; eexists; split; reflexivity.
Qed.

(** A read of a cell that returns gives the cell. *)
Lemma readCell_normal (row step : Z) (s s' : App) (cell : value) :
  readCell row step s = (Normal cell, s') ->
  s' = s /\ truthy cell = cellActive (pattern s) row step /\
  rowReadable (pattern s) row = true.
Proof.
  unfold rowReadable, cellActive, readCell, bind, gets, lift.
  destruct (get_index (pattern s) row) as [e|r] eqn:Hr; [discriminate|].
  destruct r; simpl; try discriminate;
    intros H; injection H as <- <-; repeat split; reflexivity.
Qed.

Lemma rowBody_inputs step time row :
  preserves (unchanged schedulerInputs) (rowBody step time row).
Proof. structural; frame_leaf. Qed.

Lemma rowBody_position step time row :
  preserves (unchanged position) (rowBody step time row).
Proof. structural; frame_leaf. Qed.

Lemma rowBody_run (step : Z) (time : float) (row : Z) (s : App) :
  rowReadable (pattern s) row = true ->
  timeCheck time = None ->
  fst (rowBody step time row s) = Normal tt /\
  trace (snd (rowBody step time row s)) = trace s ++ rowTrigger (pattern s) step time row.
Proof.
  intros Hr Hok. destruct (readCell_run row step s Hr) as [cell [Hc Ht]].
  unfold rowBody. rewrite (run_bind _ _ _ _ _ Hc).
  unfold rowTrigger. rewrite <- Ht.
  destruct (truthy cell); simpl.
  - destruct (nth_error SOUNDS (Z.to_nat row)) as [name|].
    + apply playSoundAtTime_run. exact Hok.
    + simpl. rewrite app_nil_r. split; reflexivity.
  - rewrite app_nil_r. split; reflexivity.
Qed.

(** A row that returns has triggered its instrument if its cell is active. *)
Lemma rowBody_normal (step : Z) (time : float) (row : Z) (s : App) :
  fst (rowBody step time row s) = Normal tt ->
  trace (snd (rowBody step time row s)) = trace s ++ rowTrigger (pattern s) step time row.
Proof.
  unfold rowBody, bind.
  destruct (readCell row step s) as [[cell|e|] s1] eqn:Hc; try discriminate.
  destruct (readCell_normal _ _ _ _ _ Hc) as [-> [Ht _]].
  unfold rowTrigger. rewrite <- Ht.
  destruct (truthy cell); simpl.
  - destruct (nth_error SOUNDS (Z.to_nat row)) as [name|].
    + intros _. apply playSoundAtTime_trace.
    + intros _. simpl. rewrite app_nil_r. reflexivity.
  - intros _. rewrite app_nil_r. reflexivity.
Qed.

Lemma rows_run (step : Z) (time : float) (rows : list Z) : forall s,
  (forall row, In row rows -> rowReadable (pattern s) row = true) ->
  timeCheck time = None ->
  fst (for_each rows (rowBody step time) s) = Normal tt /\
  trace (snd (for_each rows (rowBody step time) s)) =
    trace s ++ flat_map (rowTrigger (pattern s) step time) rows.
Proof.
  induction rows as [|row rows IH]; intros s Hr Hok; simpl.
  - rewrite app_nil_r. split; reflexivity.
  - destruct (rowBody_run step time row s (Hr row (or_introl eq_refl)) Hok) as [Ho Ht].
    pose proof (rowBody_inputs step time row s) as Hf.
    unfold bind. destruct (rowBody step time row s) as [o s1]. simpl in *.
    subst o.
    assert (Hp : pattern s1 = pattern s).
    { unfold unchanged, schedulerInputs in Hf. congruence. }
    destruct (IH s1) as [Ho' Ht'].
    { intros r Hin. rewrite Hp. apply Hr. right. exact Hin. }
    { exact Hok. }
    split; [exact Ho'|].
    rewrite Ht', Ht, Hp, app_assoc. reflexivity.
Qed.

Lemma rows_normal (step : Z) (time : float) (rows : list Z) : forall s,
  fst (for_each rows (rowBody step time) s) = Normal tt ->
  trace (snd (for_each rows (rowBody step time) s)) =
    trace s ++ flat_map (rowTrigger (pattern s) step time) rows.
Proof.
  induction rows as [|row rows IH]; intros s; simpl.
  - intros _. rewrite app_nil_r. reflexivity.
  - pose proof (rowBody_normal step time row s) as Ht.
    pose proof (rowBody_inputs step time row s) as Hf.
    unfold bind. destruct (rowBody step time row s) as [[[]|e|] s1];
      simpl in *; try discriminate.
    intros Hn. specialize (Ht eq_refl).
    assert (Hp : pattern s1 = pattern s).
    { unfold unchanged, schedulerInputs in Hf. congruence. }
    rewrite (IH s1 Hn), Ht, Hp, app_assoc. reflexivity.
Qed.

Lemma scheduleStep_run (step : Z) (time : float) (s : App) :
  rowsReadable (pattern s) = true ->
  timeCheck time = None ->
  fst (scheduleStep step time s) = Normal tt /\
  trace (snd (scheduleStep step time s)) = trace s ++ stepEvents (pattern s) step time.
Proof.
  intros Hr Hok. unfold rowsReadable in Hr. rewrite forallb_forall in Hr.
  change (scheduleStep step time s)
    with (for_each (range CONFIG.rows) (rowBody step time)
            (set_trace (trace s ++ [Commit step time]) s)).
  destruct (rows_run step time (range CONFIG.rows)
              (set_trace (trace s ++ [Commit step time]) s)) as [Ho Ht].
  { intros row Hin. simpl. apply Hr. exact Hin. }
  { exact Hok. }
  split; [exact Ho|].
  rewrite Ht. simpl. unfold stepEvents. rewrite <- app_assoc. reflexivity.
Qed.

Lemma scheduleStep_normal (step : Z) (time : float) (s : App) :
  fst (scheduleStep step time s) = Normal tt ->
  trace (snd (scheduleStep step time s)) = trace s ++ stepEvents (pattern s) step time.
Proof.
  change (scheduleStep step time s)
    with (for_each (range CONFIG.rows) (rowBody step time)
            (set_trace (trace s ++ [Commit step time]) s)).
  intros Hn. rewrite (rows_normal _ _ _ _ Hn).
  simpl. unfold stepEvents. rewrite <- app_assoc. reflexivity.
Qed.

(** The commit of a step is recorded before anything can fail. *)
Lemma scheduleStep_records (step : Z) (time : float) (s : App) :
  exists l, trace (snd (scheduleStep step time s)) = trace s ++ Commit step time :: l.
Proof.
  assert (H : forall rows s0,
             exists l, trace (snd (for_each rows (rowBody step time) s0)) = trace s0 ++ l).
  { induction rows as [|row rows IH]; intros s0; simpl.
    - exists []. rewrite app_nil_r. reflexivity.
    - unfold bind.
      assert (Hrow : exists l, trace (snd (rowBody step time row s0)) = trace s0 ++ l).
      { unfold rowBody, bind.
        destruct (readCell row step s0) as [[cell|e|] s1] eqn:Hc;
          try (unfold readCell, bind, gets, lift in Hc;
               destruct (get_index (pattern s0) row) as [e0|r]; simpl in Hc;
               [|destruct (get_index r step)]; simpl in Hc;
               injection Hc as _ <-; exists []; rewrite app_nil_r; reflexivity).
        destruct (readCell_normal _ _ _ _ _ Hc) as [-> _].
        destruct (truthy cell); simpl.
        - destruct (nth_error SOUNDS (Z.to_nat row)) as [name|].
          + eexists. apply playSoundAtTime_trace.
          + exists []. rewrite app_nil_r. reflexivity.
        - exists []. rewrite app_nil_r. reflexivity. }
      destruct Hrow as [l1 Hl1].
      destruct (rowBody step time row s0) as [[[]|e|] s1]; simpl in *;
        try (exists l1; exact Hl1).
      destruct (IH s1) as [l2 Hl2]. exists (l1 ++ l2).
      rewrite Hl2, Hl1, app_assoc. reflexivity. }
  change (scheduleStep step time s)
    with (for_each (range CONFIG.rows) (rowBody step time)
            (set_trace (trace s ++ [Commit step time]) s)).
  destruct (H (range CONFIG.rows) (set_trace (trace s ++ [Commit step time]) s))
    as [l Hl].
  exists l. rewrite Hl. simpl. rewrite <- app_assoc. reflexivity.
Qed.

Lemma scheduleStep_inputs (step : Z) (time : float) :
  preserves (unchanged schedulerInputs) (scheduleStep step time).
Proof. structural; frame_leaf. Qed.

Lemma scheduleStep_position (step : Z) (time : float) :
  preserves (unchanged position) (scheduleStep step time).
Proof. structural; frame_leaf. Qed.

Lemma clock_audioCtx (s : App) (now : ClockReading) :
  clock s = Some now -> exists ctx, audioCtx s = Some ctx /\ currentTime ctx = now.
Proof.
  unfold clock. destruct (audioCtx s) as [ctx|]; simpl; [|discriminate].
  intros H. exists ctx. split; congruence.
Qed.

Lemma audioCtx_clock (s : App) (ctx : AudioContext) :
  audioCtx s = Some ctx -> clock s = Some (currentTime ctx).
Proof. unfold clock. intros ->. reflexivity. Qed.

Lemma scheduleStepUI_run (step : Z) (time : float) (s : App) (ctx : AudioContext) :
  audioCtx s = Some ctx ->
  scheduleStepUI step time s =
    (Normal tt,
     set_nextTimerId (S (nextTimerId s))
       (set_timers
          (timers s ++
           [{| timer_id := nextTimerId s; timer_cb := CbStepUI step;
               timer_delay := max0 ((time - currentTime ctx) * 1000)%float |}]) s)).
Proof.
  intros H.
  unfold scheduleStepUI, readCurrentTime, theAudioCtx, bind, gets.
  rewrite H. reflexivity.
Qed.

Lemma scheduleStepUI_no_audio (step : Z) (time : float) (s : App) :
  audioCtx s = None -> scheduleStepUI step time s = (Throw TypeError, s).
Proof.
  intros H.
  unfold scheduleStepUI, readCurrentTime, theAudioCtx, bind, gets.
  rewrite H. reflexivity.
Qed.

(** What a commit that returns has done. *)
Lemma commitStep_normal (s s' : App) :
  commitStep s = (Normal tt, s') ->
  trace s' = trace s ++ stepEvents (pattern s) (currentStep s) (nextStepTime s) /\
  nextStepTime s' = (nextStepTime s + getStepDuration s)%float /\
  currentStep s' = (currentStep s + 1) mod CONFIG.steps /\
  schedulerInputs s' = schedulerInputs s.
Proof.
  pose proof (scheduleStep_normal (currentStep s) (nextStepTime s) s) as Ht.
  pose proof (scheduleStep_inputs (currentStep s) (nextStepTime s) s) as Hi.
  pose proof (scheduleStep_position (currentStep s) (nextStepTime s) s) as Hp.
  unfold commitStep, bind at 1 2 3. simpl.
  destruct (scheduleStep (currentStep s) (nextStepTime s) s) as [[[]|e|] s1];
    try discriminate.
  simpl in *. specialize (Ht eq_refl). unfold unchanged in Hi, Hp.
  unfold bind at 1.
  destruct (audioCtx s1) as [ctx1|] eqn:Hctx1;
    [|rewrite (scheduleStepUI_no_audio _ _ _ Hctx1); discriminate].
  rewrite (scheduleStepUI_run _ _ s1 ctx1 Hctx1).
  unfold bind, gets, modify. intros H. injection H as <-.
  unfold position in Hp. injection Hp as Hc Hn.
  unfold schedulerInputs in *. injection Hi as Hpat Hbpm Hplay Hclk.
  simpl. unfold getStepDuration. simpl.
  rewrite Ht, Hn, Hc, Hbpm, Hpat, Hplay.
  repeat split; try reflexivity.
  f_equal. unfold clock in *. simpl. exact Hclk.
Qed.

Lemma commitStep_run (s : App) (ctx : AudioContext) :
  audioCtx s = Some ctx ->
  rowsReadable (pattern s) = true ->
  timeCheck (nextStepTime s) = None ->
  exists s',
    commitStep s = (Normal tt, s') /\
    trace s' = trace s ++ stepEvents (pattern s) (currentStep s) (nextStepTime s) /\
    nextStepTime s' = (nextStepTime s + getStepDuration s)%float /\
    currentStep s' = (currentStep s + 1) mod CONFIG.steps /\
    schedulerInputs s' = schedulerInputs s.
Proof.
  intros Hctx Hrows Hok.
  assert (Hrun : exists s', commitStep s = (Normal tt, s')).
  { destruct (scheduleStep_run (currentStep s) (nextStepTime s) s Hrows Hok) as [Ho _].
    pose proof (scheduleStep_inputs (currentStep s) (nextStepTime s) s) as Hi.
    unfold commitStep, bind at 1 2 3. simpl.
    destruct (scheduleStep (currentStep s) (nextStepTime s) s) as [o s1].
    simpl in *. subst o. unfold unchanged in Hi.
    assert (Hclock : clock s1 = Some (currentTime ctx)).
    { unfold schedulerInputs in Hi. rewrite <- (audioCtx_clock s ctx Hctx). congruence. }
    destruct (clock_audioCtx s1 _ Hclock) as [ctx1 [Hctx1 _]].
    unfold bind at 1. rewrite (scheduleStepUI_run _ _ s1 ctx1 Hctx1).
    eexists. reflexivity. }
  destruct Hrun as [s' Hrun]. exists s'. split; [exact Hrun|].
  apply commitStep_normal. exact Hrun.
Qed.

(** ** The look-ahead loop *)

Lemma stepTime_shift (t d : float) (i : nat) :
  stepTime (t + d)%float d i = stepTime t d (S i).
Proof.
  unfold stepTime. induction i as [|i IH]; simpl; [reflexivity|].
  simpl in IH. rewrite IH. reflexivity.
Qed.

Lemma stepIndex_shift (c : Z) (i : nat) :
  stepIndex ((c + 1) mod CONFIG.steps) i = stepIndex c (S i).
Proof.
  unfold stepIndex. induction i as [|i IH]; simpl; [reflexivity|].
  simpl in IH. rewrite IH. reflexivity.
Qed.

Lemma due_shift (t d now : float) (k : nat) :
  due t d now (S k) -> due (t + d)%float d now k.
Proof.
  intros [Hlt Hge]. split.
  - intros i Hi. rewrite stepTime_shift. apply Hlt. lia.
  - rewrite stepTime_shift. exact Hge.
Qed.

Lemma due_step (t d now : float) (k : nat) :
  beforeHorizon t now = true -> due (t + d)%float d now k -> due t d now (S k).
Proof.
  intros H0 [Hlt Hge]. split.
  - intros [|i] Hi; [exact H0|].
    rewrite <- stepTime_shift. apply Hlt. lia.
  - rewrite <- stepTime_shift. exact Hge.
Qed.

Lemma audible_shift (t d : float) (k : nat) :
  audible t d (S k) -> audible (t + d)%float d k.
Proof. intros H i Hi. rewrite stepTime_shift. apply H. lia. Qed.

Lemma dueb_due (t d now : float) (k : nat) :
  dueb t d now k = true -> due t d now k.
Proof.
  unfold dueb, due. rewrite andb_true_iff, forallb_forall, negb_true_iff.
  intros [H1 H2]. split; [|exact H2].
  intros i Hi. apply H1. apply in_seq. lia.
Qed.

Lemma audibleb_audible (t d : float) (k : nat) :
  audibleb t d k = true -> audible t d k.
Proof.
  unfold audibleb, audible. rewrite forallb_forall.
  intros H i Hi. specialize (H i). unfold timeOk in H.
  destruct (timeCheck (stepTime t d i)); [|reflexivity].
  discriminate H. apply in_seq. lia.
Qed.

Lemma due_unique (t d now : float) (k1 k2 : nat) :
  due t d now k1 -> due t d now k2 -> k1 = k2.
Proof.
  intros [L1 G1] [L2 G2].
  destruct (Nat.lt_trichotomy k1 k2) as [H|[H|H]]; [|exact H|].
  - exfalso. rewrite (L2 _ H) in G1. discriminate.
  - exfalso. rewrite (L1 _ H) in G2. discriminate.
Qed.

Lemma getStepDuration_bpm (s s' : App) :
  bpm s' = bpm s -> getStepDuration s' = getStepDuration s.
Proof. unfold getStepDuration. intros ->. reflexivity. Qed.

Lemma schedulerLoop_unfold (fuel : nat) (s : App) (ctx : AudioContext) :
  audioCtx s = Some ctx ->
  schedulerLoop fuel s =
    if beforeHorizon (nextStepTime s) (currentTime ctx) then
      match fuel with
      | O => (Diverge, s)
      | S fuel' => bind commitStep (fun _ => schedulerLoop fuel') s
      end
    else (Normal tt, s).
Proof.
  intros H. unfold beforeHorizon.
  destruct fuel; simpl;
    unfold bind at 1, gets at 1; unfold bind at 1;
    unfold readCurrentTime, theAudioCtx, bind at 1; unfold bind at 1, gets at 1;
    rewrite H; simpl;
    destruct (nextStepTime s <? currentTime ctx + CONFIG.scheduleAheadTime)%float;
    reflexivity.
Qed.

Lemma schedulerLoop_no_audio (fuel : nat) (s : App) :
  audioCtx s = None -> schedulerLoop fuel s = (Throw TypeError, s).
Proof.
  intros H.
  destruct fuel; simpl;
    unfold bind at 1, gets at 1; unfold bind at 1;
    unfold readCurrentTime, theAudioCtx, bind at 1; unfold bind at 1, gets at 1;
    rewrite H; reflexivity.
Qed.

Lemma schedulerLoop_run (k : nat) : forall (s : App) (ctx : AudioContext),
  audioCtx s = Some ctx ->
  rowsReadable (pattern s) = true ->
  due (nextStepTime s) (getStepDuration s) (currentTime ctx) k ->
  audible (nextStepTime s) (getStepDuration s) k ->
  exists s',
    (forall fuel, (k <= fuel)%nat -> schedulerLoop fuel s = (Normal tt, s')) /\
    trace s' = trace s ++
      committed (pattern s) (currentStep s) (nextStepTime s) (getStepDuration s) k /\
    nextStepTime s' = stepTime (nextStepTime s) (getStepDuration s) k /\
    currentStep s' = stepIndex (currentStep s) k /\
    schedulerInputs s' = schedulerInputs s.
Proof.
  induction k as [|k IH]; intros s ctx Hctx Hrows Hdue Haud.
  - destruct Hdue as [_ Hge]. exists s. split.
    + intros fuel _. rewrite (schedulerLoop_unfold fuel s ctx Hctx).
      simpl in Hge. unfold stepTime in Hge. simpl in Hge. rewrite Hge. reflexivity.
    + simpl. rewrite app_nil_r. repeat split; reflexivity.
  - assert (H0 : beforeHorizon (nextStepTime s) (currentTime ctx) = true).
    { destruct Hdue as [Hlt _]. apply (Hlt O). lia. }
    assert (Hok : timeCheck (nextStepTime s) = None) by (apply (Haud O); lia).
    destruct (commitStep_run s ctx Hctx Hrows Hok) as [s1 [Hrun [Ht [Hn [Hc Hi]]]]].
    pose proof Hi as Hi'. unfold schedulerInputs in Hi'.
    injection Hi' as Hpat Hbpm Hplay Hclk.
    rewrite (audioCtx_clock s ctx Hctx) in Hclk.
    destruct (clock_audioCtx s1 _ Hclk) as [ctx1 [Hctx1 Hnow1]].
    pose proof (getStepDuration_bpm s s1 Hbpm) as Hd.
    destruct (IH s1 ctx1) as [s' [Hrun' [Ht' [Hn' [Hc' Hi'']]]]].
    + exact Hctx1.
    + rewrite Hpat. exact Hrows.
    + rewrite Hn, Hd, Hnow1. apply due_shift. exact Hdue.
    + rewrite Hn, Hd. apply audible_shift. exact Haud.
    + exists s'. split.
      * intros fuel Hfuel. destruct fuel as [|fuel]; [lia|].
        rewrite (schedulerLoop_unfold (S fuel) s ctx Hctx), H0.
        rewrite (run_bind _ _ _ _ _ Hrun). apply Hrun'. lia.
      * rewrite Ht', Ht, Hn', Hc', Hn, Hc, Hd, Hpat, Hi'', Hi.
        rewrite stepTime_shift, stepIndex_shift. cbn [committed].
        rewrite <- app_assoc. repeat split; reflexivity.
Qed.

(** What a run of the loop that returns has done: it has committed the
    steps that were due, and no other. *)
Lemma schedulerLoop_normal (fuel : nat) : forall (s s' : App) (ctx : AudioContext),
  audioCtx s = Some ctx ->
  schedulerLoop fuel s = (Normal tt, s') ->
  exists k,
    (k <= fuel)%nat /\
    due (nextStepTime s) (getStepDuration s) (currentTime ctx) k /\
    trace s' = trace s ++
      committed (pattern s) (currentStep s) (nextStepTime s) (getStepDuration s) k /\
    nextStepTime s' = stepTime (nextStepTime s) (getStepDuration s) k /\
    currentStep s' = stepIndex (currentStep s) k /\
    schedulerInputs s' = schedulerInputs s.
Proof.
  induction fuel as [|fuel IH]; intros s s' ctx Hctx;
    rewrite (schedulerLoop_unfold _ s ctx Hctx);
    destruct (beforeHorizon (nextStepTime s) (currentTime ctx)) eqn:H0;
    try discriminate;
    try (intros H; injection H as <-; exists O;
         split; [lia|]; split; [split; [intros i Hi; lia | exact H0]|];
         simpl; rewrite app_nil_r; repeat split; reflexivity).
  unfold bind.
  destruct (commitStep s) as [[[]|e|] s1] eqn:Hrun; try discriminate.
  intros Hloop.
  destruct (commitStep_normal s s1 Hrun) as [Ht [Hn [Hc Hi]]].
  pose proof Hi as Hi'. unfold schedulerInputs in Hi'.
  injection Hi' as Hpat Hbpm Hplay Hclk.
  rewrite (audioCtx_clock s ctx Hctx) in Hclk.
  destruct (clock_audioCtx s1 _ Hclk) as [ctx1 [Hctx1 Hnow1]].
  pose proof (getStepDuration_bpm s s1 Hbpm) as Hd.
  destruct (IH s1 s' ctx1 Hctx1 Hloop) as [k [Hk [Hdue [Ht' [Hn' [Hc' Hi'']]]]]].
  exists (S k). split; [lia|]. split.
  - apply due_step; [exact H0|]. rewrite Hn, Hd, Hnow1 in Hdue. exact Hdue.
  - rewrite Ht', Ht, Hn', Hc', Hn, Hc, Hd, Hpat, Hi'', Hi.
    rewrite stepTime_shift, stepIndex_shift. cbn [committed].
    rewrite <- app_assoc. repeat split; reflexivity.
Qed.

Lemma stepIndex_closed (c : Z) (i : nat) :
  0 <= c < CONFIG.steps ->
  stepIndex c i = (c + Z.of_nat i) mod CONFIG.steps.
Proof.
  intros Hc. unfold stepIndex. induction i as [|i IH].
  - simpl. rewrite Z.add_0_r. symmetry. apply Z.mod_small. exact Hc.
  - simpl Nat.iter. rewrite IH.
    rewrite Zplus_mod_idemp_l. f_equal. lia.
Qed.

Lemma commits_rowTriggers (p : value) (c : Z) (t : float) (rows : list Z) :
  commits (flat_map (rowTrigger p c t) rows) = [].
Proof.
  induction rows as [|row rows IH]; simpl; [reflexivity|].
  rewrite commits_app, IH, app_nil_r.
  unfold rowTrigger.
  destruct (cellActive p row c); [|reflexivity].
  destruct (nth_error SOUNDS (Z.to_nat row)); reflexivity.
Qed.

Lemma commits_stepEvents (p : value) (c : Z) (t : float) :
  commits (stepEvents p c t) = [(c, t)].
Proof.
  unfold stepEvents. cbn [commits]. rewrite commits_rowTriggers. reflexivity.
Qed.

Lemma commits_committed (p : value) (d : float) (k : nat) : forall (c : Z) (t : float),
  commits (committed p c t d k) =
    map (fun i => (stepIndex c i, stepTime t d i)) (seq 0 k).
Proof.
  induction k as [|k IH]; intros c t; [reflexivity|].
  cbn [committed]. rewrite commits_app, commits_stepEvents, IH.
  simpl. f_equal. rewrite <- seq_shift, map_map.
  apply map_ext. intros i.
  rewrite stepIndex_shift, stepTime_shift. reflexivity.
Qed.

Lemma committed_app (p : value) (d : float) (k1 k2 : nat) : forall (c : Z) (t : float),
  committed p c t d (k1 + k2) =
    committed p c t d k1 ++ committed p (stepIndex c k1) (stepTime t d k1) d k2.
Proof.
  induction k1 as [|k1 IH]; intros c t; [reflexivity|].
  cbn [committed plus Nat.add]. rewrite IH, <- app_assoc.
  rewrite stepIndex_shift, stepTime_shift. reflexivity.
Qed.

(** ** One heartbeat *)

Lemma scheduler_stopped (fuel : nat) (s : App) :
  isPlaying s = false -> scheduler fuel s = (Normal tt, s).
Proof.
  intros H. unfold scheduler, bind, gets. rewrite H. reflexivity.
Qed.

Lemma scheduler_running (fuel : nat) (s : App) :
  isPlaying s = true ->
  scheduler fuel s =
    bind (schedulerLoop fuel)
         (fun _ => id <- setTimeout CbScheduler CONFIG.lookaheadInterval ;;
                   modify (set_schedulerTimerId (Some id))) s.
Proof.
  intros H. unfold scheduler. unfold bind at 1, gets at 1. rewrite H. reflexivity.
Qed.

Lemma scheduler_no_audio (fuel : nat) (s : App) :
  isPlaying s = true -> audioCtx s = None -> scheduler fuel s = (Throw TypeError, s).
Proof.
  intros Hp Hctx. rewrite (scheduler_running _ _ Hp).
  unfold bind at 1. rewrite (schedulerLoop_no_audio _ _ Hctx). reflexivity.
Qed.

Lemma scheduler_run (k : nat) (s : App) (ctx : AudioContext) :
  isPlaying s = true ->
  audioCtx s = Some ctx ->
  rowsReadable (pattern s) = true ->
  due (nextStepTime s) (getStepDuration s) (currentTime ctx) k ->
  audible (nextStepTime s) (getStepDuration s) k ->
  exists s',
    (forall fuel, (k <= fuel)%nat -> scheduler fuel s = (Normal tt, s')) /\
    trace s' = trace s ++
      committed (pattern s) (currentStep s) (nextStepTime s) (getStepDuration s) k /\
    nextStepTime s' = stepTime (nextStepTime s) (getStepDuration s) k /\
    currentStep s' = stepIndex (currentStep s) k /\
    schedulerInputs s' = schedulerInputs s /\
    exists id,
      schedulerTimerId s' = Some id /\
      In {| timer_id := id; timer_cb := CbScheduler;
            timer_delay := CONFIG.lookaheadInterval |} (timers s').
Proof.
  intros Hplay Hctx Hrows Hdue Haud.
  destruct (schedulerLoop_run k s ctx Hctx Hrows Hdue Haud)
    as [s1 [Hrun [Ht [Hn [Hc Hi]]]]].
  eexists. split.
  - intros fuel Hfuel.
    rewrite (scheduler_running fuel s Hplay).
    rewrite (run_bind _ _ _ _ _ (Hrun fuel Hfuel)). reflexivity.
  - simpl. repeat split; try assumption.
    eexists. split; [reflexivity|].
    apply in_or_app. right. left. reflexivity.
Qed.

(** What a heartbeat that returns has done. *)
Lemma scheduler_normal (fuel : nat) (s s' : App) (ctx : AudioContext) :
  isPlaying s = true ->
  audioCtx s = Some ctx ->
  scheduler fuel s = (Normal tt, s') ->
  exists k,
    (k <= fuel)%nat /\
    due (nextStepTime s) (getStepDuration s) (currentTime ctx) k /\
    trace s' = trace s ++
      committed (pattern s) (currentStep s) (nextStepTime s) (getStepDuration s) k /\
    nextStepTime s' = stepTime (nextStepTime s) (getStepDuration s) k /\
    currentStep s' = stepIndex (currentStep s) k /\
    schedulerInputs s' = schedulerInputs s.
Proof.
  intros Hplay Hctx. rewrite (scheduler_running fuel s Hplay).
  unfold bind at 1.
  destruct (schedulerLoop fuel s) as [[[]|e|] s1] eqn:Hloop; try discriminate.
  destruct (schedulerLoop_normal fuel s s1 ctx Hctx Hloop)
    as [k [Hk [Hdue [Ht [Hn [Hc Hi]]]]]].
  unfold bind, setTimeout, gets, modify, ret. simpl.
  intros H. injection H as <-.
  exists k. split; [exact Hk|]. split; [exact Hdue|].
  simpl. repeat split; try assumption.
Qed.

(** ** Start and stop *)

Lemma startSequencer_running (fuel : nat) (s : App) :
  isPlaying s = true -> startSequencer fuel s = (Normal tt, s).
Proof.
  intros H. unfold startSequencer, bind, gets. rewrite H. reflexivity.
Qed.

Lemma startSequencer_seeds (fuel : nat) (s : App) (ctx : AudioContext) :
  isPlaying s = false ->
  audioCtx s = Some ctx ->
  startSequencer fuel s = scheduler fuel (seeded (currentTime ctx) s).
Proof.
  intros Hp Hctx.
  destruct s as [ac pat cs ip tid b nst lss nb tm nt u tr rd].
  simpl in Hp, Hctx. subst ip ac. reflexivity.
Qed.

Lemma startSequencer_no_audio (fuel : nat) (s : App) :
  isPlaying s = false ->
  audioCtx s = None ->
  startSequencer fuel s =
    (Throw TypeError,
     set_currentStep 0
       (set_ui (ui_set_btnText "Stop" (ui_set_playing true (ui s)))
          (set_isPlaying true s))).
Proof.
  intros Hp Hctx.
  destruct s as [ac pat cs ip tid b nst lss nb tm nt u tr rd].
  simpl in Hp, Hctx. subst ip ac. reflexivity.
Qed.

Lemma stopSequencer_stopped (s : App) :
  isPlaying s = false -> stopSequencer s = (Normal tt, s).
Proof.
  intros H. unfold stopSequencer, bind, gets. rewrite H. reflexivity.
Qed.

Lemma filter_drops_id (id : nat) (l : list Timer) (t : Timer) :
  In t (filter (fun t => negb (Nat.eqb (timer_id t) id)) l) -> timer_id t <> id.
Proof.
  intros H. apply filter_In in H. destruct H as [_ H].
  apply negb_true_iff in H. apply Nat.eqb_neq in H. exact H.
Qed.

Lemma stopSequencer_run (s : App) :
  isPlaying s = true ->
  exists s',
    stopSequencer s = (Normal tt, s') /\
    isPlaying s' = false /\
    currentStep s' = 0 /\
    trace s' = trace s /\
    bpm s' = bpm s /\ pattern s' = pattern s /\ audioCtx s' = audioCtx s /\
    (forall t, In t (timers s') -> In t (timers s)) /\
    (forall id, schedulerTimerId s = Some id -> id <> O ->
                schedulerTimerId s' = None /\ notPending id s').
Proof.
  intros Hp.
  destruct s as [ac pat cs ip [[|id]|] b nst lss nb tm nt u tr rd];
    simpl in Hp; subst ip;
    (eexists; split; [reflexivity|]); simpl;
    (split; [reflexivity|]); (split; [reflexivity|]); (split; [reflexivity|]);
    (split; [reflexivity|]); (split; [reflexivity|]); (split; [reflexivity|]);
    split.
  - intros t Hin. exact Hin.
  - intros id' Hid Hne. injection Hid as <-. congruence.
  - intros t Hin. apply filter_In in Hin. apply Hin.
  - intros id' Hid Hne. injection Hid as <-.
    split; [reflexivity|].
    unfold notPending. simpl. intros t Hin.
    apply (filter_drops_id _ _ _ Hin).
  - intros t Hin. exact Hin.
  - intros id' Hid. discriminate.
Qed.

(** ** Runs of heartbeats *)

Lemma stepTime_add (t d : float) (k n : nat) :
  stepTime (stepTime t d k) d n = stepTime t d (k + n).
Proof.
  unfold stepTime. rewrite Nat.add_comm. symmetry. apply Nat.iter_add.
Qed.

Lemma stepIndex_add (c : Z) (k n : nat) :
  stepIndex (stepIndex c k) n = stepIndex c (k + n).
Proof.
  unfold stepIndex. rewrite Nat.add_comm. symmetry. apply Nat.iter_add.
Qed.

Lemma runningOK_intro (s : App) (ctx : AudioContext) :
  isPlaying s = true -> audioCtx s = Some ctx ->
  rowsReadable (pattern s) = true -> runningOK s.
Proof. intros H1 H2 H4. repeat split; try assumption. exists ctx. exact H2. Qed.

(** ** Runs *)

Lemma run_app (fuel : nat) (l1 l2 : list Action) : forall s : App,
  run fuel (l1 ++ l2) s =
    match run fuel l1 s with
    | Some s1 => run fuel l2 s1
    | None => None
    end.
Proof.
  induction l1 as [|a l1 IH]; intros s; simpl; [reflexivity|].
  destruct (perform fuel a s) as [[[]| e |] s1]; try apply IH. reflexivity.
Qed.

Lemma completes_app (fuel : nat) (l1 l2 : list Action) : forall s : App,
  completes fuel (l1 ++ l2) s =
    match completes fuel l1 s with
    | Some s1 => completes fuel l2 s1
    | None => None
    end.
Proof.
  induction l1 as [|a l1 IH]; intros s; simpl; [reflexivity|].
  destruct (perform fuel a s) as [[[]| e |] s1]; try apply IH; reflexivity.
Qed.

Lemma completes_run (fuel : nat) (l : list Action) : forall s s' : App,
  completes fuel l s = Some s' -> run fuel l s = Some s'.
Proof.
  induction l as [|a l IH]; intros s s'; simpl; [intros H; exact H|].
  destruct (perform fuel a s) as [[[]| e |] s1]; try discriminate. apply IH.
Qed.

Lemma advanceClock_run (t : ClockReading) (s : App) (ctx : AudioContext) :
  audioCtx s = Some ctx ->
  advanceClock t s =
    (Normal tt,
     set_audioCtx
       (Some (if (currentTime ctx <=? t)%float then ctx_set_currentTime t ctx else ctx)) s).
Proof.
  intros Hctx. unfold advanceClock, modify, mapCtx. rewrite Hctx. reflexivity.
Qed.

Lemma advanceClock_no_audio (t : ClockReading) (s : App) :
  audioCtx s = None -> advanceClock t s = (Normal tt, s).
Proof.
  intros Hctx. unfold advanceClock, modify, mapCtx. rewrite Hctx. reflexivity.
Qed.

(** What a timer or a move of the clock that returns has done: it has
    committed the [k] steps that follow the position of the scheduler, for
    some [k]. *)
Lemma heartbeat_normal (fuel : nat) (a : Action) (s s' : App) :
  heartbeatOnly a = true ->
  perform fuel a s = (Normal tt, s') ->
  exists k,
    trace s' = trace s ++
      committed (pattern s) (currentStep s) (nextStepTime s) (getStepDuration s) k /\
    nextStepTime s' = stepTime (nextStepTime s) (getStepDuration s) k /\
    currentStep s' = stepIndex (currentStep s) k /\
    pattern s' = pattern s /\ bpm s' = bpm s /\ isPlaying s' = isPlaying s.
Proof.
  intros Ha. destruct a; try discriminate; clear Ha; cbn [perform].
  - (* a timer fires *)
    unfold fireTimer. unfold bind at 1, gets at 1.
    destruct (find (fun t => Nat.eqb (timer_id t) id) (timers s)) as [tm|].
    + unfold bind at 1, clearTimeout at 1, modify at 1.
      match goal with
      | |- context [set_timers ?x s] => set (s1 := set_timers x s)
      end.
      destruct (timer_cb tm) as [|step]; cbn [runCallback].
      * destruct (isPlaying s) eqn:Hplay.
        -- destruct (audioCtx s) as [ctx|] eqn:Hctx.
           ++ intros Hrun.
              destruct (scheduler_normal fuel s1 s' ctx Hplay Hctx Hrun)
                as [k [_ [_ [Ht [Hn [Hc Hi]]]]]].
              exists k. unfold schedulerInputs in Hi.
              injection Hi as Hpat Hb Hp _.
              repeat split; try assumption.
              rewrite Hp. exact Hplay.
           ++ rewrite (scheduler_no_audio fuel s1 Hplay Hctx). discriminate.
        -- rewrite (scheduler_stopped fuel s1 Hplay).
           intros H. injection H as <-. exists O.
           simpl. rewrite app_nil_r. repeat split; try reflexivity. exact Hplay.
      * unfold bind, gets, when, updateStepHighlight, updateUI, modify, ret.
        cbn [isPlaying s1 set_timers].
        intros H. exists O.
        destruct (isPlaying s) eqn:Hplay; injection H as <-;
          simpl; rewrite app_nil_r; repeat split; try reflexivity; exact Hplay.
    + intros H. injection H as <-. exists O.
      simpl. rewrite app_nil_r. repeat split; reflexivity.
  - (* the clock moves *)
    unfold advanceClock, modify, mapCtx.
    intros H. injection H as <-. exists O.
    destruct (audioCtx s); simpl; rewrite app_nil_r; repeat split; reflexivity.
Qed.

Lemma heartbeats_complete (fuel : nat) (l : list Action) : forall s s' : App,
  forallb heartbeatOnly l = true ->
  completes fuel l s = Some s' ->
  exists n,
    trace s' = trace s ++
      committed (pattern s) (currentStep s) (nextStepTime s) (getStepDuration s) n /\
    nextStepTime s' = stepTime (nextStepTime s) (getStepDuration s) n /\
    currentStep s' = stepIndex (currentStep s) n /\
    pattern s' = pattern s /\ bpm s' = bpm s /\ isPlaying s' = isPlaying s.
Proof.
  induction l as [|a l IH]; intros s s' Hl Hrun.
  - simpl in Hrun. injection Hrun as <-. exists O.
    simpl. rewrite app_nil_r. repeat split; reflexivity.
  - simpl in Hl. apply andb_true_iff in Hl. destruct Hl as [Ha Hl].
    simpl in Hrun.
    destruct (perform fuel a s) as [[[]|e|] s1] eqn:Hp; try discriminate.
    destruct (heartbeat_normal fuel a s s1 Ha Hp)
      as [k [Ht [Hn [Hc [Hpat [Hb Hpl]]]]]].
    destruct (IH s1 s' Hl Hrun) as [n [Ht' [Hn' [Hc' [Hpat' [Hb' Hpl']]]]]].
    exists (k + n)%nat.
    rewrite Ht', Ht, Hn', Hc', Hn, Hc, Hpat, (getStepDuration_bpm s s1 Hb).
    rewrite committed_app, stepTime_add, stepIndex_add, <- app_assoc.
    repeat split; congruence.
Qed.

(** ** The scheduler commits the due steps, in cycle *)

Lemma in_range (n row : Z) : In row (range n) <-> 0 <= row < n.
Proof.
  unfold range. rewrite in_map_iff. split.
  - intros [i [<- Hi]]. apply in_seq in Hi. lia.
  - intros H. exists (Z.to_nat row). split; [lia|]. apply in_seq. lia.
Qed.




Lemma audioReady_audioCtx :
  exists ctx, audioCtx audioReady = Some ctx /\ reading (currentTime ctx) = 0%float.
Proof. eexists. split; vm_compute; reflexivity. Qed.

Lemma playingState_runningOK : runningOK playingState.
Proof.
  unfold runningOK.
  split; [vm_compute; reflexivity|].
  split; [eexists; vm_compute; reflexivity|].
  vm_compute; reflexivity.
Qed.

Lemma playingState_audioCtx : exists ctx, audioCtx playingState = Some ctx.
Proof. eexists. vm_compute. reflexivity. Qed.





(** ** Tempo changes *)

(** C2: a tempo mutation made between two runs of heartbeats, in a run all
    of whose handlers return, leaves the steps committed before it as they
    are: they are the prefix of the later record, with the old period
    between them; [setBpm] itself returns and writes neither the record nor
    the position of the scheduler, so the next uncommitted step keeps the
    trigger time it had; and from that step on the trigger times advance by
    the period of the new (clamped) tempo. *)
Theorem tempo_change_is_not_retroactive
  (fuel : nat) (s s' : App) (newBpm : Z) (before after : list Action) :
  forallb heartbeatOnly before = true ->
  forallb heartbeatOnly after = true ->
  completes fuel (before ++ Slider newBpm :: after) s = Some s' ->
  exists (n1 n2 : nat) (s1 : App),
    completes fuel before s = Some s1 /\
    commits (trace s1) = commits (trace s) ++
      map (fun i => (stepIndex (currentStep s) i,
                     stepTime (nextStepTime s) (getStepDuration s) i)) (seq 0 n1) /\
    setBpm newBpm s1 = (Normal tt, exec (setBpm newBpm) s1) /\
    trace (exec (setBpm newBpm) s1) = trace s1 /\
    nextStepTime (exec (setBpm newBpm) s1) = nextStepTime s1 /\
    currentStep (exec (setBpm newBpm) s1) = currentStep s1 /\
    commits (trace s') = commits (trace s1) ++
      map (fun i => (stepIndex (currentStep s1) i,
                     stepTime (nextStepTime s1)
                       (getStepDuration_f64 (f64_of_Z (clamp 60 180 newBpm))) i))
          (seq 0 n2).
Proof.
  intros Hb Ha Hrun. rewrite completes_app in Hrun.
  destruct (completes fuel before s) as [s1|] eqn:Hrun1; [|discriminate].
  cbn [completes perform] in Hrun.
  change (setBpm newBpm s1) with (Normal tt, exec (setBpm newBpm) s1) in Hrun.
  cbv iota in Hrun.
  destruct (heartbeats_complete fuel before s s1 Hb Hrun1) as [n1 [Ht1 _]].
  destruct (heartbeats_complete fuel after _ s' Ha Hrun) as [n2 [Ht2 _]].
  exists n1, n2, s1.
  split; [reflexivity|].
  split; [rewrite Ht1, commits_app, commits_committed; reflexivity|].
  split; [reflexivity|]. split; [reflexivity|].
  split; [reflexivity|]. split; [reflexivity|].
  rewrite Ht2, commits_app, commits_committed. reflexivity.
Qed.

Lemma tempo_change_is_not_retroactive_witness :
  exists (n2 : nat) (s1 s' : App),
    completes 20 ([ClockMoves (clockAt 0.25); TimerFires 2] ++
                  Slider 90 :: [ClockMoves (clockAt 0.75); TimerFires 5])
      beatPlaying = Some s' /\
    completes 20 [ClockMoves (clockAt 0.25); TimerFires 2] beatPlaying = Some s1 /\
    commits (trace s') =
      [(0, 0.050000000000000003%float); (1, 0.17499999999999999%float);
       (2, 0.29999999999999999%float); (3, 0.42499999999999999%float);
       (4, 0.59166666666666667%float); (5, 0.7583333333333333%float)] /\
    commits (trace s') = commits (trace s1) ++
      map (fun i => (stepIndex (currentStep s1) i,
                     stepTime (nextStepTime s1)
                       (getStepDuration_f64 (f64_of_Z (clamp 60 180 90))) i))
          (seq 0 n2).
Proof.
  assert (Hrun : exists s',
            completes 20 ([ClockMoves (clockAt 0.25); TimerFires 2] ++
                          Slider 90 :: [ClockMoves (clockAt 0.75); TimerFires 5])
              beatPlaying = Some s' /\
            commits (trace s') =
              [(0, 0.050000000000000003%float); (1, 0.17499999999999999%float);
               (2, 0.29999999999999999%float); (3, 0.42499999999999999%float);
               (4, 0.59166666666666667%float); (5, 0.7583333333333333%float)])
    by (eexists; split; vm_compute; reflexivity).
  destruct Hrun as [s' [Hrun Hlist]].
  destruct (tempo_change_is_not_retroactive 20 beatPlaying s' 90
              [ClockMoves (clockAt 0.25); TimerFires 2%nat]
              [ClockMoves (clockAt 0.75); TimerFires 5%nat] eq_refl eq_refl Hrun)
    as [n1 [n2 [s1 [Hrun1 [Hc1 [_ [_ [_ [_ Hc]]]]]]]]].
  exists n2, s1, s'.
  split; [exact Hrun|]. split; [exact Hrun1|]. split; [exact Hlist | exact Hc].
Defined.

(** ** Start, stop, restart *)

Lemma stop_move_start (s : App) (ctx : AudioContext) (t : ClockReading) :
  isPlaying s = true ->
  audioCtx s = Some ctx ->
  exists s2 ctx2,
    (forall fuel,
       completes fuel [CallStop; ClockMoves t; CallStart] s =
         match scheduler fuel (seeded (currentTime ctx2) s2) with
         | (Normal _, s') => Some s'
         | _ => None
         end) /\
    audioCtx s2 = Some ctx2 /\
    currentTime ctx2 = (if (currentTime ctx <=? t)%float then t else currentTime ctx) /\
    isPlaying s2 = false /\ bpm s2 = bpm s /\ pattern s2 = pattern s /\
    trace s2 = trace s.
Proof.
  intros Hplay Hctx.
  destruct (stopSequencer_run s Hplay)
    as [s1 [Hrun1 [Hp1 [_ [Ht1 [Hb1 [Hpat1 [Hctx1 _]]]]]]]].
  rewrite Hctx in Hctx1.
  exists (exec (advanceClock t) s1),
         (if (currentTime ctx <=? t)%float then ctx_set_currentTime t ctx else ctx).
  assert (Hs2 : exec (advanceClock t) s1 =
                set_audioCtx
                  (Some (if (currentTime ctx <=? t)%float
                         then ctx_set_currentTime t ctx else ctx)) s1).
  { unfold exec. rewrite (advanceClock_run t s1 ctx Hctx1). reflexivity. }
  split; [|rewrite Hs2; cbn [audioCtx isPlaying bpm pattern trace set_audioCtx];
           repeat split; try assumption;
           destruct (currentTime ctx <=? t)%float; reflexivity].
  intros fuel. cbn [completes perform]. rewrite Hrun1.
  rewrite (advanceClock_run t s1 ctx Hctx1). rewrite <- Hs2.
  rewrite (startSequencer_seeds fuel (exec (advanceClock t) s1)
             (if (currentTime ctx <=? t)%float then ctx_set_currentTime t ctx else ctx)).
  - destruct (scheduler fuel _) as [[[]|e|] s']; reflexivity.
  - rewrite Hs2. exact Hp1.
  - rewrite Hs2. reflexivity.
Qed.

(** C6: (1) [startSequencer] from Stopped, on an initialised clock, enters
    the scheduler with the transport Running, the step index 0 and the next
    step time seeded to the clock reading plus 0.05 s; (2) [stopSequencer]
    from Running returns with the transport Stopped, the step index 0, the
    pending wake-up cancelled and nothing committed; (3) stopping, letting
    the clock run to [t] and starting again, when [k] steps are due at the
    new clock reading from the new seed, returns and commits exactly those,
    from step 0 at the new clock reading plus 0.05 s onwards, whatever
    position the scheduler had reached before the stop; (4) conversely,
    whenever the three handlers return, what the restart has committed are
    the steps due from step 0 at the new seed. *)
Theorem start_seeds_and_stop_resets :
  (forall (fuel : nat) (s : App) (ctx : AudioContext),
     isPlaying s = false ->
     audioCtx s = Some ctx ->
     startSequencer fuel s = scheduler fuel (seeded (currentTime ctx) s) /\
     isPlaying (seeded (currentTime ctx) s) = true /\
     currentStep (seeded (currentTime ctx) s) = 0 /\
     nextStepTime (seeded (currentTime ctx) s) = (currentTime ctx + 0.05)%float) /\
  (forall s : App,
     isPlaying s = true ->
     exists s',
       stopSequencer s = (Normal tt, s') /\
       isPlaying s' = false /\
       currentStep s' = 0 /\
       trace s' = trace s /\
       (forall id, schedulerTimerId s = Some id -> id <> O ->
                   schedulerTimerId s' = None /\ notPending id s')) /\
  (forall (s : App) (ctx : AudioContext) (t now : ClockReading) (k : nat),
     isPlaying s = true ->
     audioCtx s = Some ctx ->
     rowsReadable (pattern s) = true ->
     now = (if (currentTime ctx <=? t)%float then t else currentTime ctx) ->
     due (now + 0.05)%float (getStepDuration s) now k ->
     audible (now + 0.05)%float (getStepDuration s) k ->
     exists s',
       (forall fuel, (k <= fuel)%nat ->
          completes fuel [CallStop; ClockMoves t; CallStart] s = Some s') /\
       isPlaying s' = true /\
       commits (trace s') = commits (trace s) ++
         map (fun i => (Z.of_nat i mod 16,
                        stepTime (now + 0.05)%float (getStepDuration s) i))
             (seq 0 k) /\
       currentStep s' = Z.of_nat k mod 16 /\
       nextStepTime s' = stepTime (now + 0.05)%float (getStepDuration s) k) /\
  (forall (fuel : nat) (s s' : App) (ctx : AudioContext) (t now : ClockReading),
     isPlaying s = true ->
     audioCtx s = Some ctx ->
     now = (if (currentTime ctx <=? t)%float then t else currentTime ctx) ->
     completes fuel [CallStop; ClockMoves t; CallStart] s = Some s' ->
     exists k : nat,
       due (now + 0.05)%float (getStepDuration s) now k /\
       isPlaying s' = true /\
       commits (trace s') = commits (trace s) ++
         map (fun i => (Z.of_nat i mod 16,
                        stepTime (now + 0.05)%float (getStepDuration s) i))
             (seq 0 k)).
Proof.
  split; [|split; [|split]].
  - intros fuel s ctx Hstop Hctx.
    split; [apply startSequencer_seeds; assumption|].
    repeat split.
  - intros s Hplay.
    destruct (stopSequencer_run s Hplay)
      as [s' [Hrun [Hp [Hc [Ht [_ [_ [_ [_ Hid]]]]]]]]].
    exists s'. repeat (split; [assumption|]). exact Hid.
  - intros s ctx t now k Hplay Hctx Hrows Hnow Hdue Haud.
    destruct (stop_move_start s ctx t Hplay Hctx)
      as [s2 [ctx2 [Hrun' [Hctx2 [Hnow2 [Hp2 [Hb2 [Hpat2 Ht2]]]]]]]].
    rewrite <- Hnow in Hnow2.
    set (s0 := seeded (currentTime ctx2) s2).
    assert (Hd0 : getStepDuration s0 = getStepDuration s)
      by (apply (getStepDuration_bpm s s0); exact Hb2).
    destruct (scheduler_run k s0 ctx2 eq_refl Hctx2) as
      [s' [Hrun [Ht [Hn [Hc [Hi _]]]]]].
    { change (pattern s0) with (pattern s2). rewrite Hpat2. exact Hrows. }
    { change (nextStepTime s0) with (currentTime ctx2 + 0.05)%float.
      rewrite Hd0, Hnow2. exact Hdue. }
    { change (nextStepTime s0) with (currentTime ctx2 + 0.05)%float.
      rewrite Hd0, Hnow2. exact Haud. }
    exists s'. split; [|split; [|split; [|split]]].
    + intros fuel Hfuel. rewrite Hrun'. fold s0.
      rewrite (Hrun fuel Hfuel). reflexivity.
    + unfold schedulerInputs in Hi. injection Hi as _ _ Hp _. rewrite Hp. reflexivity.
    + rewrite Ht, commits_app, commits_committed.
      change (trace s0) with (trace s2). rewrite Ht2. f_equal.
      change (nextStepTime s0) with (currentTime ctx2 + 0.05)%float.
      change (currentStep s0) with 0. rewrite Hd0, Hnow2.
      apply map_ext. intros i. f_equal.
      rewrite stepIndex_closed by (unfold CONFIG.steps; lia). reflexivity.
    + rewrite Hc. change (currentStep s0) with 0.
      rewrite stepIndex_closed by (unfold CONFIG.steps; lia). reflexivity.
    + rewrite Hn, Hd0. change (nextStepTime s0) with (currentTime ctx2 + 0.05)%float.
      rewrite Hnow2. reflexivity.
  - intros fuel s s' ctx t now Hplay Hctx Hnow Hrun.
    destruct (stop_move_start s ctx t Hplay Hctx)
      as [s2 [ctx2 [Hrun' [Hctx2 [Hnow2 [Hp2 [Hb2 [Hpat2 Ht2]]]]]]]].
    rewrite <- Hnow in Hnow2. rewrite Hrun' in Hrun.
    set (s0 := seeded (currentTime ctx2) s2) in *.
    assert (Hd0 : getStepDuration s0 = getStepDuration s)
      by (apply (getStepDuration_bpm s s0); exact Hb2).
    destruct (scheduler fuel s0) as [[[]|e|] s1] eqn:Hs; try discriminate.
    injection Hrun as <-.
    destruct (scheduler_normal fuel s0 s1 ctx2 eq_refl Hctx2 Hs)
      as [k [_ [Hdue [Ht [_ [_ Hi]]]]]].
    exists k. split; [|split].
    + change (nextStepTime s0) with (currentTime ctx2 + 0.05)%float in Hdue.
      rewrite Hd0, Hnow2 in Hdue. exact Hdue.
    + unfold schedulerInputs in Hi. injection Hi as _ _ Hp _. rewrite Hp. reflexivity.
    + rewrite Ht, commits_app, commits_committed.
      change (trace s0) with (trace s2). rewrite Ht2. f_equal.
      change (nextStepTime s0) with (currentTime ctx2 + 0.05)%float.
      change (currentStep s0) with 0. rewrite Hd0, Hnow2.
      apply map_ext. intros i. f_equal.
      rewrite stepIndex_closed by (unfold CONFIG.steps; lia). reflexivity.
Qed.

Lemma start_seeds_and_stop_resets_witness :
  (startSequencer 1 audioReady = scheduler 1 (seeded 0 audioReady)) /\
  (exists s', stopSequencer beatPlaying = (Normal tt, s') /\ currentStep s' = 0) /\
  (exists s',
     completes 1 [CallStop; ClockMoves (clockAt 10); CallStart] beatPlaying = Some s' /\
     commits (trace s') =
       commits (trace beatPlaying) ++ [(0, 10.050000000000001%float)]) /\
  (exists s',
     completes 2 [CallStop; ClockMoves (clockAt 0.1); CallStart] fastPlaying = Some s' /\
     commits (trace s') =
       commits (trace fastPlaying) ++ [(0, 0.25%float); (1, 0.29999999999999999%float)]).
Proof.
  destruct start_seeds_and_stop_resets as [H1 [H2 [H3 _]]].
  split; [|split; [|split]].
  - destruct audioReady_audioCtx as [ctx0 [Hctx0 Hnow]].
    assert (Hstop : isPlaying audioReady = false) by (vm_compute; reflexivity).
    destruct (H1 1%nat audioReady ctx0 Hstop Hctx0) as [Hstart _].
    rewrite Hnow in Hstart. exact Hstart.
  - assert (Hplay : isPlaying beatPlaying = true) by (vm_compute; reflexivity).
    destruct (H2 beatPlaying Hplay) as [s' [Hrun [_ [Hc _]]]].
    exists s'. split; [exact Hrun | exact Hc].
  - assert (Hctx : exists ctx, audioCtx beatPlaying = Some ctx /\
                               currentTime ctx = clockAt 0)
      by (eexists; split; vm_compute; reflexivity).
    destruct Hctx as [ctx [Hctx Hnow]].
    destruct (H3 beatPlaying ctx (clockAt 10) (clockAt 10) 1%nat)
      as [s' [Hrun [_ [Hc _]]]].
    + vm_compute. reflexivity.
    + exact Hctx.
    + vm_compute. reflexivity.
    + rewrite Hnow. vm_compute. reflexivity.
    + apply dueb_due. vm_compute. reflexivity.
    + apply audibleb_audible. vm_compute. reflexivity.
    + exists s'. split; [apply Hrun; lia|]. rewrite Hc. vm_compute. reflexivity.
  - assert (Hctx : exists ctx, audioCtx fastPlaying = Some ctx /\
                               currentTime ctx = clockAt 0.2)
      by (eexists; split; vm_compute; reflexivity).
    destruct Hctx as [ctx [Hctx Hnow]].
    destruct (H3 fastPlaying ctx (clockAt 0.1) (clockAt 0.2) 2%nat)
      as [s' [Hrun [_ [Hc _]]]].
    + vm_compute. reflexivity.
    + exact Hctx.
    + vm_compute. reflexivity.
    + rewrite Hnow. vm_compute. reflexivity.
    + apply dueb_due. vm_compute. reflexivity.
    + apply audibleb_audible. vm_compute. reflexivity.
    + exists s'. split; [apply Hrun; lia|]. rewrite Hc. vm_compute. reflexivity.
Defined.

(** ** Nothing is committed while Stopped *)

Lemma quiet_of {A : Type} (c : M A) (s : App) :
  terminates c -> preserves (unchanged transport) c ->
  fst (c s) <> Diverge /\ transport (snd (c s)) = transport s.
Proof. intros Ht Hp. split; [apply Ht | apply Hp]. Qed.

Ltac quiet := apply quiet_of; structural; frame_leaf.

Lemma fireTimer_stopped (fuel id : nat) (s : App) :
  isPlaying s = false ->
  exists s', fireTimer fuel id s = (Normal tt, s') /\ transport s' = transport s.
Proof.
  intros Hstop. unfold fireTimer. unfold bind at 1, gets at 1.
  destruct (find (fun t => Nat.eqb (timer_id t) id) (timers s)) as [tm|];
    [|exists s; split; reflexivity].
  unfold bind at 1, clearTimeout at 1, modify at 1.
  destruct (timer_cb tm) as [|step]; cbn [runCallback].
  - rewrite scheduler_stopped by exact Hstop.
    eexists. split; reflexivity.
  - unfold bind at 1, gets at 1. cbn [isPlaying set_timers]. rewrite Hstop.
    eexists. split; reflexivity.
Qed.

Lemma quiet_handlers (fuel : nat) (a : Action) (s : App) :
  startsTransport a = false ->
  isPlaying s = false ->
  fst (perform fuel a s) <> Diverge /\
  transport (snd (perform fuel a s)) = transport s.
Proof.
  intros Ha Hstop.
  destruct a; try discriminate; cbn [perform]; try (clear Ha Hstop; quiet).
  - (* the page is hidden *)
    unfold handleVisibilityHidden, bind, gets. rewrite Hstop.
    split; [discriminate | reflexivity].
  - (* a timer fires *)
    destruct (fireTimer_stopped fuel id s Hstop) as [s' [Hrun Ht]].
    rewrite Hrun. split; [discriminate | exact Ht].
  - (* stop *)
    rewrite (stopSequencer_stopped s Hstop). split; [discriminate | reflexivity].
Qed.

Lemma stopped_run (fuel : nat) (l : list Action) : forall s : App,
  forallb (fun a => negb (startsTransport a)) l = true ->
  isPlaying s = false ->
  exists s', run fuel l s = Some s' /\ transport s' = transport s.
Proof.
  induction l as [|a l IH]; intros s Hl Hstop.
  - exists s. split; reflexivity.
  - simpl in Hl. apply andb_true_iff in Hl. destruct Hl as [Ha Hl].
    apply negb_true_iff in Ha.
    destruct (quiet_handlers fuel a s Ha Hstop) as [Hd Ht].
    simpl. destruct (perform fuel a s) as [o s1]. simpl in Hd, Ht.
    assert (Hstop1 : isPlaying s1 = false).
    { unfold transport in Ht. injection Ht as Hp _. congruence. }
    destruct (IH s1 Hl Hstop1) as [s' [Hrun Ht']].
    exists s'. split.
    + destruct o; [exact Hrun | exact Hrun | congruence].
    + congruence.
Qed.

(** C7: (1) [stopSequencer] from Running returns with the transport Stopped,
    the heartbeat timer it held cancelled and its handle cleared, and commits
    nothing; (2) a heartbeat callback that runs while the transport is
    Stopped changes nothing: it commits no step and arms no timer; (3) from a
    Stopped state, whatever handlers run and whatever timers fire, as long as
    none of them starts the transport, every handler returns, the transport
    stays Stopped and the committed steps stay what they were; in particular
    (4) so after a stop. *)
Theorem no_commit_after_stop :
  (forall s : App,
     isPlaying s = true ->
     exists s',
       stopSequencer s = (Normal tt, s') /\
       transport s' = (false, commits (trace s)) /\
       (forall id, schedulerTimerId s = Some id -> id <> O ->
                   schedulerTimerId s' = None /\ notPending id s')) /\
  (forall (fuel : nat) (s : App),
     isPlaying s = false -> scheduler fuel s = (Normal tt, s)) /\
  (forall (fuel : nat) (l : list Action) (s : App),
     isPlaying s = false ->
     forallb (fun a => negb (startsTransport a)) l = true ->
     exists s', run fuel l s = Some s' /\ transport s' = (false, commits (trace s))) /\
  (forall (fuel : nat) (l : list Action) (s : App),
     isPlaying s = true ->
     forallb (fun a => negb (startsTransport a)) l = true ->
     exists s', run fuel (CallStop :: l) s = Some s' /\
                transport s' = (false, commits (trace s))).
Proof.
  split; [|split; [|split]].
  - intros s Hplay.
    destruct (stopSequencer_run s Hplay)
      as [s' [Hrun [Hp [_ [Ht [_ [_ [_ [_ Hid]]]]]]]]].
    exists s'. split; [exact Hrun|]. split; [|exact Hid].
    unfold transport. rewrite Hp, Ht. reflexivity.
  - intros fuel s Hstop. apply scheduler_stopped. exact Hstop.
  - intros fuel l s Hstop Hl.
    destruct (stopped_run fuel l s Hl Hstop) as [s' [Hrun Ht]].
    exists s'. split; [exact Hrun|].
    rewrite Ht. unfold transport. rewrite Hstop. reflexivity.
  - intros fuel l s Hplay Hl.
    destruct (stopSequencer_run s Hplay)
      as [s1 [Hrun1 [Hp1 [_ [Ht1 _]]]]].
    destruct (stopped_run fuel l s1 Hl Hp1) as [s' [Hrun Ht]].
    exists s'. split.
    + cbn [run perform]. rewrite Hrun1. exact Hrun.
    + rewrite Ht. unfold transport. rewrite Hp1, Ht1. reflexivity.
Qed.

Lemma no_commit_after_stop_witness :
  (exists s', stopSequencer playingState = (Normal tt, s') /\
              transport s' = (false, commits (trace playingState))) /\
  scheduler 5 audioReady = (Normal tt, audioReady) /\
  (exists s',
     run 5 [TimerFires 1; Slider 70; Hidden] audioReady = Some s' /\
     transport s' = (false, commits (trace audioReady))) /\
  (exists s',
     run 5 [CallStop; ClockMoves (clockAt 3); TimerFires 2; TimerFires 1; Slider 90;
            GridClick 0 0; TimerFires 2] playingState = Some s' /\
     transport s' = (false, commits (trace playingState))).
Proof.
  destruct no_commit_after_stop as [H1 [H2 [H3 H4]]].
  assert (Hplay : isPlaying playingState = true) by (vm_compute; reflexivity).
  assert (Hstop : isPlaying audioReady = false) by (vm_compute; reflexivity).
  split; [|split; [|split]].
  - destruct (H1 playingState Hplay) as [s' [Hrun [Ht _]]].
    exists s'. split; [exact Hrun | exact Ht].
  - apply (H2 5%nat audioReady Hstop).
  - apply (H3 5%nat _ audioReady Hstop). vm_compute. reflexivity.
  - apply (H4 5%nat _ playingState Hplay). vm_compute. reflexivity.
Defined.

(** ** The noise buffers *)

Lemma noiseGenerations_app (l1 l2 : list Event) :
  noiseGenerations (l1 ++ l2) = noiseGenerations l1 ++ noiseGenerations l2.
Proof.
  induction l1 as [|e l1 IH]; simpl; [reflexivity|].
  destruct e; simpl; rewrite IH; reflexivity.
Qed.

#[local] Instance audioStable_preorder : RelationClasses.PreOrder audioStable.
Proof.
  split.
  - intros s _. reflexivity.
  - intros s1 s2 s3 H12 H23 H1. unfold audioStable in *.
    rewrite <- (H12 H1). apply H23.
    specialize (H12 H1). unfold noiseState in H12.
    destruct (audioCtx s1); [|congruence].
    destruct (audioCtx s2); [discriminate | simpl in H12; discriminate].
Qed.

#[local] Instance keepsAudio_preorder : RelationClasses.PreOrder keepsAudio.
Proof.
  split.
  - intros s H. exact H.
  - intros s1 s2 s3 H12 H23 H1. apply H23, H12, H1.
Qed.

Ltac stable_leaf :=
  unfold audioStable, noiseState, mapCtx; intros _;
  match goal with
  | s : App |- _ => destruct s as [[?|] ? ? ? ? ? ? ? ? ? ? ? ? ?]
  end;
  simpl; try rewrite noiseGenerations_app; simpl; try rewrite app_nil_r; reflexivity.

Lemma initAudio_stable (rate : Q) : preserves audioStable (initAudio rate).
Proof.
  intros s H. unfold initAudio, bind, gets.
  destruct (audioCtx s); [reflexivity | congruence].
Qed.

#[local] Hint Resolve initAudio_stable : handlers.

Lemma perform_stable (fuel : nat) (a : Action) : preserves audioStable (perform fuel a).
Proof.
  destruct a; cbn [perform]; structural; try stable_leaf.
  all: unfold audioStable, noiseState, mapCtx; intros _;
    destruct s as [[?|] ? ? ? ? ? ? ? ? ? ? ? ? ?]; simpl;
    try destruct (_ <=? _)%float; reflexivity.
Qed.

Lemma readsFrom_oscillator (nb : NoiseBuffers) (v : Voice) w f sw :
  v_source v = Oscillator w f sw -> readsFrom nb v.
Proof. intros H b Hb. unfold noiseSource in Hb. rewrite H in Hb. destruct Hb. Qed.

Lemma readsFrom_pregenerated (v : Voice) (b : option BufferId) :
  v_source v = BufferSource b ->
  (b = Some 0 \/ b = Some 1 \/ b = Some 2)%nat ->
  readsFrom pregenerated v.
Proof.
  intros H Hb b' Hin. unfold noiseSource in Hin. rewrite H in Hin.
  destruct Hin as [<-|[]]. split.
  - destruct Hb as [->|[->| ->]]; discriminate.
  - exact Hb.
Qed.

Ltac voices_ok :=
  repeat first
    [ apply Forall_app; split
    | apply Forall_cons
    | apply Forall_nil
    | assumption
    | solve [eapply readsFrom_oscillator; reflexivity]
    | solve [eapply readsFrom_pregenerated; [reflexivity | auto]] ].

Lemma playSoundAtTime_keepsAudio (name : string) (time : float) :
  preserves keepsAudio (playSoundAtTime name time).
Proof.
  intros s. unfold keepsAudio, audioInv.
  destruct s as [[ctx|] pat cs ip tid b nst lss nb tm nt u tr rd];
    unfold playSoundAtTime; simpl.
  - intros [Hnb [Hgen [Hlen Hgraph]]]. subst nb.
    unfold playKick, playSnare, playHihat, playTom, playClap, playRim, atTime.
    repeat match goal with
    | |- context [if String.eqb ?a ?b then _ else _] => destruct (String.eqb a b)
    end; destruct (timeCheck time); simpl;
    (split; [reflexivity|]);
    (split; [rewrite noiseGenerations_app, Hgen; reflexivity|]);
    (split; [exact Hlen|]); voices_ok.
  - intros [Hnb Hgen]. split; [exact Hnb|].
    rewrite noiseGenerations_app, Hgen. reflexivity.
Qed.

Lemma createNoiseBuffer_run (duration : Q) (s : App) (ctx : AudioContext) :
  audioCtx s = Some ctx ->
  createNoiseBuffer duration s =
    (Normal (List.length (buffers ctx)),
     set_trace (trace s ++ [NoiseGenerated (List.length (buffers ctx))])
       (set_randomDraws (randomDraws s + loopCount (sampleRate ctx * duration))
          (set_audioCtx
             (Some (ctx_set_buffers
                      (buffers ctx ++
                       [{| buf_channels := 1;
                           buf_length := (sampleRate ctx * duration)%Q;
                           buf_rate := sampleRate ctx;
                           buf_first_draw := randomDraws s |}]) ctx)) s))).
Proof.
  intros H.
  unfold createNoiseBuffer, updateCtx.
  unfold bind at 1. unfold theAudioCtx at 1, bind at 1, gets at 1. rewrite H.
  unfold ret at 1. cbv iota beta.
  unfold bind at 1, gets at 1. cbv iota beta.
  unfold bind at 1. unfold bind at 1.
  unfold theAudioCtx at 1, bind at 1, gets at 1. rewrite H. unfold ret at 1.
  cbv iota beta. unfold modify at 1. cbv iota beta.
  unfold mapCtx. rewrite H.
  reflexivity.
Qed.

Lemma initAudio_run (rate : Q) (s : App) :
  audioCtx s = None ->
  exists s' ctx',
    initAudio rate s = (Normal tt, s') /\
    audioCtx s' = Some ctx' /\
    noiseBuffers s' = pregenerated /\
    noiseGenerations (trace s') = noiseGenerations (trace s) ++ [0; 1; 2]%nat /\
    map buf_length (buffers ctx') =
      [rate * (5 # 100); rate * (15 # 100); rate * (3 # 10)]%Q /\
    graph ctx' = [].
Proof.
  intros H.
  unfold initAudio. unfold bind at 1, gets at 1. rewrite H.
  unfold bind at 1, modify at 1.
  match goal with
  | |- context [generateNoiseBuffers (set_audioCtx (Some ?c) s)] =>
      set (ctx0 := c); set (s1 := set_audioCtx (Some ctx0) s)
  end.
  unfold generateNoiseBuffers.
  rewrite (run_bind _ _ _ _ _ (createNoiseBuffer_run _ s1 ctx0 eq_refl)).
  unfold bind at 1, modify at 1.
  match goal with
  | |- context [bind (createNoiseBuffer _) _ ?st] => set (s2 := st)
  end.
  rewrite (run_bind _ _ _ _ _ (createNoiseBuffer_run _ s2 _ eq_refl)).
  unfold bind at 1, modify at 1.
  match goal with
  | |- context [bind (createNoiseBuffer _) _ ?st] => set (s3 := st)
  end.
  rewrite (run_bind _ _ _ _ _ (createNoiseBuffer_run _ s3 _ eq_refl)).
  unfold modify.
  eexists. eexists. split; [reflexivity|].
  split; [reflexivity|].
  split; [reflexivity|].
  split; [|split; reflexivity].
  cbn [trace set_noiseBuffers set_trace set_randomDraws set_audioCtx s3 s2 s1].
  rewrite !noiseGenerations_app. cbn. rewrite <- !app_assoc. reflexivity.
Qed.

Lemma initAudio_again (rate : Q) (s : App) (ctx : AudioContext) :
  audioCtx s = Some ctx -> initAudio rate s = (Normal tt, s).
Proof. intros H. unfold initAudio, bind, gets. rewrite H. reflexivity. Qed.

Lemma initAudio_keepsAudio (rate : Q) : preserves keepsAudio (initAudio rate).
Proof.
  intros s Hinv. destruct (audioCtx s) as [ctx|] eqn:Hctx.
  - rewrite (initAudio_again rate s ctx Hctx). exact Hinv.
  - destruct (initAudio_run rate s Hctx)
      as [s' [ctx' [Hrun [Hctx' [Hnb [Hgen [Hlen Hgraph]]]]]]].
    rewrite Hrun. simpl. unfold audioInv in *. rewrite Hctx in Hinv.
    rewrite Hctx'. destruct Hinv as [_ Hgen0].
    split; [exact Hnb|]. split; [rewrite Hgen, Hgen0; reflexivity|].
    split.
    + rewrite <- (length_map buf_length), Hlen. reflexivity.
    + rewrite Hgraph. constructor.
Qed.

#[local] Hint Resolve playSoundAtTime_keepsAudio initAudio_keepsAudio : handlers.

Ltac keeps_leaf :=
  unfold keepsAudio, audioInv, mapCtx;
  match goal with
  | s : App |- _ => destruct s as [[?|] ? ? ? ? ? ? ? ? ? ? ? ? ?]
  end;
  simpl; try rewrite noiseGenerations_app; simpl; try rewrite app_nil_r;
  try destruct (_ <=? _)%float; intros H; exact H.

Lemma perform_keepsAudio (fuel : nat) (a : Action) :
  preserves keepsAudio (perform fuel a).
Proof.
  destruct a; cbn [perform]; structural; keeps_leaf.
Qed.

Lemma run_preserves (R : App -> App -> Prop) `{HR : RelationClasses.PreOrder App R}
  (fuel : nat) :
  (forall a, preserves R (perform fuel a)) ->
  forall (l : list Action) (s s' : App), run fuel l s = Some s' -> R s s'.
Proof.
  intros Hp l. induction l as [|a l IH]; intros s s' Hrun; simpl in Hrun.
  - injection Hrun as <-. reflexivity.
  - specialize (Hp a s).
    destruct (perform fuel a s) as [[[]| e |] s1]; simpl in Hp; try discriminate;
      (etransitivity; [exact Hp | apply IH; exact Hrun]).
Qed.

Lemma initial_audioInv : audioInv initial.
Proof. unfold audioInv. simpl. split; reflexivity. Qed.

Lemma skipn_app_exact {A : Type} (l1 l2 : list A) :
  skipn (List.length l1) (l1 ++ l2) = l2.
Proof. induction l1 as [|x l1 IH]; simpl; [reflexivity | exact IH]. Qed.

Lemma skipn_exact {A : Type} (l : list A) : skipn (List.length l) l = [].
Proof. induction l as [|x l IH]; simpl; [reflexivity | exact IH]. Qed.

Lemma noise_voices_read_noiseBuffers (time : float) (s : App) (ctx : AudioContext) :
  audioCtx s = Some ctx ->
  flat_map noiseSource (voicesAdded (playSnare time) s) =
    (if timeOk time then [long (noiseBuffers s)] else []) /\
  flat_map noiseSource (voicesAdded (playHihat time) s) =
    (if timeOk time then [medium (noiseBuffers s)] else []) /\
  flat_map noiseSource (voicesAdded (playClap time) s) =
    (if timeOk time
     then [short (noiseBuffers s); short (noiseBuffers s); short (noiseBuffers s);
           long (noiseBuffers s)]
     else []) /\
  flat_map noiseSource (voicesAdded (playKick time) s) = [] /\
  flat_map noiseSource (voicesAdded (playTom time) s) = [] /\
  flat_map noiseSource (voicesAdded (playRim time) s) = [].
Proof.
  intros H.
  destruct s as [ac pat cs ip tid b nst lss nb tm nt u tr rd].
  simpl in H. subst ac. unfold voicesAdded, exec, timeOk.
  unfold playKick, playSnare, playHihat, playTom, playClap, playRim, atTime.
  destruct (timeCheck time); simpl.
  - rewrite !skipn_exact. repeat split; reflexivity.
  - rewrite <- !app_assoc, !skipn_app_exact. simpl.
    repeat split; reflexivity.
Qed.

(** C8: (1) the first [initAudio] generates the three noise buffers, of
    0.05 s, 0.15 s and 0.3 s at the context's sample rate, once each, and
    stores them in [noiseBuffers]; (2) [initAudio] on an initialised context
    does nothing; (3) in every state the page can reach, either the audio
    output is not initialised and no buffer was generated, or exactly those
    three buffers exist and every noise voice of the graph plays one of them;
    (4) once the audio output is initialised, no handler and no timer ever
    changes the buffers, the references to them, or the record of
    generations; (5) at every trigger time that the sound bank accepts a
    snare voice plays the buffer [noiseBuffers.long], a hi-hat voice
    [noiseBuffers.medium], a clap three times [noiseBuffers.short] and then
    [noiseBuffers.long], at a time it refuses they add no voice at all, and
    kick, tom and rim play no buffer; (6) a trigger draws no random
    number. *)
Theorem noise_buffers_generated_once_and_reused :
  (forall (rate : Q) (s : App),
     audioCtx s = None ->
     exists s' ctx',
       initAudio rate s = (Normal tt, s') /\
       audioCtx s' = Some ctx' /\
       noiseBuffers s' = pregenerated /\
       noiseGenerations (trace s') = noiseGenerations (trace s) ++ [0; 1; 2]%nat /\
       map buf_length (buffers ctx') =
         [rate * (5 # 100); rate * (15 # 100); rate * (3 # 10)]%Q) /\
  (forall (rate : Q) (s : App) (ctx : AudioContext),
     audioCtx s = Some ctx -> initAudio rate s = (Normal tt, s)) /\
  (forall (fuel : nat) (l : list Action) (s' : App),
     run fuel l initial = Some s' -> audioInv s') /\
  (forall (fuel : nat) (l : list Action) (s s' : App),
     audioCtx s <> None ->
     run fuel l s = Some s' ->
     noiseState s' = noiseState s) /\
  (forall (time : float) (s : App) (ctx : AudioContext),
     audioCtx s = Some ctx ->
     flat_map noiseSource (voicesAdded (playSnare time) s) =
       (if timeOk time then [long (noiseBuffers s)] else []) /\
     flat_map noiseSource (voicesAdded (playHihat time) s) =
       (if timeOk time then [medium (noiseBuffers s)] else []) /\
     flat_map noiseSource (voicesAdded (playClap time) s) =
       (if timeOk time
        then [short (noiseBuffers s); short (noiseBuffers s); short (noiseBuffers s);
              long (noiseBuffers s)]
        else []) /\
     flat_map noiseSource (voicesAdded (playKick time) s) = [] /\
     flat_map noiseSource (voicesAdded (playTom time) s) = [] /\
     flat_map noiseSource (voicesAdded (playRim time) s) = []) /\
  (forall (name : string) (time : float) (s : App),
     randomDraws (exec (playSoundAtTime name time) s) = randomDraws s).
Proof.
  split; [|split; [|split; [|split; [|split]]]].
  - intros rate s H.
    destruct (initAudio_run rate s H) as [s' [ctx' [H1 [H2 [H3 [H4 [H5 _]]]]]]].
    exists s', ctx'. repeat (split; [assumption|]). exact H5.
  - apply initAudio_again.
  - intros fuel l s' Hrun.
    apply (run_preserves keepsAudio fuel (perform_keepsAudio fuel) l initial s' Hrun).
    exact initial_audioInv.
  - intros fuel l s s' Hctx Hrun.
    apply (run_preserves audioStable fuel (perform_stable fuel) l s s' Hrun). exact Hctx.
  - apply noise_voices_read_noiseBuffers.
  - intros name time s.
    change (unchanged randomDraws s (snd (playSoundAtTime name time s))).
    revert s. change (preserves (unchanged randomDraws) (playSoundAtTime name time)).
    structural;
      unfold unchanged, mapCtx;
      match goal with
      | s : App |- _ => destruct s as [[?|] ? ? ? ? ? ? ? ? ? ? ? ? ?]
      end; reflexivity.
Qed.

Lemma noise_buffers_generated_once_and_reused_witness :
  (exists s' ctx',
     initAudio 44100 initial = (Normal tt, s') /\
     audioCtx s' = Some ctx' /\ noiseBuffers s' = pregenerated) /\
  initAudio 48000 audioReady = (Normal tt, audioReady) /\
  (exists s',
     run 20 [PlayButton 44100; ClockMoves (clockAt 1); TimerFires 2; GridClick 1 3] initial = Some s' /\
     audioInv s') /\
  (exists s',
     run 20 [PlayButton 48000; GridClick 2 0; ClockMoves (clockAt 1); TimerFires 2] audioReady = Some s' /\
     noiseState s' = noiseState audioReady) /\
  flat_map noiseSource (voicesAdded (playSnare 1) audioReady) =
    [long (noiseBuffers audioReady)] /\
  flat_map noiseSource (voicesAdded (playClap 0.5) audioReady) = [Some 0; Some 0; Some 0; Some 2]%nat.
Proof.
  destruct noise_buffers_generated_once_and_reused as [H1 [H2 [H3 [H4 [H5 _]]]]].
  destruct audioReady_audioCtx as [ctx [Hctx _]].
  split; [|split; [|split; [|split; [|split]]]].
  - assert (Hnone : audioCtx initial = None) by (vm_compute; reflexivity).
    destruct (H1 44100%Q initial Hnone) as [s' [ctx' [Ha [Hb [Hc _]]]]].
    exists s', ctx'. repeat split; assumption.
  - apply (H2 48000%Q audioReady ctx Hctx).
  - assert (Hrun : exists s',
        run 20 [PlayButton 44100; ClockMoves (clockAt 1); TimerFires 2; GridClick 1 3] initial = Some s')
      by (eexists; vm_compute; reflexivity).
    destruct Hrun as [s' Hrun]. exists s'. split; [exact Hrun|].
    apply (H3 _ _ _ Hrun).
  - assert (Hrun : exists s',
        run 20 [PlayButton 48000; GridClick 2 0; ClockMoves (clockAt 1); TimerFires 2] audioReady = Some s')
      by (eexists; vm_compute; reflexivity).
    destruct Hrun as [s' Hrun]. exists s'. split; [exact Hrun|].
    assert (Hsome : audioCtx audioReady <> None) by (rewrite Hctx; discriminate).
    apply (H4 _ _ _ _ Hsome Hrun).
  - destruct (H5 1%float audioReady ctx Hctx) as [Hs _]. exact Hs.
  - destruct (H5 0.5%float audioReady ctx Hctx) as [_ [_ [Hc _]]].
    rewrite Hc. vm_compute. reflexivity.
Defined.

(** ** Starting before the audio output exists *)

(** [startSequencer] on a missing audio context does not always raise an
    error: the first call raises one after it has marked the transport as
    Running, and the second call, still without an audio context, returns
    at the guard for a Running transport without doing anything. *)
Lemma start_before_audio_can_return_silently :
  ~ (forall (l : list Action) (s : App),
       run 1 l initial = Some s ->
       audioCtx s = None ->
       exists e, fst (startSequencer 1 s) = Throw e).
Proof.
  intros H.
  destruct (H [CallStart] _ eq_refl eq_refl) as [e He].
  discriminate He.
Qed.

(** C3 (amended): calling [startSequencer] while the transport is Stopped,
    before the audio context has been initialized, fails fast with an
    explicit error: it throws a [TypeError], at the read of the context's
    clock, before any step is committed or any heartbeat armed, and the
    audio context is still missing; it does not silently no-op. *)
Theorem start_from_stopped_before_audio_throws (fuel : nat) (s : App) :
  isPlaying s = false ->
  audioCtx s = None ->
  fst (startSequencer fuel s) = Throw TypeError /\
  trace (snd (startSequencer fuel s)) = trace s /\
  timers (snd (startSequencer fuel s)) = timers s /\
  schedulerTimerId (snd (startSequencer fuel s)) = schedulerTimerId s /\
  audioCtx (snd (startSequencer fuel s)) = None.
Proof.
  intros Hstop Hctx.
  rewrite (startSequencer_no_audio fuel s Hstop Hctx). simpl.
  repeat split; try reflexivity. exact Hctx.
Qed.

Lemma start_from_stopped_before_audio_throws_witness :
  fst (startSequencer 3 initial) = Throw TypeError /\
  trace (snd (startSequencer 3 initial)) = trace initial /\
  timers (snd (startSequencer 3 initial)) = timers initial /\
  schedulerTimerId (snd (startSequencer 3 initial)) = schedulerTimerId initial /\
  audioCtx (snd (startSequencer 3 initial)) = None.
Proof.
  apply (start_from_stopped_before_audio_throws 3 initial); reflexivity.
Defined.

(** ** Loading saved state *)

Lemma loadPattern_keeps_tempo_in_range (item : StorageItem) :
  preserves (fun s s' => 60 <= bpm s <= 180 -> 60 <= bpm s' <= 180) (loadPattern item).
Proof.
  assert (HR : RelationClasses.PreOrder
                 (fun s s' : App => 60 <= bpm s <= 180 -> 60 <= bpm s' <= 180)).
  { split; [intros s H; exact H | intros s1 s2 s3 H12 H23 H; apply H23, H12, H]. }
  structural; simpl; try (intros H; exact H).
  intros _. unfold clamp, CONFIG.minBpm, CONFIG.maxBpm. lia.
Qed.

(** C4: at page load, [init] makes a saved tempo of 300 the live tempo as it
    is, and a saved tempo of -120 likewise; the Load button, through
    [setBpm], stores 180 and 60 for the same saved state. *)
Theorem init_restores_tempo_unclamped :
  bpm (exec (init (Item createEmptyPattern (Some 300))) initial) = 300 /\
  bpm (exec (init (Item createEmptyPattern (Some (-120)))) initial) = -120 /\
  bpm (exec (loadPattern (Item createEmptyPattern (Some 300))) initial) = 180 /\
  bpm (exec (loadPattern (Item createEmptyPattern (Some (-120)))) initial) = 60.
Proof. repeat split. Qed.

(** C5: at page load, [init] installs a saved pattern of one row and one
    column as the live pattern, and the first heartbeat then throws; the Load
    button rejects that pattern but installs one of six rows of which only
    the first has sixteen cells, and reports it as loaded. *)
Theorem malformed_patterns_are_installed :
  wellDimensioned tinyPattern = false /\
  pattern (exec (init (Item tinyPattern None)) initial) = tinyPattern /\
  fst (perform 1 (PlayButton 44100) (exec (init (Item tinyPattern None)) initial))
    = Throw TypeError /\
  pattern (exec (loadPattern (Item tinyPattern None)) initial) = createEmptyPattern /\
  wellDimensioned raggedPattern = false /\
  pattern (exec (loadPattern (Item raggedPattern None)) initial) = raggedPattern /\
  toasts (ui (exec (loadPattern (Item raggedPattern None)) initial)) = ["Pattern loaded"].
Proof. repeat split. Qed.

(** * Further properties of the code *)

(** ** The grid display *)

Lemma readCell_cases (row step : Z) (s : App) :
  (rowReadable (pattern s) row = true /\
   exists cell, readCell row step s = (Normal cell, s)) \/
  (rowReadable (pattern s) row = false /\
   readCell row step s = (Throw TypeError, s)).
Proof.
  unfold rowReadable, readCell, bind, gets, lift.
  destruct (get_index (pattern s) row) as [e|r] eqn:Hr.
  - right. split; [reflexivity|].
    destruct (pattern s); simpl in Hr; try discriminate;
      injection Hr as <-; reflexivity.
  - destruct r; simpl;
      first [ left; split; [reflexivity|]; eexists; reflexivity
            | right; split; reflexivity ].
Qed.

Lemma cells_cases (row : Z) (steps : list Z) : forall s : App,
  for_each steps (fun step => _ <- readCell row step ;; ret tt) s =
    ((if rowReadable (pattern s) row then Normal tt
      else match steps with [] => Normal tt | _ => Throw TypeError end), s).
Proof.
  induction steps as [|step steps IH]; intros s; simpl.
  - destruct (rowReadable (pattern s) row); reflexivity.
  - unfold bind at 1.
    destruct (readCell_cases row step s) as [[Hr [cell Hc]]|[Hr Hc]].
    + unfold bind at 1. rewrite Hc. unfold ret at 1. rewrite IH, Hr.
      destruct steps; reflexivity.
    + unfold bind at 1. rewrite Hc, Hr. reflexivity.
Qed.

Lemma grid_cases (rows : list Z) : forall s : App,
  for_each rows (fun row =>
    for_each (range CONFIG.steps) (fun step => _ <- readCell row step ;; ret tt)) s =
    ((if forallb (rowReadable (pattern s)) rows then Normal tt else Throw TypeError), s).
Proof.
  induction rows as [|row rows IH]; intros s; cbn [for_each forallb]; [reflexivity|].
  unfold bind at 1. rewrite cells_cases.
  destruct (rowReadable (pattern s) row); cbn [andb].
  - apply IH.
  - reflexivity.
Qed.

(** [updateGridDisplay] writes nothing of the state; it throws when a row of
    the pattern is [undefined] or [null], and only then. *)
Lemma updateGridDisplay_cases (s : App) :
  updateGridDisplay s =
    ((if rowsReadable (pattern s) then Normal tt else Throw TypeError), s).
Proof. unfold updateGridDisplay, rowsReadable. apply grid_cases. Qed.

Lemma updateGridDisplay_run (s : App) :
  rowsReadable (pattern s) = true -> updateGridDisplay s = (Normal tt, s).
Proof. intros H. rewrite updateGridDisplay_cases, H. reflexivity. Qed.

Lemma updateCellDisplay_cases (row step : Z) (s : App) :
  updateCellDisplay row step s =
    ((if hasCell row step && negb (rowReadable (pattern s) row)
      then Throw TypeError else Normal tt), s).
Proof.
  unfold updateCellDisplay, when.
  destruct (hasCell row step); simpl; [|reflexivity].
  unfold bind. destruct (readCell_cases row step s) as [[Hr [cell Hc]]|[Hr Hc]];
    rewrite Hc, Hr; reflexivity.
Qed.

(** ** Loading and saving *)

Lemma set_pattern_same (s : App) : set_pattern (pattern s) s = s.
Proof. destruct s; reflexivity. Qed.

(** Case analysis along the tests of a handler, after its monadic
    operations have been unfolded. *)
Ltac cases_of_handler :=
  repeat (cbn -[Z.eqb Z.of_nat nth Z.to_nat showToast setBpm updateUI updateGridDisplay];
          unfold ret;
          match goal with
          | |- context [updateGridDisplay ?s] =>
              rewrite (updateGridDisplay_cases s)
          | |- context [if ?c then _ else _] => destruct c eqn:?
          | |- context [match get_length ?r with _ => _ end] =>
              destruct (get_length r) eqn:?
          | |- context [match ?b with Some _ => _ | None => _ end] => destruct b eqn:?
          end).

(** X1: [loadPattern] catches every error: whatever the storage holds or
    refuses, it returns normally and shows exactly one toast.  With "No
    saved pattern found" or "Invalid saved pattern" the toast is the only
    change; with "Could not load pattern" the live pattern may have been
    replaced already, the toast apart nothing else has changed.  The saved
    pattern [brokenPattern] passes the validation, is installed and is then
    reported as "Could not load pattern"; the next press of Play throws. *)
Theorem loadPattern_returns_and_reports :
  (forall (item : StorageItem) (s : App),
     fst (loadPattern item s) = Normal tt /\
     exists msg,
       In msg ["No saved pattern found"; "Could not load pattern";
               "Invalid saved pattern"; "Pattern loaded"] /\
       toasts (ui (snd (loadPattern item s))) = toasts (ui s) ++ [msg] /\
       (msg = "No saved pattern found" \/ msg = "Invalid saved pattern" ->
        snd (loadPattern item s) =
          set_ui (ui_set_toasts (toasts (ui s) ++ [msg]) (ui s)) s) /\
       (msg = "Could not load pattern" ->
        exists p,
          snd (loadPattern item s) =
            set_ui (ui_set_toasts (toasts (ui s) ++ [msg]) (ui s)) (set_pattern p s))) /\
  toasts (ui (exec (loadPattern (Item brokenPattern None)) initial)) =
    ["Could not load pattern"] /\
  pattern (exec (loadPattern (Item brokenPattern None)) initial) = brokenPattern /\
  fst (perform 1 (PlayButton 44100) (exec (loadPattern (Item brokenPattern None)) initial))
    = Throw TypeError.
Proof.
  split; [|split; [|split]]; try (vm_compute; reflexivity).
  intros item s.
  destruct item as [| |p b|];
    unfold loadPattern, try_catch, bind, ret, lift, throw, modify, gets, when;
    [| |destruct p; cbn [isArray]|]; cases_of_handler;
    (split; [reflexivity|]);
    (eexists; split; [|split; [reflexivity|split]]);
    first [ solve [simpl; tauto]
          | intros [Hmsg|Hmsg]; first [reflexivity | discriminate Hmsg]
          | intros Hmsg; first [discriminate Hmsg
                               | exists (pattern s); rewrite set_pattern_same; reflexivity
                               | eexists; reflexivity ] ].
Qed.

Lemma wellDimensioned_inv (p : value) :
  wellDimensioned p = true ->
  exists rows,
    p = VArr rows /\ List.length rows = 6%nat /\
    Forall (fun r => exists cells, r = VArr cells /\ List.length cells = 16%nat) rows.
Proof.
  destruct p as [| |pb|pn|ps|rows|props]; try discriminate.
  unfold wellDimensioned. intros H. apply andb_true_iff in H. destruct H as [Hlen Hrows].
  exists rows. split; [reflexivity|]. split.
  - apply Nat.eqb_eq in Hlen. exact Hlen.
  - apply Forall_forall. intros r Hin.
    rewrite forallb_forall in Hrows. specialize (Hrows r Hin).
    destruct r as [| |rb|rn|rs|cells|rprops]; try discriminate.
    exists cells. split; [reflexivity|]. apply Nat.eqb_eq in Hrows. exact Hrows.
Qed.

Lemma wellDimensioned_row (p : value) (row : Z) :
  wellDimensioned p = true -> 0 <= row < CONFIG.rows ->
  exists cells, get_index p row = inr (VArr cells) /\ List.length cells = 16%nat.
Proof.
  intros H Hrow. destruct (wellDimensioned_inv p H) as [rows [-> [Hlen Hall]]].
  unfold CONFIG.rows in Hrow. simpl. unfold element.
  destruct (Z.ltb_spec row 0) as [Hneg|_]; [lia|].
  rewrite Forall_forall in Hall.
  destruct (Hall (nth (Z.to_nat row) rows VUndefined)) as [cells [Hc Hl]].
  { apply nth_In. lia. }
  exists cells. rewrite Hc. split; [reflexivity | exact Hl].
Qed.

Lemma wellDimensioned_rowsReadable (p : value) :
  wellDimensioned p = true -> rowsReadable p = true.
Proof.
  intros H. unfold rowsReadable. apply forallb_forall. intros row Hin.
  apply in_range in Hin.
  destruct (wellDimensioned_row p row H Hin) as [cells [Hc _]].
  unfold rowReadable. rewrite Hc. reflexivity.
Qed.

Lemma loadPattern_valid_run (p : value) (b : option Z) (s : App) :
  wellDimensioned p = true ->
  fst (loadPattern (Item p b) s) = Normal tt /\
  pattern (snd (loadPattern (Item p b) s)) = p /\
  bpm (snd (loadPattern (Item p b) s)) =
    match b with
    | Some n => if n =? 0 then bpm s else clamp 60 180 n
    | None => bpm s
    end /\
  toasts (ui (snd (loadPattern (Item p b) s))) = toasts (ui s) ++ ["Pattern loaded"] /\
  transport (snd (loadPattern (Item p b) s)) = transport s /\
  position (snd (loadPattern (Item p b) s)) = position s /\
  rowsReadable p = true.
Proof.
  intros H.
  pose proof (wellDimensioned_rowsReadable p H) as Hread.
  destruct (wellDimensioned_inv p H) as [rows [-> [Hlen Hall]]].
  destruct (wellDimensioned_row (VArr rows) 0 H) as [cells [Hrow0 Hcells]];
    [unfold CONFIG.rows; lia|].
  unfold get_index in Hrow0. injection Hrow0 as Hrow0.
  unfold element in Hrow0. simpl in Hrow0.
  unfold loadPattern, try_catch, bind, ret, lift, throw, modify, gets, when.
  cbn -[Z.eqb Z.of_nat nth Z.to_nat showToast setBpm updateUI updateGridDisplay].
  change (Z.to_nat 0) with 0%nat. rewrite Hlen, Hrow0.
  cbn -[Z.eqb Z.of_nat nth Z.to_nat showToast setBpm updateUI updateGridDisplay].
  rewrite Hcells.
  cbn -[Z.eqb Z.of_nat nth Z.to_nat showToast setBpm updateUI updateGridDisplay].
  change (Z.of_nat 6 =? CONFIG.rows) with true.
  change (Z.of_nat 16 =? CONFIG.steps) with true.
  cbn beta iota.
  rewrite updateGridDisplay_run by exact Hread.
  destruct b as [n|]; [destruct (n =? 0)|]; repeat split; assumption.
Qed.

(** X2: a saved pattern of exactly 6 rows of 16 cells passes the validation
    of [loadPattern]: it becomes the live pattern and the grid display is
    refreshed from it without an error, a saved tempo that is an integer
    other than 0 becomes the live tempo clamped to [60,180], the toast is
    "Pattern loaded", and the transport (Running or Stopped, position,
    committed steps) is not touched; the scheduler can read every row of the
    new pattern. *)
Theorem loadPattern_accepts_well_dimensioned (p : value) (b : option Z) (s : App) :
  wellDimensioned p = true ->
  fst (loadPattern (Item p b) s) = Normal tt /\
  pattern (snd (loadPattern (Item p b) s)) = p /\
  bpm (snd (loadPattern (Item p b) s)) =
    match b with
    | Some n => if n =? 0 then bpm s else clamp 60 180 n
    | None => bpm s
    end /\
  toasts (ui (snd (loadPattern (Item p b) s))) = toasts (ui s) ++ ["Pattern loaded"] /\
  transport (snd (loadPattern (Item p b) s)) = transport s /\
  position (snd (loadPattern (Item p b) s)) = position s /\
  rowsReadable p = true.
Proof. apply loadPattern_valid_run. Qed.

Lemma loadPattern_accepts_well_dimensioned_witness :
  pattern (snd (loadPattern (Item createEmptyPattern (Some 300)) playingState))
    = createEmptyPattern /\
  bpm (snd (loadPattern (Item createEmptyPattern (Some 300)) playingState)) = 180.
Proof.
  destruct (loadPattern_accepts_well_dimensioned createEmptyPattern (Some 300)
              playingState) as [_ [Hp [Hb _]]].
  - vm_compute. reflexivity.
  - split; [exact Hp | exact Hb].
Defined.

Lemma booleanRow_roundTrip (r : value) :
  booleanRow r = true -> jsonRoundTrip r = r /\ r <> VUndefined.
Proof.
  destruct r as [| |rb|rn|rs|cells|rprops]; try discriminate.
  unfold booleanRow. intros H. apply andb_true_iff in H. destruct H as [_ H].
  split; [|discriminate].
  cbn [jsonRoundTrip]. f_equal.
  induction cells as [|c cells IH]; [reflexivity|].
  simpl in H. apply andb_true_iff in H. destruct H as [Hc H].
  cbn [map]. rewrite (IH H).
  destruct c; try discriminate. reflexivity.
Qed.

Lemma booleanGrid_roundTrip (p : value) :
  booleanGrid p = true -> jsonRoundTrip p = p.
Proof.
  destruct p as [| |pb|pn|ps|rows|props]; try discriminate.
  unfold booleanGrid. intros H. apply andb_true_iff in H. destruct H as [_ H].
  cbn [jsonRoundTrip]. f_equal.
  induction rows as [|r rows IH]; [reflexivity|].
  simpl in H. apply andb_true_iff in H. destruct H as [Hr H].
  cbn [map]. rewrite (IH H).
  destruct (booleanRow_roundTrip r Hr) as [Hrt Hne].
  destruct r; try congruence.
Qed.

Lemma booleanGrid_wellDimensioned (p : value) :
  booleanGrid p = true -> wellDimensioned p = true.
Proof.
  destruct p as [| |pb|pn|ps|rows|props]; try discriminate.
  unfold booleanGrid, wellDimensioned. intros H.
  apply andb_true_iff in H. destruct H as [Hlen H].
  apply andb_true_iff. split; [exact Hlen|].
  apply forallb_forall. intros r Hin.
  rewrite forallb_forall in H. specialize (H r Hin).
  destruct r; try discriminate.
  unfold booleanRow in H. apply andb_true_iff in H. apply H.
Qed.


Lemma lastStored_snoc (tr : list Event) (item : StorageItem) :
  lastStored (tr ++ [Stored item]) = item.
Proof.
  unfold lastStored, storedItems. rewrite flat_map_app. simpl.
  apply last_last.
Qed.

Lemma init_valid_run (p : value) (n : Z) (s : App) :
  wellDimensioned p = true -> n <> 0 ->
  fst (init (Item p (Some n)) s) = Normal tt /\
  pattern (snd (init (Item p (Some n)) s)) = p /\
  bpm (snd (init (Item p (Some n)) s)) = n.
Proof.
  intros Hdim Hn.
  pose proof (wellDimensioned_rowsReadable p Hdim) as Hread.
  destruct (wellDimensioned_inv _ Hdim) as [rows [-> _]].
  unfold init, try_catch, bind, when, modify, gets, ret, updateUI.
  cbn [truthy]. rewrite updateGridDisplay_run by exact Hread.
  destruct (Z.eqb_spec n 0) as [H0|_]; [contradiction|].
  repeat split.
Qed.

(** X3: save then load is a round trip.  In a state whose pattern is a 6 by
    16 grid of booleans and whose tempo is in [60,180], [savePattern], when
    the storage accepts the item, returns normally, shows "Pattern saved" and
    changes nothing else of the state; the item it has put under the storage
    key holds that pattern and that tempo, and loading it in any later state,
    with the Load button or at page load, makes both live again.  When the
    storage refuses the item, [savePattern] still returns normally, shows
    "Could not save pattern" and writes nothing. *)
Theorem save_then_load_restores (s later : App) :
  booleanGrid (pattern s) = true ->
  60 <= bpm s <= 180 ->
  (fst (savePattern true s) = Normal tt /\
   snd (savePattern true s) =
     set_ui (ui_set_toasts (toasts (ui s) ++ ["Pattern saved"]) (ui s))
       (set_trace (trace s ++ [Stored (Item (pattern s) (Some (bpm s)))]) s)) /\
  (fst (savePattern false s) = Normal tt /\
   snd (savePattern false s) =
     set_ui (ui_set_toasts (toasts (ui s) ++ ["Could not save pattern"]) (ui s)) s /\
   lastStored (trace (snd (savePattern false s))) = lastStored (trace s)) /\
  lastStored (trace (snd (savePattern true s))) = Item (pattern s) (Some (bpm s)) /\
  pattern (snd (loadPattern (lastStored (trace (snd (savePattern true s)))) later))
    = pattern s /\
  bpm (snd (loadPattern (lastStored (trace (snd (savePattern true s)))) later)) = bpm s /\
  pattern (snd (init (lastStored (trace (snd (savePattern true s)))) later)) = pattern s /\
  bpm (snd (init (lastStored (trace (snd (savePattern true s)))) later)) = bpm s.
Proof.
  intros Hgrid Hbpm.
  assert (Hsave : savePattern true s =
            (Normal tt,
             set_ui (ui_set_toasts (toasts (ui s) ++ ["Pattern saved"]) (ui s))
               (set_trace (trace s ++ [Stored (Item (pattern s) (Some (bpm s)))]) s))).
  { unfold savePattern, try_catch, bind, gets, log, modify, showToast, updateUI.
    rewrite (booleanGrid_roundTrip _ Hgrid). reflexivity. }
  assert (Hlast : lastStored (trace (snd (savePattern true s))) =
                  Item (pattern s) (Some (bpm s))).
  { rewrite Hsave. cbn [snd]. destruct s; simpl. apply lastStored_snoc. }
  rewrite Hlast.
  pose proof (booleanGrid_wellDimensioned _ Hgrid) as Hdim.
  destruct (loadPattern_valid_run (pattern s) (Some (bpm s)) later Hdim)
    as [_ [Hp [Hb _]]].
  destruct (init_valid_run (pattern s) (bpm s) later Hdim) as [_ [Hp' Hb']]; [lia|].
  split; [rewrite Hsave; split; reflexivity|].
  split; [repeat split|].
  split; [reflexivity|].
  split; [exact Hp|]. split; [|split; [exact Hp' | exact Hb']].
  rewrite Hb. destruct (Z.eqb_spec (bpm s) 0) as [H0|_]; [lia|].
  unfold clamp. lia.
Qed.

Lemma save_then_load_restores_witness :
  lastStored (trace (snd (savePattern true beatReady))) =
    Item (pattern beatReady) (Some 120) /\
  pattern (snd (loadPattern (lastStored (trace (snd (savePattern true beatReady)))) initial))
    = pattern beatReady /\
  bpm (snd (init (lastStored (trace (snd (savePattern true beatReady)))) initial)) = 120.
Proof.
  destruct (save_then_load_restores beatReady initial)
    as [_ [_ [Hl [Hp [_ [_ Hb]]]]]].
  - vm_compute. reflexivity.
  - vm_compute. split; discriminate.
  - split; [exact Hl|]. split; [exact Hp | exact Hb].
Defined.
(** ** Editing the pattern *)

Lemma array_put_length (n : nat) (x : value) (l : list value) :
  (n < List.length l)%nat -> List.length (array_put n x l) = List.length l.
Proof.
  revert l. induction n as [|n IH]; intros [|y l] H; simpl in *; try lia.
  rewrite IH; lia.
Qed.

Lemma nth_array_put_same (n : nat) (x : value) (l : list value) :
  nth n (array_put n x l) VUndefined = x.
Proof.
  revert l. induction n as [|n IH]; intros [|y l]; simpl; try reflexivity; apply IH.
Qed.

Lemma nth_array_put_other (m n : nat) (x : value) (l : list value) :
  m <> n -> nth m (array_put n x l) VUndefined = nth m l VUndefined.
Proof.
  revert m l. induction n as [|n IH]; intros [|m] [|y l] H; simpl;
    try reflexivity; try congruence.
  - destruct m; reflexivity.
  - rewrite IH by congruence. destruct m; reflexivity.
  - apply IH. congruence.
Qed.

Lemma array_put_put (n : nat) (x y : value) (l : list value) :
  array_put n y (array_put n x l) = array_put n y l.
Proof.
  revert l. induction n as [|n IH]; intros [|z l]; simpl; try reflexivity;
    rewrite IH; reflexivity.
Qed.

Lemma array_put_nth (n : nat) (l : list value) :
  (n < List.length l)%nat -> array_put n (nth n l VUndefined) l = l.
Proof.
  revert l. induction n as [|n IH]; intros [|y l] H; simpl in *; try lia.
  - reflexivity.
  - rewrite IH by lia. reflexivity.
Qed.

Lemma forallb_array_put (f : value -> bool) (n : nat) (x : value) (l : list value) :
  (n < List.length l)%nat -> f x = true -> forallb f l = true ->
  forallb f (array_put n x l) = true.
Proof.
  revert l. induction n as [|n IH]; intros [|y l] H Hx Hl; simpl in *; try lia.
  - apply andb_true_iff in Hl. rewrite Hx. apply Hl.
  - apply andb_true_iff in Hl. destruct Hl as [Hy Hl].
    rewrite Hy. apply IH; try assumption. lia.
Qed.

Lemma booleanGrid_inv (p : value) :
  booleanGrid p = true ->
  exists rows, p = VArr rows /\ List.length rows = 6%nat /\
               forallb booleanRow rows = true.
Proof.
  destruct p as [| |pb|pn|ps|rows|props]; try discriminate.
  unfold booleanGrid. intros H. apply andb_true_iff in H. destruct H as [Hlen H].
  exists rows. split; [reflexivity|]. split; [|exact H].
  apply Nat.eqb_eq in Hlen. exact Hlen.
Qed.

Lemma booleanRow_inv (r : value) :
  booleanRow r = true ->
  exists cells, r = VArr cells /\ List.length cells = 16%nat /\
    forallb (fun c => match c with VBool _ => true | _ => false end) cells = true.
Proof.
  destruct r as [| |rb|rn|rs|cells|rprops]; try discriminate.
  unfold booleanRow. intros H. apply andb_true_iff in H. destruct H as [Hlen H].
  exists cells. split; [reflexivity|]. split; [|exact H].
  apply Nat.eqb_eq in Hlen. exact Hlen.
Qed.

Lemma forallb_nth (f : value -> bool) (l : list value) (n : nat) :
  forallb f l = true -> (n < List.length l)%nat -> f (nth n l VUndefined) = true.
Proof.
  intros H Hn. rewrite forallb_forall in H. apply H. apply nth_In. exact Hn.
Qed.

(** The grid after the cell ([row], [step]) of a boolean grid is negated. *)
Lemma toggleCell_run (row step : Z) (s : App) :
  booleanGrid (pattern s) = true ->
  0 <= row < CONFIG.rows -> 0 <= step < CONFIG.steps ->
  exists rows cells b,
    pattern s = VArr rows /\
    nth (Z.to_nat row) rows VUndefined = VArr cells /\
    nth (Z.to_nat step) cells VUndefined = VBool b /\
    (Z.to_nat row < List.length rows)%nat /\
    (Z.to_nat step < List.length cells)%nat /\
    booleanRow (VArr cells) = true /\
    toggleCell row step s =
      (Normal tt,
       set_pattern
         (VArr (array_put (Z.to_nat row)
                  (VArr (array_put (Z.to_nat step) (VBool (negb b)) cells)) rows)) s).
Proof.
  intros Hgrid Hrow Hstep. unfold CONFIG.rows, CONFIG.steps in *.
  destruct (booleanGrid_inv _ Hgrid) as [rows [Hp [Hlen Hrows]]].
  assert (Hr : (Z.to_nat row < List.length rows)%nat) by lia.
  pose proof (forallb_nth _ _ _ Hrows Hr) as Hrow_ok.
  destruct (booleanRow_inv _ Hrow_ok) as [cells [Hcells [Hclen Hbools]]].
  assert (Hc : (Z.to_nat step < List.length cells)%nat) by lia.
  pose proof (forallb_nth _ _ _ Hbools Hc) as Hcell.
  destruct (nth (Z.to_nat step) cells VUndefined) as [| |b| | | |] eqn:Hb;
    try discriminate.
  exists rows, cells, b.
  split; [exact Hp|]. split; [exact Hcells|]. split; [exact Hb|].
  split; [exact Hr|]. split; [exact Hc|].
  split; [rewrite <- Hcells; exact Hrow_ok|].
  unfold toggleCell, bind, gets, lift, ret, modify.
  rewrite Hp. cbn [get_index set_index].
  rewrite (element_nth row rows) by lia. rewrite Hcells.
  cbn [get_index set_index].
  rewrite (element_nth step cells) by lia. rewrite Hb.
  destruct (Z.ltb_spec step 0) as [Hneg|_]; [lia|].
  destruct (Z.ltb_spec row 0) as [Hneg|_]; [lia|].
  cbn [truthy]. rewrite updateCellDisplay_cases.
  replace (rowReadable _ row) with true; [rewrite andb_false_r; reflexivity|].
  unfold rowReadable. cbn [pattern set_pattern get_index].
  rewrite (element_nth row) by lia.
  rewrite nth_array_put_same by exact Hr. reflexivity.
Qed.

Lemma toggled_booleanGrid (rows cells : list value) (row step : nat) (b : bool) :
  List.length rows = 6%nat -> forallb booleanRow rows = true ->
  (row < List.length rows)%nat -> (step < List.length cells)%nat ->
  booleanRow (VArr cells) = true ->
  booleanGrid (VArr (array_put row (VArr (array_put step (VBool b) cells)) rows)) = true.
Proof.
  intros Hlen Hrows Hr Hc Hcells.
  unfold booleanGrid. apply andb_true_iff. split.
  - rewrite array_put_length by exact Hr. rewrite Hlen. reflexivity.
  - apply forallb_array_put; try assumption.
    unfold booleanRow in *. apply andb_true_iff in Hcells.
    destruct Hcells as [Hl Hb]. apply andb_true_iff. split.
    + rewrite array_put_length by exact Hc. exact Hl.
    + apply forallb_array_put; try assumption. reflexivity.
Qed.

(** X4: on a 6 by 16 grid of booleans, toggling a cell inside the grid
    returns normally, changes nothing but the pattern, keeps the pattern a
    6 by 16 grid of booleans, negates the toggled cell and leaves every other
    cell as it was; toggling the same cell again restores the pattern. *)
Theorem toggleCell_flips_one_cell (row step : Z) (s : App) :
  booleanGrid (pattern s) = true ->
  0 <= row < 6 -> 0 <= step < 16 ->
  fst (toggleCell row step s) = Normal tt /\
  snd (toggleCell row step s) = set_pattern (pattern (snd (toggleCell row step s))) s /\
  booleanGrid (pattern (snd (toggleCell row step s))) = true /\
  (forall r c, 0 <= r -> 0 <= c ->
     cellActive (pattern (snd (toggleCell row step s))) r c =
       if (r =? row) && (c =? step)
       then negb (cellActive (pattern s) r c)
       else cellActive (pattern s) r c) /\
  pattern (snd (toggleCell row step (snd (toggleCell row step s)))) = pattern s.
Proof.
  intros Hgrid Hrow Hstep.
  destruct (toggleCell_run row step s Hgrid Hrow Hstep)
    as [rows [cells [b [Hp [Hcells [Hb [Hr [Hc [Hrow_ok Hrun]]]]]]]]].
  destruct (booleanGrid_inv _ Hgrid) as [rows0 [Hp0 [Hlen Hrows]]].
  rewrite Hp in Hp0. injection Hp0 as <-.
  rewrite Hrun. cbn [fst snd pattern set_pattern].
  split; [reflexivity|]. split; [reflexivity|].
  assert (Hgrid' : booleanGrid
            (VArr (array_put (Z.to_nat row)
                     (VArr (array_put (Z.to_nat step) (VBool (negb b)) cells)) rows)) = true)
    by (apply toggled_booleanGrid; assumption).
  split; [exact Hgrid'|]. split.
  - intros r c Hr0 Hc0. rewrite Hp. unfold cellActive. cbn [get_index].
    rewrite !(element_nth r) by lia.
    destruct (Z.eqb_spec r row) as [->|Hne].
    + rewrite nth_array_put_same, Hcells. cbn [get_index andb].
      rewrite !(element_nth c) by lia.
      destruct (Z.eqb_spec c step) as [->|Hnc].
      * rewrite nth_array_put_same, Hb. reflexivity.
      * rewrite nth_array_put_other by lia. reflexivity.
    + rewrite nth_array_put_other by lia. reflexivity.
  - match goal with
    | |- context [toggleCell row step ?st] => set (s' := st)
    end.
    destruct (toggleCell_run row step s' Hgrid' Hrow Hstep)
      as [rows2 [cells2 [b2 [Hp2 [Hcells2 [Hb2 [_ [_ [_ Hrun2]]]]]]]]].
    rewrite Hrun2. cbn [snd pattern set_pattern].
    unfold s' in Hp2. cbn [pattern set_pattern] in Hp2. injection Hp2 as <-.
    rewrite nth_array_put_same in Hcells2. injection Hcells2 as <-.
    rewrite nth_array_put_same in Hb2. injection Hb2 as <-.
    rewrite negb_involutive, !array_put_put.
    rewrite <- Hb, array_put_nth by exact Hc.
    rewrite <- Hcells, array_put_nth by exact Hr.
    symmetry. exact Hp.
Qed.

Lemma toggleCell_flips_one_cell_witness :
  cellActive (pattern (snd (toggleCell 2 5 initial))) 2 5 = true /\
  pattern (snd (toggleCell 2 5 (snd (toggleCell 2 5 initial)))) = pattern initial.
Proof.
  destruct (toggleCell_flips_one_cell 2 5 initial) as [_ [_ [_ [Hcell Hback]]]].
  - vm_compute. reflexivity.
  - lia.
  - lia.
  - split; [|exact Hback].
    rewrite (Hcell 2 5) by lia. vm_compute. reflexivity.
Defined.












(** ** The sound bank *)

Ltac envelopes :=
  repeat first
    [ apply Forall_nil
    | apply Forall_cons
    | unfold envelopeDecays; cbn; unfold inject_Z;
      split; [reflexivity | repeat split; lra] ].

Lemma sound_names (name : string) :
  In name SOUNDS <->
  (String.eqb name "kick" || String.eqb name "snare" || String.eqb name "hihat" ||
   String.eqb name "tom" || String.eqb name "clap" || String.eqb name "rim") = true.
Proof.
  unfold SOUNDS. simpl.
  destruct (String.eqb_spec name "kick"); [subst; simpl; tauto|].
  destruct (String.eqb_spec name "snare"); [subst; simpl; tauto|].
  destruct (String.eqb_spec name "hihat"); [subst; simpl; tauto|].
  destruct (String.eqb_spec name "tom"); [subst; simpl; tauto|].
  destruct (String.eqb_spec name "clap"); [subst; simpl; tauto|].
  destruct (String.eqb_spec name "rim"); [subst; simpl; tauto|].
  simpl. split; [|discriminate].
  intros [H|[H|[H|[H|[H|[H|[]]]]]]]; congruence.
Qed.

(** X7: the sound bank and the time of a trigger.  With the audio context
    initialised, [playSoundAtTime] for one of the six names of [SOUNDS]
    (1) at a time the Web Audio API refuses (negative: [RangeError], not
    finite: [TypeError]) throws that error and adds no voice to the graph;
    (2) at any other time returns normally and adds at least one voice, and
    the envelope of every voice it adds starts with the voice at a level in
    (0,1] and decays to the floor 0.001, never to zero.  (3) A name that is
    not in [SOUNDS] adds no voice and returns normally at every time;
    (4) without an audio context the call returns normally and does nothing
    but for its entry in the instrumentation. *)
Theorem sound_bank_checks_trigger_time (name : string) (time : float) (s : App) :
  (forall ctx e, audioCtx s = Some ctx -> In name SOUNDS ->
     timeCheck time = Some e ->
     fst (playSoundAtTime name time s) = Throw e /\
     voicesAdded (playSoundAtTime name time) s = []) /\
  (forall ctx, audioCtx s = Some ctx -> In name SOUNDS ->
     timeCheck time = None ->
     fst (playSoundAtTime name time s) = Normal tt /\
     voicesAdded (playSoundAtTime name time) s <> [] /\
     Forall envelopeDecays (voicesAdded (playSoundAtTime name time) s)) /\
  (forall ctx, audioCtx s = Some ctx -> ~ In name SOUNDS ->
     fst (playSoundAtTime name time s) = Normal tt /\
     voicesAdded (playSoundAtTime name time) s = []) /\
  (audioCtx s = None ->
     playSoundAtTime name time s =
       (Normal tt, set_trace (trace s ++ [Trigger name time]) s)).
Proof.
  split; [|split; [|split]].
  - intros ctx e Hctx Hin Hno.
    rewrite (playSoundAtTime_refused name time e s ctx Hno Hctx Hin).
    split; [reflexivity|].
    unfold voicesAdded, exec.
    rewrite (playSoundAtTime_refused name time e s ctx Hno Hctx Hin).
    destruct s; simpl in *. rewrite Hctx. apply skipn_exact.
  - intros ctx Hctx Hin Hok.
    destruct s as [ac pat cs ip tid b nst lss nb tm nt u tr rd].
    simpl in Hctx. subst ac.
    unfold voicesAdded, exec, playSoundAtTime.
    unfold playKick, playSnare, playHihat, playTom, playClap, playRim, atTime.
    rewrite Hok.
    apply sound_names in Hin.
    destruct (String.eqb name "kick");
      [simpl; rewrite <- ?app_assoc, skipn_app_exact;
       split; [reflexivity|]; split; [discriminate | envelopes]|].
    destruct (String.eqb name "snare");
      [simpl; rewrite <- ?app_assoc, skipn_app_exact;
       split; [reflexivity|]; split; [discriminate | envelopes]|].
    destruct (String.eqb name "hihat");
      [simpl; rewrite <- ?app_assoc, skipn_app_exact;
       split; [reflexivity|]; split; [discriminate | envelopes]|].
    destruct (String.eqb name "tom");
      [simpl; rewrite <- ?app_assoc, skipn_app_exact;
       split; [reflexivity|]; split; [discriminate | envelopes]|].
    destruct (String.eqb name "clap");
      [simpl; rewrite <- ?app_assoc, skipn_app_exact;
       split; [reflexivity|]; split; [discriminate | envelopes]|].
    destruct (String.eqb name "rim");
      [simpl; rewrite <- ?app_assoc, skipn_app_exact;
       split; [reflexivity|]; split; [discriminate | envelopes]|].
    discriminate Hin.
  - intros ctx Hctx Hin.
    destruct s as [ac pat cs ip tid b nst lss nb tm nt u tr rd].
    simpl in Hctx. subst ac.
    unfold voicesAdded, exec, playSoundAtTime.
    pose proof (sound_names name) as Hn.
    destruct (String.eqb name "kick"); [exfalso; apply Hin, Hn; reflexivity|].
    destruct (String.eqb name "snare"); [exfalso; apply Hin, Hn; reflexivity|].
    destruct (String.eqb name "hihat"); [exfalso; apply Hin, Hn; reflexivity|].
    destruct (String.eqb name "tom"); [exfalso; apply Hin, Hn; reflexivity|].
    destruct (String.eqb name "clap"); [exfalso; apply Hin, Hn; reflexivity|].
    destruct (String.eqb name "rim"); [exfalso; apply Hin, Hn; reflexivity|].
    cbn. rewrite skipn_exact. split; reflexivity.
  - intros Hctx.
    unfold playSoundAtTime, bind, log, modify, gets. cbn. rewrite Hctx. reflexivity.
Qed.

Lemma sound_bank_checks_trigger_time_witness :
  fst (playSoundAtTime "snare" (-1) audioReady) = Throw RangeError /\
  fst (playSoundAtTime "snare" nan audioReady) = Throw TypeError /\
  voicesAdded (playSoundAtTime "snare" (-1)) audioReady = [] /\
  List.length (voicesAdded (playSoundAtTime "clap" 1) audioReady) = 4%nat /\
  Forall envelopeDecays (voicesAdded (playSoundAtTime "clap" 1) audioReady) /\
  playSoundAtTime "kick" 1 initial =
    (Normal tt, set_trace (trace initial ++ [Trigger "kick" 1%float]) initial).
Proof.
  destruct audioReady_audioCtx as [ctx [Hctx _]].
  destruct (sound_bank_checks_trigger_time "snare" (-1) audioReady) as [H1 _].
  destruct (sound_bank_checks_trigger_time "snare" nan audioReady) as [H1' _].
  destruct (sound_bank_checks_trigger_time "clap" 1 audioReady) as [_ [H2 _]].
  destruct (sound_bank_checks_trigger_time "kick" 1 initial) as [_ [_ [_ H4]]].
  destruct (H1 ctx RangeError Hctx) as [Ha Hb];
    [simpl; tauto | vm_compute; reflexivity|].
  destruct (H1' ctx TypeError Hctx) as [Ha' _];
    [simpl; tauto | vm_compute; reflexivity|].
  destruct (H2 ctx Hctx) as [_ [_ Hc]];
    [simpl; tauto | vm_compute; reflexivity|].
  split; [exact Ha|]. split; [exact Ha'|]. split; [exact Hb|].
  split; [vm_compute; reflexivity|]. split; [exact Hc|].
  apply H4. vm_compute. reflexivity.
Defined.

(** ** Invariants of the event loop *)

Lemma run_preserves_if (R : App -> App -> Prop) `{HR : RelationClasses.PreOrder App R}
  (P : Action -> bool) (fuel : nat) :
  (forall a, P a = true -> preserves R (perform fuel a)) ->
  forall (l : list Action) (s s' : App),
    forallb P l = true -> run fuel l s = Some s' -> R s s'.
Proof.
  intros Hp l. induction l as [|a l IH]; intros s s' Hl Hrun; simpl in Hrun.
  - injection Hrun as <-. reflexivity.
  - simpl in Hl. apply andb_true_iff in Hl. destruct Hl as [Ha Hl].
    specialize (Hp a Ha s).
    destruct (perform fuel a s) as [[[]| e |] s1]; simpl in Hp; try discriminate;
      (etransitivity; [exact Hp | apply (IH _ _ Hl Hrun)]).
Qed.

#[local] Instance keeps_preorder (I : App -> Prop) : RelationClasses.PreOrder (keeps I).
Proof.
  split.
  - intros s H. exact H.
  - intros s1 s2 s3 H12 H23 H. apply H23, H12, H.
Qed.

Ltac keeps_simple :=
  unfold keeps, tempoInRange, stepInRange, mapCtx, clamp,
    CONFIG.minBpm, CONFIG.maxBpm, CONFIG.steps;
  match goal with
  | s : App |- _ => destruct s as [[?|] ? ? ? ? ? ? ? ? ? ? ? ? ?]
  end;
  simpl; try destruct (_ <=? _)%float; simpl;
  intros H; first [exact H | lia | apply Z.mod_pos_bound; lia].

Lemma perform_keeps_tempoInRange (fuel : nat) (a : Action) :
  readsNoStorage a = true -> preserves (keeps tempoInRange) (perform fuel a).
Proof.
  intros Ha. destruct a; try discriminate; cbn [perform]; structural; keeps_simple.
Qed.

(** X8: the tempo stays in [60,180] through every handler and timer callback
    that does not read saved state: from a state whose tempo is in the range,
    a run without a page load and without the Load button ends, if it ends,
    with the tempo in the range; of these handlers only [setBpm] writes the
    tempo, and it clamps. *)
Theorem tempo_stays_in_range (fuel : nat) (l : list Action) (s s' : App) :
  60 <= bpm s <= 180 ->
  forallb readsNoStorage l = true ->
  run fuel l s = Some s' ->
  60 <= bpm s' <= 180.
Proof.
  intros Hs Hl Hrun.
  apply (run_preserves_if (keeps tempoInRange) readsNoStorage fuel
           (perform_keeps_tempoInRange fuel) l s s' Hl Hrun).
  exact Hs.
Qed.

Lemma tempo_stays_in_range_witness :
  exists s',
    run 20 [PlayButton 44100; Slider 500; ClockMoves (clockAt 1); TimerFires 2;
            SaveButton true; Slider (-7)] initial = Some s' /\
    60 <= bpm s' <= 180.
Proof.
  assert (Hrun : exists s',
    run 20 [PlayButton 44100; Slider 500; ClockMoves (clockAt 1); TimerFires 2;
            SaveButton true; Slider (-7)] initial = Some s')
    by (eexists; vm_compute; reflexivity).
  destruct Hrun as [s' Hrun]. exists s'. split; [exact Hrun|].
  refine (tempo_stays_in_range 20 _ initial s' _ _ Hrun).
  - vm_compute. split; discriminate.
  - vm_compute. reflexivity.
Defined.

Lemma perform_keeps_stepInRange (fuel : nat) (a : Action) :
  preserves (keeps stepInRange) (perform fuel a).
Proof.
  destruct a; cbn [perform]; structural; keeps_simple.
Qed.

(** X9: in every state the page can reach, page load and Load button
    included (with what the storage holds being an item as modelled: a saved
    tempo is absent or an integer), the step index is one of 0..15, so the
    scheduler reads inside the 16 columns of the grid. *)
Theorem step_index_stays_in_range (fuel : nat) (l : list Action) (s' : App) :
  run fuel l initial = Some s' ->
  0 <= currentStep s' < 16.
Proof.
  intros Hrun.
  apply (run_preserves (keeps stepInRange) fuel
           (perform_keeps_stepInRange fuel) l initial s' Hrun).
  change (0 <= 0 < 16). lia.
Qed.

Lemma step_index_stays_in_range_witness :
  exists s',
    run 20 [PageLoad (Item tinyPattern (Some 0)); PageLoad (Item VNull (Some 400));
            PlayButton 44100] initial = Some s' /\
    0 <= currentStep s' < 16.
Proof.
  assert (Hrun : exists s',
    run 20 [PageLoad (Item tinyPattern (Some 0)); PageLoad (Item VNull (Some 400));
            PlayButton 44100] initial = Some s')
    by (eexists; vm_compute; reflexivity).
  destruct Hrun as [s' Hrun]. exists s'. split; [exact Hrun|].
  apply (step_index_stays_in_range 20 _ s' Hrun).
Defined.
(** ** At most one heartbeat is pending *)

Lemma setTimeout_run (cb : Callback) (delay : float) (s : App) :
  setTimeout cb delay s =
    (Normal (nextTimerId s),
     set_nextTimerId (S (nextTimerId s))
       (set_timers (timers s ++
          [{| timer_id := nextTimerId s; timer_cb := cb; timer_delay := delay |}]) s)).
Proof. reflexivity. Qed.

Lemma NoDup_snoc (l : list nat) (x : nat) :
  NoDup l -> ~ In x l -> NoDup (l ++ [x]).
Proof.
  intros Hl Hx. induction Hl as [|y l Hy Hl IH]; simpl.
  - constructor; [intros [] | constructor].
  - constructor.
    + intros Hin. apply in_app_or in Hin. destruct Hin as [Hin|[Hin|[]]].
      * contradiction.
      * apply Hx. left. symmetry. exact Hin.
    + apply IH. intros Hin. apply Hx. right. exact Hin.
Qed.

Lemma NoDup_map_filter (p : Timer -> bool) (l : list Timer) :
  NoDup (map timer_id l) -> NoDup (map timer_id (filter p l)).
Proof.
  induction l as [|t l IH]; simpl; intros H; [constructor|].
  inversion H as [|? ? Hnin Hnd]; subst.
  destruct (p t); simpl; [|apply IH; exact Hnd].
  constructor; [|apply IH; exact Hnd].
  intros Hin. apply Hnin. apply in_map_iff in Hin. destruct Hin as [u [Hu Hin]].
  apply in_map_iff. exists u. split; [exact Hu|].
  apply filter_In in Hin. apply Hin.
Qed.

Lemma timersWellFormed_add (cb : Callback) (delay : float) (s : App) :
  timersWellFormed s ->
  timersWellFormed
    (set_nextTimerId (S (nextTimerId s))
       (set_timers (timers s ++
          [{| timer_id := nextTimerId s; timer_cb := cb; timer_delay := delay |}]) s)).
Proof.
  intros [H1 [H2 [H3 H4]]]. unfold timersWellFormed. simpl.
  split; [lia|]. split; [|split].
  - intros t Hin. apply in_app_or in Hin. destruct Hin as [Hin|[<-|[]]].
    + specialize (H2 t Hin). lia.
    + simpl. lia.
  - rewrite map_app. simpl. apply NoDup_snoc; [exact H3|].
    intros Hin. apply in_map_iff in Hin. destruct Hin as [t [Ht Hin]].
    specialize (H2 t Hin). lia.
  - intros id Hid. specialize (H4 id Hid). lia.
Qed.

#[local] Instance addsUiTimers_preorder : RelationClasses.PreOrder addsUiTimers.
Proof.
  split.
  - intros s H. split; [exact H|]. repeat split.
  - intros s1 s2 s3 H12 H23 H1.
    destruct (H12 H1) as [H2 [Ha [Hb Hc]]].
    destruct (H23 H2) as [H3 [Ha' [Hb' Hc']]].
    split; [exact H3|]. repeat split; congruence.
Qed.

Lemma setTimeout_ui_addsUiTimers (step : Z) (delay : float) :
  preserves addsUiTimers (setTimeout (CbStepUI step) delay).
Proof.
  intros s H. rewrite setTimeout_run. cbn [snd].
  split; [apply timersWellFormed_add; exact H|].
  split; [reflexivity|]. split; [reflexivity|].
  unfold heartbeats. simpl. rewrite filter_app. simpl. apply app_nil_r.
Qed.

#[local] Hint Resolve setTimeout_ui_addsUiTimers : handlers.

Ltac timer_leaf :=
  unfold addsUiTimers, unchanged, timerView, timersWellFormed, heartbeats, mapCtx;
  match goal with
  | s : App |- _ => destruct s as [[?|] ? ? ? ? ? ? ? ? ? ? ? ? ?]
  end;
  simpl; try destruct ((_ <=? _)%float);
  first [ reflexivity | intros H; split; [exact H | repeat split] ].

Lemma schedulerLoop_addsUiTimers (fuel : nat) :
  preserves addsUiTimers (schedulerLoop fuel).
Proof. structural; timer_leaf. Qed.

Lemma heartbeats_none_when_stopped (s : App) :
  heartbeatOwned s -> isPlaying s = false -> heartbeats s = [].
Proof.
  intros Hown Hstop. destruct (heartbeats s) as [|t l] eqn:E; [reflexivity|].
  destruct (Hown t) as [Hp _]; [rewrite E; left; reflexivity | congruence].
Qed.

Lemma heartbeatOwned_of_none (s : App) : heartbeats s = [] -> heartbeatOwned s.
Proof. intros H t Hin. rewrite H in Hin. destruct Hin. Qed.

(** A heartbeat entered with no heartbeat pending leaves at most the one it
    arms, and keeps its handle. *)
Lemma scheduler_arms_one (fuel : nat) (s : App) :
  timersWellFormed s -> heartbeats s = [] ->
  timerInv (snd (scheduler fuel s)).
Proof.
  intros Hwf Hnone.
  destruct (isPlaying s) eqn:Hplay.
  - rewrite (scheduler_running fuel s Hplay).
    destruct (schedulerLoop_addsUiTimers fuel s Hwf) as [Hwf1 [Hp1 [Hid1 Hhb1]]].
    unfold bind at 1. destruct (schedulerLoop fuel s) as [[[]| e |] s1]; cbn [snd] in *.
    + rewrite (run_bind _ _ _ _ _ (setTimeout_run _ _ s1)).
      cbn [modify snd]. split.
      * pose proof (timersWellFormed_add CbScheduler CONFIG.lookaheadInterval s1 Hwf1)
          as [H1 [H2 [H3 H4]]].
        unfold timersWellFormed. simpl in *.
        split; [exact H1|]. split; [exact H2|]. split; [exact H3|].
        intros k Hk. injection Hk as <-. destruct Hwf1 as [Hn1 _]. lia.
      * intros t Hin. unfold heartbeats in Hin. simpl in Hin.
        rewrite filter_app in Hin. fold (heartbeats s1) in Hin.
        rewrite Hhb1, Hnone in Hin. simpl in Hin. destruct Hin as [<-|[]].
        simpl. split; [congruence | reflexivity].
    + split; [exact Hwf1 | apply heartbeatOwned_of_none; congruence].
    + split; [exact Hwf1 | apply heartbeatOwned_of_none; congruence].
  - rewrite (scheduler_stopped fuel s Hplay). cbn [snd].
    split; [exact Hwf | apply heartbeatOwned_of_none; exact Hnone].
Qed.

Lemma startSequencer_keeps_timerInv (fuel : nat) :
  preserves (keeps timerInv) (startSequencer fuel).
Proof.
  intros s [Hwf Hown].
  destruct (isPlaying s) eqn:Hplay.
  - rewrite (startSequencer_running fuel s Hplay). split; assumption.
  - pose proof (heartbeats_none_when_stopped s Hown Hplay) as Hnone.
    destruct (audioCtx s) as [ctx|] eqn:Hctx.
    + rewrite (startSequencer_seeds fuel s ctx Hplay Hctx).
      apply scheduler_arms_one; [exact Hwf | exact Hnone].
    + rewrite (startSequencer_no_audio fuel s Hplay Hctx). cbn [snd].
      split; [exact Hwf | apply heartbeatOwned_of_none; exact Hnone].
Qed.

Lemma filter_heartbeats_subset (p : Timer -> bool) (l : list Timer) (t : Timer) :
  In t (filter isHeartbeat (filter p l)) -> In t (filter isHeartbeat l) /\ p t = true.
Proof.
  intros H. apply filter_In in H. destruct H as [H Hb].
  apply filter_In in H. destruct H as [H Hp].
  split; [apply filter_In; split; assumption | exact Hp].
Qed.

Lemma timersWellFormed_filter (p : Timer -> bool) (s : App) :
  timersWellFormed s -> timersWellFormed (set_timers (filter p (timers s)) s).
Proof.
  intros [H1 [H2 [H3 H4]]]. unfold timersWellFormed. simpl.
  split; [exact H1|]. split; [|split; [|exact H4]].
  - intros t Hin. apply filter_In in Hin. apply H2, Hin.
  - apply NoDup_map_filter. exact H3.
Qed.

Lemma stopSequencer_keeps_timerInv : preserves (keeps timerInv) stopSequencer.
Proof.
  intros s [Hwf Hown].
  destruct (isPlaying s) eqn:Hplay;
    [|rewrite (stopSequencer_stopped s Hplay); split; assumption].
  destruct Hwf as [H1 [H2 [H3 H4]]].
  destruct s as [ac pat cs ip tid b nst lss nb tm nt u tr rd].
  simpl in Hplay. subst ip.
  unfold heartbeatOwned, heartbeats in Hown. simpl in *.
  destruct tid as [[|id]|].
  - specialize (H4 O eq_refl). lia.
  - split.
    + unfold timersWellFormed. simpl. split; [exact H1|]. split; [|split].
      * intros t Hin. apply filter_In in Hin. apply H2, Hin.
      * apply NoDup_map_filter. exact H3.
      * intros k Hk. discriminate.
    + intros t Hin. unfold heartbeats in Hin. simpl in Hin.
      apply filter_heartbeats_subset in Hin. destruct Hin as [Hin Hne].
      destruct (Hown t Hin) as [_ Hid]. injection Hid as Hid.
      apply negb_true_iff, Nat.eqb_neq in Hne. congruence.
  - split.
    + unfold timersWellFormed. simpl.
      split; [exact H1|]. split; [exact H2|]. split; [exact H3 | exact H4].
    + intros t Hin. unfold heartbeats in Hin. simpl in Hin.
      destruct (Hown t Hin) as [_ Hid]. discriminate.
Qed.

Lemma fireTimer_keeps_timerInv (fuel id : nat) :
  preserves (keeps timerInv) (fireTimer fuel id).
Proof.
  intros s [Hwf Hown].
  unfold fireTimer. unfold bind at 1, gets at 1.
  destruct (find (fun t => Nat.eqb (timer_id t) id) (timers s)) as [tm|] eqn:Hfind;
    [|split; assumption].
  apply find_some in Hfind. destruct Hfind as [Hin Hid]. apply Nat.eqb_eq in Hid.
  unfold bind at 1, clearTimeout at 1, modify at 1.
  match goal with
  | |- context [set_timers (filter ?p (timers s)) s] =>
      set (s1 := set_timers (filter p (timers s)) s);
      pose proof (timersWellFormed_filter p s Hwf) as Hwf1; fold s1 in Hwf1
  end.
  assert (Hown1 : heartbeatOwned s1).
  { intros t Ht. unfold heartbeats, s1 in Ht. simpl in Ht.
    apply filter_heartbeats_subset in Ht. destruct Ht as [Ht _].
    apply (Hown t Ht). }
  destruct (timer_cb tm) as [|step] eqn:Hcb; cbn [runCallback].
  - apply scheduler_arms_one; [exact Hwf1|].
    destruct (heartbeats s1) as [|t l] eqn:E; [reflexivity|]. exfalso.
    assert (Ht : In t (heartbeats s1)) by (rewrite E; left; reflexivity).
    unfold heartbeats, s1 in Ht. simpl in Ht.
    apply filter_heartbeats_subset in Ht. destruct Ht as [Ht Hne].
    apply negb_true_iff, Nat.eqb_neq in Hne.
    destruct (Hown t Ht) as [_ Hs].
    assert (Htm : In tm (heartbeats s)).
    { apply filter_In. split; [exact Hin|]. unfold isHeartbeat. rewrite Hcb. reflexivity. }
    destruct (Hown tm Htm) as [_ Hs']. congruence.
  - unfold bind, gets, when. destruct (isPlaying s1); cbn [snd];
      split; assumption.
Qed.

Lemma neutral_keeps_timerInv {A : Type} (c : M A) :
  preserves (unchanged timerView) c -> preserves (keeps timerInv) c.
Proof.
  intros H s [[H1 [H2 [H3 H4]]] Hown]. specialize (H s).
  unfold unchanged, timerView in H. injection H as Ht Hn Hp Hi.
  unfold timerInv, timersWellFormed, heartbeatOwned, heartbeats.
  rewrite Ht, Hn, Hp, Hi. repeat split; try assumption; try apply H2; try apply H4;
    try assumption; apply (Hown t); assumption.
Qed.

Lemma perform_keeps_timerInv (fuel : nat) (a : Action) :
  preserves (keeps timerInv) (perform fuel a).
Proof.
  destruct a; cbn [perform];
    try (apply neutral_keeps_timerInv; structural; timer_leaf; fail).
  - (* play button *)
    apply preserves_bind; [exact _ | | intros _].
    + apply neutral_keeps_timerInv. structural; timer_leaf.
    + unfold togglePlayback. apply preserves_bind; [exact _ | apply preserves_gets; exact _|].
      intros [|]; [apply stopSequencer_keeps_timerInv | apply startSequencer_keeps_timerInv].
  - (* the page is hidden *)
    unfold handleVisibilityHidden.
    apply preserves_bind; [exact _ | apply preserves_gets; exact _|].
    intros p. apply preserves_when; [exact _ | apply stopSequencer_keeps_timerInv].
  - apply fireTimer_keeps_timerInv.
  - apply startSequencer_keeps_timerInv.
  - apply stopSequencer_keeps_timerInv.
Qed.

Lemma same_id_at_most_one (l : list Timer) (k : nat) :
  NoDup (map timer_id l) -> (forall t, In t l -> timer_id t = k) ->
  (List.length l <= 1)%nat.
Proof.
  intros Hnd Hk. destruct l as [|t [|t' l]]; simpl; try lia.
  exfalso. inversion Hnd as [|? ? Hnin _]; subst. apply Hnin.
  left. rewrite (Hk t), (Hk t'); simpl; auto.
Qed.

Lemma initial_timerInv : timerInv initial.
Proof.
  split.
  - unfold timersWellFormed. simpl.
    split; [lia|]. split; [intros t []|]. split; [constructor|].
    intros k H. discriminate.
  - intros t [].
Qed.

(** X11: in every state the page can reach, timer identifiers are pairwise
    different, at most one heartbeat timer is pending, the scheduler holds
    the handle of the one that is, and none is pending while the transport is
    Stopped: no sequence of clicks, key presses, loads, tempo changes and
    timer firings arms a second heartbeat. *)
Theorem at_most_one_heartbeat_pending (fuel : nat) (l : list Action) (s' : App) :
  run fuel l initial = Some s' ->
  NoDup (map timer_id (timers s')) /\
  (List.length (heartbeats s') <= 1)%nat /\
  (forall t, In t (heartbeats s') -> schedulerTimerId s' = Some (timer_id t)) /\
  (isPlaying s' = false -> heartbeats s' = []).
Proof.
  intros Hrun.
  assert (Hinv : timerInv s').
  { apply (run_preserves (keeps timerInv) fuel (perform_keeps_timerInv fuel)
             l initial s' Hrun).
    exact initial_timerInv. }
  destruct Hinv as [[H1 [H2 [H3 H4]]] Hown].
  split; [exact H3|]. split; [|split].
  - destruct (heartbeats s') as [|t0 rest] eqn:E; [simpl; lia|].
    rewrite <- E.
    apply (same_id_at_most_one _ (timer_id t0)).
    + apply NoDup_map_filter. exact H3.
    + intros t Ht.
      destruct (Hown t Ht) as [_ Hs].
      destruct (Hown t0) as [_ Hs0]; [rewrite E; left; reflexivity|].
      congruence.
  - intros t Ht. apply (Hown t Ht).
  - apply heartbeats_none_when_stopped. exact Hown.
Qed.

Lemma at_most_one_heartbeat_pending_witness :
  exists s',
    run 20 [PlayButton 44100; CallStart; ClockMoves (clockAt 1); TimerFires 2; PlayButton 44100;
            PlayButton 44100; TimerFires 2; Hidden; CallStart] initial = Some s' /\
    (List.length (heartbeats s') <= 1)%nat.
Proof.
  assert (Hrun : exists s',
    run 20 [PlayButton 44100; CallStart; ClockMoves (clockAt 1); TimerFires 2; PlayButton 44100;
            PlayButton 44100; TimerFires 2; Hidden; CallStart] initial = Some s')
    by (eexists; vm_compute; reflexivity).
  destruct Hrun as [s' Hrun]. exists s'. split; [exact Hrun|].
  apply (at_most_one_heartbeat_pending 20 _ s' Hrun).
Defined.

(** ** The page shows the state *)

Ltac ui_leaf :=
  unfold keeps, unchanged, uiInv, uiView, mapCtx;
  match goal with
  | s : App |- _ =>
      destruct s as [[?|] ? ? ? ? ? ? ? ? ? ? [? ? ? ? ? ?] ? ?]
  end;
  simpl; try destruct ((_ <=? _)%float);
  first [ reflexivity | intros H; exact H ].

Lemma neutral_keeps_uiInv {A : Type} (c : M A) :
  preserves (unchanged uiView) c -> preserves (keeps uiInv) c.
Proof.
  intros H s Hinv. specialize (H s).
  unfold unchanged, uiView in H. injection H as H1 H2 H3 H4 H5 H6.
  unfold uiInv in *. rewrite H1, H2, H3, H4, H5, H6. exact Hinv.
Qed.

Lemma setBpm_keeps_uiInv (n : Z) : preserves (keeps uiInv) (setBpm n).
Proof.
  intros s [H1 [H2 [_ H4]]]. unfold uiInv. simpl.
  repeat split; assumption.
Qed.

#[local] Hint Resolve setBpm_keeps_uiInv : handlers.

Lemma scheduler_keeps_uiInv (fuel : nat) : preserves (keeps uiInv) (scheduler fuel).
Proof. apply neutral_keeps_uiInv. structural; ui_leaf. Qed.

Lemma startSequencer_keeps_uiInv (fuel : nat) :
  preserves (keeps uiInv) (startSequencer fuel).
Proof.
  intros s Hinv. destruct (isPlaying s) eqn:Hplay.
  - rewrite (startSequencer_running fuel s Hplay). exact Hinv.
  - destruct Hinv as [_ [_ [H3 _]]].
    destruct (audioCtx s) as [ctx|] eqn:Hctx.
    + rewrite (startSequencer_seeds fuel s ctx Hplay Hctx).
      apply scheduler_keeps_uiInv.
      unfold uiInv. simpl. repeat split; try assumption. discriminate.
    + rewrite (startSequencer_no_audio fuel s Hplay Hctx).
      unfold uiInv. simpl. repeat split; try assumption. discriminate.
Qed.

Lemma stopSequencer_keeps_uiInv : preserves (keeps uiInv) stopSequencer.
Proof.
  intros s Hinv. destruct (isPlaying s) eqn:Hplay;
    [|rewrite (stopSequencer_stopped s Hplay); exact Hinv].
  destruct Hinv as [_ [_ [H3 _]]].
  destruct s as [ac pat cs ip [[|id]|] b nst lss nb tm nt u tr rd];
    simpl in Hplay; subst ip; unfold uiInv; simpl in *;
    repeat split; assumption.
Qed.

Lemma fireTimer_keeps_uiInv (fuel id : nat) :
  preserves (keeps uiInv) (fireTimer fuel id).
Proof.
  intros s Hinv.
  unfold fireTimer. unfold bind at 1, gets at 1.
  destruct (find (fun t => Nat.eqb (timer_id t) id) (timers s)) as [tm|];
    [|exact Hinv].
  unfold bind at 1, clearTimeout at 1, modify at 1.
  destruct (timer_cb tm) as [|step]; cbn [runCallback].
  - apply scheduler_keeps_uiInv. exact Hinv.
  - unfold bind, gets, when. cbn [isPlaying set_timers].
    destruct (isPlaying s) eqn:Hplay; cbn [snd]; [|exact Hinv].
    destruct Hinv as [H1 [H2 [H3 _]]].
    unfold uiInv. simpl. rewrite Hplay in *.
    repeat split; try assumption. discriminate.
Qed.

Lemma init_keeps_uiInv (item : StorageItem) : preserves (keeps uiInv) (init item).
Proof.
  intros s Hinv.
  destruct item as [| |p [n|]|]; try exact Hinv;
    unfold init, try_catch, bind, when, modify, gets, ret, updateUI;
    destruct (truthy p); try rewrite updateGridDisplay_cases;
    try destruct (rowsReadable _); try destruct (n =? 0); cbn [negb snd];
    try exact Hinv;
    destruct Hinv as [H1 [H2 [H3 H4]]]; unfold uiInv; simpl;
    repeat split; assumption.
Qed.

Lemma perform_keeps_uiInv (fuel : nat) (a : Action) :
  preserves (keeps uiInv) (perform fuel a).
Proof.
  destruct a; cbn [perform];
    try (apply neutral_keeps_uiInv; structural; ui_leaf; fail).
  - apply init_keeps_uiInv.
  - (* play button *)
    apply preserves_bind; [exact _ | | intros _].
    + apply neutral_keeps_uiInv. structural; ui_leaf.
    + unfold togglePlayback. apply preserves_bind; [exact _ | apply preserves_gets; exact _|].
      intros [|]; [apply stopSequencer_keeps_uiInv | apply startSequencer_keeps_uiInv].
  - apply setBpm_keeps_uiInv.
  - (* load *)
    structural; ui_leaf.
  - (* the page is hidden *)
    unfold handleVisibilityHidden.
    apply preserves_bind; [exact _ | apply preserves_gets; exact _|].
    intros p. apply preserves_when; [exact _ | apply stopSequencer_keeps_uiInv].
  - apply fireTimer_keeps_uiInv.
  - apply startSequencer_keeps_uiInv.
  - apply stopSequencer_keeps_uiInv.
Qed.

(** X12: in every state the page can reach, the Play button has the class
    [playing] exactly when the transport is Running and reads "Stop" then and
    "Play" otherwise, the tempo read-out shows the live tempo, and no step is
    highlighted while the transport is Stopped. *)
Theorem page_shows_the_state (fuel : nat) (l : list Action) (s' : App) :
  run fuel l initial = Some s' ->
  playing (ui s') = isPlaying s' /\
  btnText (ui s') = (if isPlaying s' then "Stop" else "Play") /\
  bpmValue (ui s') = bpm s' /\
  (isPlaying s' = false -> highlight (ui s') = None).
Proof.
  intros Hrun.
  apply (run_preserves (keeps uiInv) fuel (perform_keeps_uiInv fuel) l initial s' Hrun).
  unfold uiInv. simpl. repeat split.
Qed.

Lemma page_shows_the_state_witness :
  exists s',
    run 20 [PageLoad (Item VNull (Some 90)); PlayButton 44100; ClockMoves (clockAt 1);
            TimerFires 1; TimerFires 2; TimerFires 3; Slider 200; CallStop;
            TimerFires 4; CallStart] initial = Some s' /\
    bpmValue (ui s') = bpm s' /\ playing (ui s') = isPlaying s'.
Proof.
  assert (Hrun : exists s',
    run 20 [PageLoad (Item VNull (Some 90)); PlayButton 44100; ClockMoves (clockAt 1);
            TimerFires 1; TimerFires 2; TimerFires 3; Slider 200; CallStop;
            TimerFires 4; CallStart] initial = Some s')
    by (eexists; vm_compute; reflexivity).
  destruct Hrun as [s' Hrun]. exists s'. split; [exact Hrun|].
  destruct (page_shows_the_state 20 _ s' Hrun) as [H1 [_ [H3 _]]].
  split; [exact H3 | exact H1].
Defined.


(** ** Restoring at page load *)

(** X13: the restore of [init].  The read of the storage is outside the
    [try]: when the storage refuses it, [init] throws.  Otherwise [init]
    returns normally: without a saved item, or with one that does not parse,
    it leaves the state as it is; with a saved item it installs the saved
    pattern whenever that value is truthy, without any check of its shape,
    and refreshes the grid display from it; if that refresh throws (a row of
    the saved pattern is [undefined] or [null]) the error is swallowed and
    the saved tempo is not restored; otherwise a saved integer tempo other
    than 0 becomes the live tempo as it is, unclamped, and is shown.  The
    transport, the scheduler position, the timers and the audio context are
    never touched. *)
Theorem init_restores_without_checks (item : StorageItem) (s : App) :
  match item with
  | Refused => init item s = (Throw SecurityError, s)
  | NoItem | Unparsable => init item s = (Normal tt, s)
  | Item p b =>
      fst (init item s) = Normal tt /\
      pattern (snd (init item s)) = (if truthy p then p else pattern s) /\
      bpm (snd (init item s)) =
        match b with
        | Some n =>
            if (n =? 0) || (truthy p && negb (rowsReadable p)) then bpm s else n
        | None => bpm s
        end /\
      bpmValue (ui (snd (init item s))) =
        match b with
        | Some n =>
            if (n =? 0) || (truthy p && negb (rowsReadable p))
            then bpmValue (ui s) else n
        | None => bpmValue (ui s)
        end /\
      transport (snd (init item s)) = transport s /\
      position (snd (init item s)) = position s /\
      timerView (snd (init item s)) = timerView s /\
      audioCtx (snd (init item s)) = audioCtx s
  end.
Proof.
  destruct item as [| |p [n|]|];
    unfold init, try_catch, bind, when, modify, gets, ret, throw, updateUI;
    try reflexivity;
    destruct (truthy p) eqn:Hp; try rewrite updateGridDisplay_cases;
    cbn [pattern set_pattern];
    try (replace (pattern (set_pattern p s)) with p by (destruct s; reflexivity));
    try destruct (rowsReadable p); try destruct (n =? 0); cbn [negb fst snd andb orb];
    destruct s; repeat split.
Qed.
(** ** Clicks on the grid *)

(** X15: a click on a cell of a 6 by 16 grid of booleans returns normally,
    negates that cell and, once the audio context exists, triggers the
    instrument of the row exactly once at the current reading of the clock,
    whether the click switched the cell on or off; before the audio context
    exists it triggers nothing. It leaves the transport and the position of
    the scheduler as they are. *)
Theorem grid_click_toggles_and_previews (row step : Z) (s : App) :
  booleanGrid (pattern s) = true ->
  0 <= row < 6 -> 0 <= step < 16 ->
  fst (handleGridClick row step s) = Normal tt /\
  cellActive (pattern (snd (handleGridClick row step s))) row step =
    negb (cellActive (pattern s) row step) /\
  trace (snd (handleGridClick row step s)) =
    match audioCtx s with
    | Some ctx =>
        trace s ++ [Trigger (nth (Z.to_nat row) SOUNDS EmptyString) (currentTime ctx)]
    | None => trace s
    end /\
  transport (snd (handleGridClick row step s)) = transport s /\
  position (snd (handleGridClick row step s)) = position s.
Proof.
  intros Hgrid Hrow Hstep.
  assert (Hframe : preserves (unchanged (fun s => (transport s, position s)))
                     (handleGridClick row step))
    by (structural; frame_leaf).
  specialize (Hframe s). unfold unchanged in Hframe.
  destruct (toggleCell_run row step s Hgrid Hrow Hstep)
    as [rows [cells [b [Hp [Hcells [Hb [Hr [Hc [_ Hrun]]]]]]]]].
  assert (Hname : nth_error SOUNDS (Z.to_nat row) =
                  Some (nth (Z.to_nat row) SOUNDS EmptyString)).
  { apply nth_error_nth'. unfold SOUNDS. cbn [List.length]. lia. }
  revert Hframe. unfold handleGridClick.
  rewrite (run_bind _ _ _ _ _ Hrun), Hname.
  set (s1 := set_pattern _ s).
  assert (Hcell : cellActive (pattern s1) row step = negb (cellActive (pattern s) row step)).
  { unfold s1. cbn [pattern set_pattern]. rewrite Hp. unfold cellActive.
    cbn [get_index]. rewrite !(element_nth row) by lia.
    rewrite nth_array_put_same, Hcells. cbn [get_index].
    rewrite !(element_nth step) by lia.
    rewrite nth_array_put_same, Hb. reflexivity. }
  assert (Hctx : audioCtx s1 = audioCtx s) by reflexivity.
  assert (Htrace : trace s1 = trace s) by reflexivity.
  assert (Hpat : forall s2, pattern s2 = pattern s1 ->
            cellActive (pattern s2) row step = negb (cellActive (pattern s) row step))
    by (intros s2 ->; exact Hcell).
  unfold playSound. rewrite (run_bind (gets audioCtx) _ s1 s1 (audioCtx s1) eq_refl).
  rewrite Hctx. destruct (audioCtx s) as [ctx|].
  - destruct (playSoundAtTime_run (nth (Z.to_nat row) SOUNDS EmptyString)
                (currentTime ctx) s1 (reading_ok (currentTime ctx))) as [Hfst Htr].
    pose proof (playSoundAtTime_inputs (nth (Z.to_nat row) SOUNDS EmptyString)
                  (currentTime ctx) s1) as Hin.
    unfold unchanged in Hin. apply (f_equal (fun x => fst (fst (fst x)))) in Hin.
    cbn [fst schedulerInputs] in Hin.
    intros Hframe. pose proof (f_equal fst Hframe) as Ht.
    pose proof (f_equal snd Hframe) as Hpos. cbn [fst snd] in Ht, Hpos.
    split; [exact Hfst|]. split; [apply Hpat; exact Hin|].
    split; [rewrite Htr, Htrace; reflexivity|]. split; assumption.
  - cbn [ret fst snd]. intros Hframe. pose proof (f_equal fst Hframe) as Ht.
    pose proof (f_equal snd Hframe) as Hpos. cbn [fst snd] in Ht, Hpos.
    split; [reflexivity|]. split; [exact Hcell|].
    split; [exact Htrace|]. split; assumption.
Qed.

Lemma grid_click_toggles_and_previews_witness :
  trace (snd (handleGridClick 2 7 audioReady)) =
    trace audioReady ++ [Trigger "hihat" 0%float] /\
  trace (snd (handleGridClick 2 7 (snd (handleGridClick 2 7 audioReady)))) =
    trace audioReady ++ [Trigger "hihat" 0%float; Trigger "hihat" 0%float].
Proof.
  assert (Hg : booleanGrid (pattern audioReady) = true) by (vm_compute; reflexivity).
  destruct (grid_click_toggles_and_previews 2 7 audioReady Hg) as [_ [_ [H1 _]]];
    [lia | lia |].
  split.
  - rewrite H1. vm_compute. reflexivity.
  - vm_compute. reflexivity.
Defined.

(** ** A negative tempo *)

(** X10: a negative tempo, which only the restore of [init] can install,
    makes the trigger times run backwards.  After a page load that restored
    the tempo -120 and a click on the kick of step 1, Play commits step 0 at
    0.05 s and then hands the second step to the sound bank at a negative
    time: the Web Audio API refuses it with a [RangeError], which nothing
    catches.  No voice of step 1 is connected, no heartbeat is armed, and the
    transport is left flagged Running with the button reading "Stop"; this
    holds for every bound of two or more on the iterations of the loop. *)
Theorem negative_tempo_breaks_playback (fuel : nat) :
  bpm reversedTempo = -120 /\
  fst (perform (S (S fuel)) (PlayButton 44100) reversedTempo) = Throw RangeError /\
  commits (trace (snd (perform (S (S fuel)) (PlayButton 44100) reversedTempo))) =
    [(0, (0 + 0.05)%float); (1, (0 + 0.05 + -0.125)%float)] /\
  (nextStepTime (snd (perform (S (S fuel)) (PlayButton 44100) reversedTempo)) <? 0)%float
    = true /\
  voicesAdded (startSequencer (S (S fuel))) (exec (initAudio 44100) reversedTempo) = [] /\
  heartbeats (snd (perform (S (S fuel)) (PlayButton 44100) reversedTempo)) = [] /\
  isPlaying (snd (perform (S (S fuel)) (PlayButton 44100) reversedTempo)) = true /\
  btnText (ui (snd (perform (S (S fuel)) (PlayButton 44100) reversedTempo))) = "Stop".
Proof. repeat split; vm_compute; reflexivity. Qed.

(** ** The look-ahead horizon *)

(** X16: a call of [scheduler] that returns normally while the transport is
    Running leaves nothing due: in the state it returns in, the test of its
    loop, [nextStepTime < audioCtx.currentTime + 0.1], is false, whatever the
    tempo; pattern, tempo, transport state and clock are as before, and the
    heartbeat it has armed is the one whose handle it keeps. *)
Theorem scheduler_returns_caught_up (fuel : nat) (s s' : App) (ctx : AudioContext) :
  isPlaying s = true ->
  audioCtx s = Some ctx ->
  scheduler fuel s = (Normal tt, s') ->
  beforeHorizon (nextStepTime s') (currentTime ctx) = false /\
  schedulerInputs s' = schedulerInputs s /\
  exists id,
    schedulerTimerId s' = Some id /\
    In {| timer_id := id; timer_cb := CbScheduler;
          timer_delay := CONFIG.lookaheadInterval |} (timers s').
Proof.
  intros Hplay Hctx Hrun.
  destruct (scheduler_normal fuel s s' ctx Hplay Hctx Hrun)
    as [k [_ [[_ Hexit] [_ [Hn [_ Hi]]]]]].
  split; [rewrite Hn; exact Hexit|]. split; [exact Hi|].
  revert Hrun. rewrite (scheduler_running fuel s Hplay).
  unfold bind at 1.
  destruct (schedulerLoop fuel s) as [[[]|e|] s1]; try discriminate.
  unfold bind, setTimeout, gets, modify, ret. simpl.
  intros H. injection H as <-. simpl.
  eexists. split; [reflexivity|].
  apply in_or_app. right. left. reflexivity.
Qed.

Lemma scheduler_returns_caught_up_witness :
  exists ctx,
    audioCtx (exec (advanceClock (clockAt 0.5)) beatPlaying) = Some ctx /\
    beforeHorizon
      (nextStepTime (snd (scheduler 10 (exec (advanceClock (clockAt 0.5)) beatPlaying))))
      (currentTime ctx) = false.
Proof.
  assert (Hctx : exists ctx,
            audioCtx (exec (advanceClock (clockAt 0.5)) beatPlaying) = Some ctx)
    by (eexists; vm_compute; reflexivity).
  destruct Hctx as [ctx Hctx]. exists ctx. split; [exact Hctx|].
  assert (Hfst : fst (scheduler 10 (exec (advanceClock (clockAt 0.5)) beatPlaying))
                 = Normal tt) by (vm_compute; reflexivity).
  destruct (scheduler 10 (exec (advanceClock (clockAt 0.5)) beatPlaying))
    as [o s1] eqn:Hrun.
  simpl in Hfst. subst o. simpl.
  destruct (scheduler_returns_caught_up 10
              (exec (advanceClock (clockAt 0.5)) beatPlaying) s1 ctx) as [H _];
    [vm_compute; reflexivity | exact Hctx | exact Hrun | exact H].
Defined.
